(** * Amazon reviews scraper: a shallow embedding and its properties.

    The development follows [src/extractors/utils_text.py] and
    [src/extractors/reviews_parser.py].

    Modelling conventions.
    - A Python [str] is its sequence of code points, [list N].  Whitespace
      ([str.split], [str.strip], the class [\s]) and the reading of letters
      under [re.IGNORECASE] are written out in full.  The rest of the
      character database (decimal digits, alphanumeric characters, lower
      case) is written out for ASCII and is a parameter beyond it: the class
      [Py.Interpreter], which also holds the interpreter's limit on the
      digits of an integer and two checks that [urllib.parse] makes on a host
      name.
    - A Python [int] that counts something ([retry_count], [max_reviews]) is a
      [nat]: a negative value makes [range] empty and the pagination loop
      idle, exactly as 0 does.  Other integers are in [Z].
    - The delay [sleep_between_requests] is a binary64 [float], multiplied and
      compared as the machine does.  A rating is the rational that its
      decimal literal [D] or [D.D] denotes ([Q], in lowest terms); it is only
      tested against zero.
    - [None] is [option]'s [None]; a raised exception is [Raise] of [result].
    - The outside world (HTTP transport, HTML parser and its selector
      queries, [urllib.parse.urljoin]) is a parameter: a class of
      capabilities, and an event trace threaded through the code.
      [time.sleep] adds to the trace, or raises when it refuses its
      argument.  *)

From Stdlib Require Import List Ascii String NArith ZArith QArith Floats Bool Arith Lia.
From Stdlib Require Import DecimalString DecimalZ DecimalPos.
Import ListNotations.
Close Scope Q_scope.
Open Scope string_scope.
Open Scope list_scope.
Open Scope nat_scope.

Set Implicit Arguments.

(** ** Python strings *)

(** A character is its code point. *)
Definition char := N.

Definition str := list char.

(** The character of a one-byte literal. *)
Definition ch (a : ascii) : char := N_of_ascii a.
Coercion ch : ascii >-> char.

(** The text of a literal of the program; all of them are ASCII. *)
Definition lit (s : string) : str := map ch (list_ascii_of_string s).
Coercion lit : string >-> str.

Bind Scope char_scope with char.

Module Py.

Definition between (lo hi c : N) : bool := (lo <=? c)%N && (c <=? hi)%N.

(** [str.isascii] on one character. *)
Definition isascii (c : char) : bool := (c <? 128)%N.

(** [str.isspace] on one character, which is also what [str.split],
    [str.strip] and the class [\s] take for whitespace: TAB to CR, FS to US,
    SP, NEL, NBSP, and the spaces and separators from U+1680 on. *)
Definition isspace (c : char) : bool :=
  between 9 13 c || between 28 32 c || (c =? 0x85)%N || (c =? 0xA0)%N ||
  (c =? 0x1680)%N || between 0x2000 0x200A c || (c =? 0x2028)%N ||
  (c =? 0x2029)%N || (c =? 0x202F)%N || (c =? 0x205F)%N || (c =? 0x3000)%N.

(** What the interpreter and its library bring with them and this development
    does not spell out.
    - The character database beyond ASCII: the value of a decimal digit
      ([unicodedata.decimal]), the alphanumeric characters ([str.isalnum]),
      the lower-case mapping of one character ([str.lower], one to three
      characters), and the properties [Cased] and [Case_Ignorable] that
      decide the lower case of a capital sigma.  These functions are only
      ever asked about characters from 128 on.
    - [int_max_str_digits]: [sys.get_int_max_str_digits()], 0 for no limit
      (and for an interpreter that has none).
    - [bracketed_netloc_check]: the check that [urlsplit] makes of a network
      location with a bracketed host ([_check_bracketed_netloc]; older
      libraries make none), with the message of the [ValueError] it raises.
    - [nfkc_netloc_ok]: the outcome of [_checknetloc] on a network location
      that is not ASCII.
    Two facts of the database are used: a decimal digit has a value from 0 to
    9, and is not whitespace. *)
Class Interpreter : Type := {
  decimal_beyond : char -> option nat;
  alnum_beyond : char -> bool;
  lower_beyond : char -> str;
  cased_beyond : char -> bool;
  case_ignorable_beyond : char -> bool;
  int_max_str_digits : nat;
  bracketed_netloc_check : str -> option str;
  nfkc_netloc_ok : str -> bool;
  decimal_beyond_digit : forall c v, decimal_beyond c = Some v -> v <= 9;
  decimal_beyond_visible : forall c v, decimal_beyond c = Some v -> isspace c = false
}.

Definition char_eqb (a b : char) : bool := N.eqb a b.

Fixpoint str_eqb (s t : str) : bool :=
  match s, t with
  | [], [] => true
  | a :: s', b :: t' => char_eqb a b && str_eqb s' t'
  | _, _ => false
  end.

(** [s.startswith(p)]. *)
Fixpoint startswith (p s : str) : bool :=
  match p, s with
  | [], _ => true
  | a :: p', b :: s' => char_eqb a b && startswith p' s'
  | _ :: _, [] => false
  end.

(** [p in s]: [p] occurs in [s] as a contiguous substring. *)
Fixpoint contains (p s : str) : bool :=
  startswith p s ||
  match s with
  | [] => false
  | _ :: s' => contains p s'
  end.

(** [c in s] for one character. *)
Definition has_char (c : char) (s : str) : bool := existsb (char_eqb c) s.

(** [s.find(c)]: index of the first [c], [None] for -1. *)
Fixpoint find_char (c : char) (s : str) : option nat :=
  match s with
  | [] => None
  | a :: s' => if char_eqb a c then Some 0 else option_map S (find_char c s')
  end.

(** [s.split()]: the maximal runs of non-whitespace characters. *)
Fixpoint split (s : str) : list str :=
  match s with
  | [] => []
  | c :: s' =>
      if isspace c then split s'
      else
        match s' with
        | [] => [[c]]
        | d :: _ =>
            if isspace d then [c] :: split s'
            else
              match split s' with
              | w :: ws => (c :: w) :: ws
              | [] => [[c]]
              end
        end
  end.

(** [s.split(sep)] for a one-character separator: never empty. *)
Fixpoint split_on (sep : char) (s : str) : list str :=
  match s with
  | [] => [[]]
  | c :: s' =>
      if char_eqb c sep then [] :: split_on sep s'
      else
        match split_on sep s' with
        | w :: ws => (c :: w) :: ws
        | [] => [[c]]
        end
  end.

(** [s.split(sep, 1)] read as a pair: the text before the first [sep] and the
    text after it (empty when there is no [sep]). *)
Fixpoint partition (sep : char) (s : str) : str * str :=
  match s with
  | [] => ([], [])
  | c :: s' =>
      if char_eqb c sep then ([], s')
      else let (a, b) := partition sep s' in (c :: a, b)
  end.

(** [sep.join(parts)]. *)
Fixpoint join (sep : str) (parts : list str) : str :=
  match parts with
  | [] => []
  | [w] => w
  | w :: ws => w ++ sep ++ join sep ws
  end.

Fixpoint lstrip (s : str) : str :=
  match s with
  | [] => []
  | c :: s' => if isspace c then lstrip s' else s
  end.

Definition rstrip (s : str) : str := rev (lstrip (rev s)).

(** [s.strip()]. *)
Definition strip (s : str) : str := rstrip (lstrip s).

(** Truth value of a string: non-empty. *)
Definition truthy (s : str) : bool :=
  match s with
  | [] => false
  | _ => true
  end.

(** A to Z in lower case, every other character as it is. *)
Definition ascii_lower (c : char) : char :=
  if between 65 90 c then (c + 32)%N else c.

(** [int(s)] refuses a text of more than 640 digits when the interpreter's
    limit is set and the text is longer than the limit. *)
Definition over_limit (limit digits : nat) : bool :=
  (640 <? digits) && (0 <? limit) && (limit <? digits).

Section WithInterpreter.

Context {py : Interpreter}.

(** The value of a decimal digit ([unicodedata.decimal]), [None] for any
    other character. *)
Definition decimal (c : char) : option nat :=
  if isascii c then
    if between 48 57 c then Some (N.to_nat (c - 48)) else None
  else decimal_beyond c.

(** [str.isdecimal] on one character; the class [\d]. *)
Definition isdecimal (c : char) : bool :=
  match decimal c with
  | Some _ => true
  | None => false
  end.

Definition isalnum_char (c : char) : bool :=
  if isascii c then between 48 57 c || between 65 90 c || between 97 122 c
  else alnum_beyond c.

(** [str.isalnum]: every character alphanumeric and at least one character. *)
Definition isalnum (s : str) : bool :=
  match s with
  | [] => false
  | _ => forallb isalnum_char s
  end.

(** The lower case of one character other than the capital sigma. *)
Definition lower_full (c : char) : str :=
  if isascii c then [ascii_lower c] else lower_beyond c.

Definition cased (c : char) : bool :=
  if isascii c then between 65 90 c || between 97 122 c else cased_beyond c.

(** In ASCII: apostrophe, full stop, colon, circumflex and grave accent. *)
Definition case_ignorable (c : char) : bool :=
  if isascii c then
    (c =? 39)%N || (c =? 46)%N || (c =? 58)%N || (c =? 94)%N || (c =? 96)%N
  else case_ignorable_beyond c.

(** The first character of [s] that is not case-ignorable is cased. *)
Fixpoint reaches_cased (s : str) : bool :=
  match s with
  | [] => false
  | c :: s' => if case_ignorable c then reaches_cased s' else cased c
  end.

(** A capital sigma is final when a cased letter comes before it and none
    after it, case-ignorable characters apart; [before] is the text before
    it, last character first. *)
Definition final_sigma (before after : str) : bool :=
  reaches_cased before && negb (reaches_cased after).

Fixpoint lower_from (before s : str) : str :=
  match s with
  | [] => []
  | c :: s' =>
      (if (c =? 0x3A3)%N
       then [if final_sigma before s' then 0x3C2%N else 0x3C3%N]
       else lower_full c)
      ++ lower_from (c :: before) s'
  end.

(** [str.lower]. *)
Definition lower (s : str) : str := lower_from [] s.

Definition digit_val (c : char) : Z :=
  match decimal c with
  | Some v => Z.of_nat v
  | None => 0%Z
  end.

Definition digits_val (s : str) : Z :=
  fold_left (fun acc c => 10 * acc + digit_val c)%Z s 0%Z.

Definition all_digits (s : str) : bool := forallb isdecimal s.

(** [int(s)] on the texts it is given here, runs of decimal digits; [None]
    stands for [ValueError]. *)
Definition int (s : str) : option Z :=
  if truthy s && all_digits s then
    if over_limit int_max_str_digits (List.length s) then None
    else Some (digits_val s)
  else None.

(** [float(s)] on decimal literals [D], [D.F], [D.], [.F]; [None] stands for
    [ValueError]. *)
Definition float (s : str) : option Q :=
  let (i, f) := partition "." s in
  let scale := (10 ^ Z.of_nat (List.length f))%Z in
  if all_digits i && all_digits f && truthy (i ++ f)
  then Some (Qred (Qmake (digits_val i * scale + digits_val f) (Z.to_pos scale)))
  else None.

End WithInterpreter.

(** The binary64 number nearest to an integer, ties to even: what a [float]
    is multiplied with when the other factor is an [int]. *)
Definition nearest_float (n : Z) : PrimFloat.float :=
  SF2Prim (binary_normalize prec emax n 0 false).

End Py.

(** ** Regular expressions ([re])

    The fragment of Python's [re] the scraper's patterns are written in, with
    the backtracking matcher's priorities: a greedy quantifier tries the
    longest repetition first, [re.search] tries start positions from left to
    right and keeps the first match.  Every pattern of the program has exactly
    one capture group, and quantifies character classes only.  A literal
    character of a pattern is a one-byte character. *)

Module Re.

Inductive regex : Type :=
| Eps                                   (* empty pattern *)
| Chr (c : ascii)                       (* a literal character *)
| Cls (p : char -> bool)                (* a character class *)
| Cat (r1 r2 : regex)                   (* r1 r2 *)
| Opt (r : regex)                       (* r?  greedy *)
| Plus (p : char -> bool)               (* [p]+  greedy *)
| Rep (n : nat) (p : char -> bool)      (* [p]{n} *)
| Grp (r : regex).                      (* ( r ), the capture group *)

(** A literal text, one [Chr] per character. *)
Fixpoint text (s : string) : regex :=
  match s with
  | EmptyString => Eps
  | String c s' => Cat (Chr c) (text s')
  end.

(** The answer of a match attempt: the text of group 1. *)
Definition answer := option str.

Definition orelse (a b : answer) : answer :=
  match a with
  | Some g => Some g
  | None => b
  end.

(** Lower case within the first 256 characters: A to Z, and the capital
    letters from U+00C0 to U+00DE but for the multiplication sign. *)
Definition latin_lower (c : char) : char :=
  if Py.between 65 90 c || (Py.between 0xC0 0xDE c && negb (c =? 0xD7)%N)
  then (c + 32)%N else c.

(** The characters that the literal [c] matches under [re.IGNORECASE]: [c]
    in either case, and the few characters further up that have the same
    lower case or are listed as its equivalents (dotted capital and dotless
    small i for "i", long s for "s", the Kelvin sign for "k", the Angstrom
    sign, the Greek mu for the micro sign, capital sharp s, capital y with
    diaeresis). *)
Definition fold_match (a : char) (c : ascii) : bool :=
  let lc := latin_lower (ch c) in
  (latin_lower a =? lc)%N ||
  ((lc =? 0x69)%N && ((a =? 0x130)%N || (a =? 0x131)%N)) ||
  ((lc =? 0x73)%N && (a =? 0x17F)%N) ||
  ((lc =? 0x6B)%N && (a =? 0x212A)%N) ||
  ((lc =? 0xE5)%N && (a =? 0x212B)%N) ||
  ((lc =? 0xB5)%N && ((a =? 0x39C)%N || (a =? 0x3BC)%N)) ||
  ((lc =? 0xDF)%N && (a =? 0x1E9E)%N) ||
  ((lc =? 0xFF)%N && (a =? 0x178)%N).

Section Matcher.

(** [re.IGNORECASE].  The classes used under this flag ([\d], [\s],
    [[0-5]]) hold no cased character, and are matched as they are. *)
Variable ignorecase : bool.

Definition chr_match (a : char) (c : ascii) : bool :=
  if ignorecase then fold_match a c else Py.char_eqb a (ch c).

Fixpoint plus_m (p : char -> bool) (s : str) (k : str -> answer) : answer :=
  match s with
  | [] => None
  | a :: s' => if p a then orelse (plus_m p s' k) (k s') else None
  end.

Fixpoint rep_m (p : char -> bool) (n : nat) (s : str) (k : str -> answer) : answer :=
  match n with
  | O => k s
  | S n' =>
      match s with
      | [] => None
      | a :: s' => if p a then rep_m p n' s' k else None
      end
  end.

(** [m r s k]: match [r] at the start of [s], then hand the rest to [k];
    alternatives are tried in Python's order until [k] accepts. *)
Fixpoint m (r : regex) (s : str) (k : str -> answer) : answer :=
  match r with
  | Eps => k s
  | Chr c =>
      match s with
      | [] => None
      | a :: s' => if chr_match a c then k s' else None
      end
  | Cls p =>
      match s with
      | [] => None
      | a :: s' => if p a then k s' else None
      end
  | Cat r1 r2 => m r1 s (fun s1 => m r2 s1 k)
  | Opt r' => orelse (m r' s k) (k s)
  | Plus p => plus_m p s k
  | Rep n p => rep_m p n s k
  | Grp r' =>
      m r' s (fun rest =>
                match k rest with
                | Some _ => Some (firstn (List.length s - List.length rest) s)
                | None => None
                end)
  end.

(** [pattern.match(s)]: a match at position 0; the answer is [group(1)]. *)
Definition match_here (r : regex) (s : str) : answer :=
  m r s (fun _ => Some []).

(** [pattern.search(s)], and then [.group(1)]. *)
Fixpoint search (r : regex) (s : str) : answer :=
  orelse (match_here r s)
         match s with
         | [] => None
         | _ :: s' => search r s'
         end.

End Matcher.

(** The words a pattern matches, without reference to the matcher: used to
    state what the matcher finds. *)
Fixpoint lang (ic : bool) (r : regex) (u : str) : Prop :=
  match r with
  | Eps => u = []
  | Chr c => exists a, u = [a] /\ chr_match ic a c = true
  | Cls p => exists a, u = [a] /\ p a = true
  | Cat r1 r2 => exists u1 u2, u = u1 ++ u2 /\ lang ic r1 u1 /\ lang ic r2 u2
  | Opt r' => lang ic r' u \/ u = []
  | Plus p => u <> [] /\ forallb p u = true
  | Rep n p => List.length u = n /\ forallb p u = true
  | Grp r' => lang ic r' u
  end.

Fixpoint group_free (r : regex) : Prop :=
  match r with
  | Cat r1 r2 => group_free r1 /\ group_free r2
  | Opt r' => group_free r'
  | Grp _ => False
  | _ => True
  end.

End Re.

(** ** [utils_text.py] *)

Module UtilsText.

Definition zero_to_five (c : char) : bool := Py.between 48 53 c.

Section WithInterpreter.

Context {py : Py.Interpreter}.

(** [(\d+)\s+people? found this helpful], [re.IGNORECASE]. *)
Definition _HELPFUL_RE : Re.regex :=
  Re.Cat (Re.Grp (Re.Plus Py.isdecimal))
    (Re.Cat (Re.Plus Py.isspace)
       (Re.Cat (Re.text "peopl")
          (Re.Cat (Re.Opt (Re.Chr "e"))
             (Re.text " found this helpful")))).

(** [([0-5](?:\.\d)?)\s+out of\s+5], [re.IGNORECASE]. *)
Definition _RATING_RE : Re.regex :=
  Re.Cat (Re.Grp (Re.Cat (Re.Cls zero_to_five)
                         (Re.Opt (Re.Cat (Re.Chr ".") (Re.Cls Py.isdecimal)))))
    (Re.Cat (Re.Plus Py.isspace)
       (Re.Cat (Re.text "out of")
          (Re.Cat (Re.Plus Py.isspace) (Re.Chr "5")))).

(** [clean_text]: [None] gives the empty string. *)
Definition clean_text (text : option str) : str :=
  match text with
  | None => []
  | Some text =>
      let cleaned := Py.join " " (Py.split text) in
      Py.strip cleaned
  end.

Definition parse_helpful_votes (text : str) : Z :=
  if negb (Py.truthy text) then 0%Z
  else
    let after_match :=
      let text_lower := Py.lower text in
      if Py.contains "one person found this helpful" text_lower then 1%Z
      else 0%Z in
    match Re.search true _HELPFUL_RE text with
    | Some group1 =>
        match Py.int group1 with
        | Some n => n
        | None => after_match       (* except ValueError: fall through *)
        end
    | None => after_match
    end.

Definition parse_rating_score (text : str) : option Q :=
  if negb (Py.truthy text) then None
  else
    match Re.search true _RATING_RE text with
    | Some group1 =>
        match Py.float group1 with
        | Some x => Some x
        | None => None              (* except ValueError: fall through *)
        end
    | None => None
    end.

End WithInterpreter.

End UtilsText.

(** ** Exceptions *)

Inductive exn : Type :=
| ValueError (message : str)
| OverflowError (message : str)
| Exception (message : str).

Inductive result (A : Type) : Type :=
| Return (a : A)
| Raise (e : exn).

Arguments Return {A} a.
Arguments Raise {A} e.

Definition bind {A B : Type} (c : result A) (f : A -> result B) : result B :=
  match c with
  | Return a => f a
  | Raise e => Raise e
  end.

Notation "x <- c ;; k" := (bind c (fun x => k))
  (at level 61, c at next level, right associativity).

(** ** [urllib.parse.urlparse]

    The splitting that the standard library performs, in its order: leading
    control characters and spaces dropped, TAB, CR and LF removed, then
    scheme, network location, fragment, query, and the parameters of the last
    path segment.  A network location with one square bracket and not the
    other raises [ValueError]; so do a bracketed host and a network location
    beyond ASCII that the library's checks refuse. *)

Module Urllib.

Record ParseResult : Type := {
  scheme : str;
  netloc : str;
  path : str;
  params : str;
  query : str;
  fragment : str
}.

Fixpoint lstrip_c0 (s : str) : str :=
  match s with
  | [] => []
  | c :: s' => if (c <=? 32)%N then lstrip_c0 s' else s
  end.

Definition unsafe_byte (c : char) : bool :=
  (c =? 9)%N || (c =? 10)%N || (c =? 13)%N.

Definition ascii_letter (c : char) : bool :=
  Py.between 65 90 c || Py.between 97 122 c.

Definition scheme_char (c : char) : bool :=
  ascii_letter c || Py.between 48 57 c || Py.has_char c "+-.".

Definition uses_params : list str :=
  [lit ""; lit "ftp"; lit "hdl"; lit "prospero"; lit "http"; lit "imap";
   lit "https"; lit "shttp"; lit "rtsp"; lit "rtspu"; lit "sip"; lit "sips";
   lit "mms"; lit "sftp"; lit "tel"].

(** [url.split(sep, 1)] when [sep in url], else [url] and the empty text. *)
Definition cut (sep : char) (url : str) : str * str :=
  if Py.has_char sep url then Py.partition sep url else (url, []).

(** [_splitnetloc(url, 2)] on a [url] that starts with two slashes. *)
Fixpoint until_delim (s : str) : str * str :=
  match s with
  | [] => ([], [])
  | c :: s' =>
      if Py.has_char c "/?#" then ([], s)
      else let (a, b) := until_delim s' in (c :: a, b)
  end.

(** [_splitparams]: the first [;] of the last path segment. *)
Fixpoint last_segment_cut (url : str) : str * str :=
  match url with
  | [] => ([], [])
  | c :: s' =>
      if Py.has_char "/" s' then
        let (a, b) := last_segment_cut s' in (c :: a, b)
      else
        (* [c] is the last slash, or there is no slash from here on *)
        if Py.char_eqb c "/" then
          let (a, b) := cut ";" s' in (c :: a, b)
        else cut ";" url
  end.

Section WithInterpreter.

Context {py : Py.Interpreter}.

Definition split_scheme (url : str) : str * str :=
  match Py.find_char ":" url, url with
  | Some i, c0 :: _ =>
      if (0 <? i) && ascii_letter c0 && forallb scheme_char (firstn i url)
      then (Py.lower (firstn i url), skipn (S i) url)
      else ([], url)
  | _, _ => ([], url)
  end.

Definition urlsplit (url : str) : result (str * str * str * str * str) :=
  let url := lstrip_c0 url in
  let url := filter (fun c => negb (unsafe_byte c)) url in
  let (scheme, url) := split_scheme url in
  let (netloc, url) :=
    if Py.startswith "//" url then until_delim (skipn 2 url) else ([], url) in
  if xorb (Py.has_char "[" netloc) (Py.has_char "]" netloc)
  then Raise (ValueError "Invalid IPv6 URL")
  else
    match (if Py.has_char "[" netloc then Py.bracketed_netloc_check netloc
           else None) with
    | Some message => Raise (ValueError message)
    | None =>
        let (url, fragment) := cut "#" url in
        let (url, query) := cut "?" url in
        if forallb Py.isascii netloc || Py.nfkc_netloc_ok netloc
        then Return (scheme, netloc, url, query, fragment)
        else Raise (ValueError
                      (lit "netloc '" ++ netloc ++
                       lit "' contains invalid characters under NFKC normalization"))
    end.

Definition urlparse (url : str) : result ParseResult :=
  parts <- urlsplit url ;;
  let '(scheme, netloc, url, query, fragment) := parts in
  let (url, params) :=
    if existsb (Py.str_eqb scheme) uses_params && Py.has_char ";" url
    then last_segment_cut url
    else (url, []) in
  Return {| scheme := scheme; netloc := netloc; path := url;
            params := params; query := query; fragment := fragment |}.

End WithInterpreter.

End Urllib.

(** ** [reviews_parser.py] *)

Module ReviewsParser.

Import UtilsText.

(** What [requests.Session.get] produces: a response with its status code and
    body, or a [requests.RequestException]. *)
Inductive Response : Type :=
| HttpResponse (status_code : Z) (text : str)
| RequestException (message : str).

(** The external collaborators.  [Tag] is a node of a parsed document
    ([bs4.Tag]; [BeautifulSoup] itself is the root node).
    - [select t css]: the nodes under [t] matching a CSS selector, in
      document order; [select_one] is the first of them.
    - [get_text t separator strip], [get t attribute]: as in [bs4].
    - [BeautifulSoup html]: the [lxml] parse of a page.
    - [urljoin base url]: [urllib.parse.urljoin], which may raise.
    - [session_get n url timeout proxies]: the answer to the GET of [url]
      issued after [n] earlier requests of the session.
    The parser and the queries answer for every input; the transport fails
    with a [requests.RequestException] only. *)
Class External (Tag : Type) : Type := {
  select : Tag -> str -> list Tag;
  get_text : Tag -> str -> bool -> str;
  get : Tag -> str -> option str;
  BeautifulSoup : str -> Tag;
  urljoin : str -> str -> result str;
  session_get : nat -> str -> Z -> option str -> Response
}.

(** The review record, the dictionary built at the end of
    [_parse_single_review]. *)
Record Review : Type := {
  productAsin : str;
  ratingScore : option Q;
  reviewTitle : str;
  reviewUrl : str;
  reviewReaction : str;
  reviewedIn : str;
  reviewDescription : str;
  isVerified : bool;
  variant : str;
  reviewImages : list str;
  position : Z;
  helpfulVotes : Z
}.

(** The scraper object ([self]). *)
Record AmazonReviewsScraper : Type := {
  headers : list (str * str);
  timeout : Z;
  retry_count : nat;
  sleep_between_requests : PrimFloat.float;
  proxies : option str
}.

Definition BASE_DOMAIN : str := "https://www.amazon.com".

Definition __init__ (user_agent : str) (timeout : Z) (proxy : option str)
    (retry_count : nat) (sleep_between_requests : PrimFloat.float)
    : AmazonReviewsScraper :=
  {| headers := [(lit "User-Agent", user_agent);
                 (lit "Accept-Language", lit "en-US,en;q=0.9")];
     timeout := timeout;
     retry_count := retry_count;
     sleep_between_requests := sleep_between_requests;
     proxies := match proxy with
                | Some (_ :: _) => proxy
                | _ => None
                end |}.

(** What the program does to the world, in order. *)
Inductive event : Type :=
| Get (url : str)
| Sleep (seconds : PrimFloat.float).

Definition trace := list event.

Definition is_get (e : event) : bool :=
  match e with
  | Get _ => true
  | Sleep _ => false
  end.

(** Number of requests issued so far. *)
Definition gets (t : trace) : nat := List.length (filter is_get t).

(** [float * int]: the integer is made a [float] first, which fails when it
    is too large for one. *)
Definition float_times_int (x : PrimFloat.float) (n : Z) : result PrimFloat.float :=
  let y := Py.nearest_float n in
  if PrimFloat.is_infinity y
  then Raise (OverflowError "int too large to convert to float")
  else Return (x * y)%float.

(** What [time.sleep(seconds)] raises instead of waiting.  The argument is
    turned into a whole number of nanoseconds, rounded away from zero, in a
    signed 64-bit integer: not-a-number is refused, then a number out of that
    range, then a negative one (and the very bound of the range, which the
    conversion turns negative). *)
Definition sleep_refusal (seconds : PrimFloat.float) : option exn :=
  if PrimFloat.is_nan seconds
  then Some (ValueError "Invalid value NaN (not a number)")
  else
    let ns := (seconds * 1e9)%float in
    if (ns <? - 0x1p63)%float || (0x1p63 <? ns)%float
    then Some (OverflowError "timestamp too large to convert to C _PyTime_t")
    else if (seconds <? 0)%float || (ns =? 0x1p63)%float
    then Some (ValueError "sleep length must be non-negative")
    else None.

(** [time.sleep(seconds)]. *)
Definition time_sleep (seconds : PrimFloat.float) (t : trace) : result unit * trace :=
  match sleep_refusal seconds with
  | Some e => (Raise e, t)
  | None => (Return tt, t ++ [Sleep seconds])
  end.

Definition str_of_int (n : Z) : str :=
  lit (DecimalString.NilZero.string_of_int (Z.to_int n)).

(** [a or b] on optional nodes: a node is always true. *)
Definition or_tag {Tag : Type} (a b : option Tag) : option Tag :=
  match a with
  | Some _ => a
  | None => b
  end.

(** [a or b] on optional strings: [None] and the empty string are false. *)
Definition or_str (a b : option str) : option str :=
  match a with
  | Some (_ :: _) => a
  | _ => b
  end.

(** [not x] for an optional float: [None] and [0.0] are false values. *)
Definition not_float (x : option Q) : bool :=
  match x with
  | None => true
  | Some q => Qeq_bool q 0
  end.

Section Scraper.

Context {py : Py.Interpreter} {Tag : Type} {world : External Tag}.
Variable self : AmazonReviewsScraper.

Definition select_one (t : Tag) (css : str) : option Tag :=
  hd_error (select t css).

(** *** URL and HTTP helpers *)

Definition _build_review_page_url (asin : str) (page : Z) : str :=
  BASE_DOMAIN ++ lit "/product-reviews/" ++ asin ++ lit "?pageNumber="
    ++ str_of_int page ++ lit "&sortBy=recent".

(** [time.sleep(self.sleep_between_requests * attempt)]. *)
Definition backoff (attempt : nat) (t : trace) : result unit * trace :=
  match float_times_int (sleep_between_requests self) (Z.of_nat attempt) with
  | Return seconds => time_sleep seconds t
  | Raise e => (Raise e, t)
  end.

(** The body of [for attempt in range(1, self.retry_count + 1)], over the
    attempt numbers still to come. *)
Fixpoint fetch_attempts (url : str) (attempts : list nat) (t : trace)
    : result (option str) * trace :=
  match attempts with
  | [] => (Return None, t)
  | attempt :: later =>
      let failed (t : trace) :=
        match backoff attempt t with
        | (Return _, t) => fetch_attempts url later t
        | (Raise e, t) => (Raise e, t)
        end in
      match session_get (gets t) url (timeout self) (proxies self) with
      | HttpResponse status_code text =>
          if (status_code =? 200)%Z then (Return (Some text), t ++ [Get url])
          else failed (t ++ [Get url])
      | RequestException _ => failed (t ++ [Get url])
      end
  end.

Definition _fetch_html_with_retries (url : str) (t : trace)
    : result (option str) * trace :=
  fetch_attempts url (seq 1 (retry_count self)) t.

Definition asin_class (c : char) : bool := Py.between 65 90 c || Py.between 48 57 c.

(** [/dp/([A-Z0-9]{10})] and the two patterns of the same shape. *)
Definition after (prefix : string) : Re.regex :=
  Re.Cat (Re.text prefix) (Re.Grp (Re.Rep 10 asin_class)).

(** [[?&]ASIN=([A-Z0-9]{10})]. *)
Definition asin_parameter : Re.regex :=
  Re.Cat (Re.Cls (fun c => Py.has_char c "?&"))
    (Re.Cat (Re.text "ASIN=") (Re.Grp (Re.Rep 10 asin_class))).

(** [for seg in segments[::-1]: if len(seg) == 10 and seg.isalnum()]. *)
Definition fallback_segment (path : str) : option str :=
  let segments := filter Py.truthy (Py.split_on "/" path) in
  find (fun seg => (List.length seg =? 10) && Py.isalnum seg) (rev segments).

Definition _extract_asin (url : str) : result (option str) :=
  parsed <- Urllib.urlparse url ;;
  let path := Urllib.path parsed in
  match Re.search false (after "/dp/") path with
  | Some g => Return (Some g)
  | None =>
  match Re.search false (after "/gp/product/") path with
  | Some g => Return (Some g)
  | None =>
  match Re.search false (after "/product-reviews/") path with
  | Some g => Return (Some g)
  | None =>
  match Re.search false asin_parameter (Urllib.query parsed) with
  | Some g => Return (Some g)
  | None => Return (fallback_segment path)
  end end end end.

(** *** Parsing helpers *)

(** [clean_text(tag.get_text(separator, strip=True)) if tag else otherwise]. *)
Definition text_of (t : option Tag) (separator : str) (otherwise : str) : str :=
  match t with
  | Some t => clean_text (Some (get_text t separator true))
  | None => otherwise
  end.

(** The loop over [image_tags]. *)
Fixpoint review_images_of (image_tags : list Tag) : list str :=
  match image_tags with
  | [] => []
  | img :: more =>
      match or_str (get img "src") (get img "data-src") with
      | Some ((_ :: _) as src) => src :: review_images_of more
      | _ => review_images_of more
      end
  end.

Definition _parse_single_review (block : Tag) (asin : str) (position : Z)
    : result (option Review) :=
  let rating_tag :=
    or_tag (select_one block "i[data-hook='review-star-rating'] span.a-icon-alt")
           (select_one block "span.a-icon-alt") in
  let rating_text :=
    match rating_tag with
    | Some t => get_text t "" true
    | None => []
    end in
  let rating_score := parse_rating_score rating_text in
  let title_tag :=
    or_tag (select_one block "a[data-hook='review-title'] span")
           (select_one block "a[data-hook='review-title']") in
  let review_title := text_of title_tag "" "" in
  let link_tag := select_one block "a[data-hook='review-title']" in
  review_url <-
    match link_tag with
    | Some l =>
        match get l "href" with
        | Some href => urljoin BASE_DOMAIN href
        | None => Return []
        end
    | None => Return []
    end ;;
  let reaction_tag := select_one block "span[data-hook='helpful-vote-statement']" in
  let review_reaction := text_of reaction_tag "" "0 people found this helpful" in
  let reviewed_in_tag := select_one block "span[data-hook='review-date']" in
  let reviewed_in := text_of reviewed_in_tag "" "" in
  let body_tag :=
    or_tag (select_one block "span[data-hook='review-body'] span")
           (select_one block "span[data-hook='review-body']") in
  let review_description := text_of body_tag " " "" in
  let verified_tag := select_one block "span[data-hook='avp-badge']" in
  let is_verified :=
    match verified_tag with
    | Some t => Py.contains "Verified Purchase" (get_text t "" false)
    | None => false
    end in
  let variant_tag := select_one block "a[data-hook='format-strip']" in
  let variant := text_of variant_tag " " "" in
  let image_tags := select block "img[data-hook='review-image-tile']" in
  let review_images := review_images_of image_tags in
  if negb (Py.truthy review_description) && not_float rating_score
  then Return None
  else
    Return (Some {| productAsin := asin;
                    ratingScore := rating_score;
                    reviewTitle := review_title;
                    reviewUrl := review_url;
                    reviewReaction := review_reaction;
                    reviewedIn := reviewed_in;
                    reviewDescription := review_description;
                    isVerified := is_verified;
                    variant := variant;
                    reviewImages := review_images;
                    position := position;
                    helpfulVotes := parse_helpful_votes review_reaction |}).

(** The loop over [review_blocks] of the generator, which its only caller
    drains with [list(...)]: the reviews it yields, in order.  An exception
    raised for a block is logged and the block is passed over. *)
Fixpoint parse_blocks (review_blocks : list Tag) (asin : str) (position : Z)
    : list Review :=
  match review_blocks with
  | [] => []
  | block :: more =>
      match _parse_single_review block asin position with
      | Return (Some review) => review :: parse_blocks more asin (position + 1)
      | Return None => parse_blocks more asin position
      | Raise _ => parse_blocks more asin position
      end
  end.

Definition _parse_reviews_from_soup (soup : Tag) (asin : str) (start_position : Z)
    : list Review :=
  let review_blocks := select soup "div[data-hook='review']" in
  parse_blocks review_blocks asin start_position.

(** *** Public API *)

(** The [while len(collected) < max_reviews] loop; [fuel] bounds the number of
    iterations, and [None] means the bound was reached. *)
Fixpoint pagination (fuel : nat) (asin : str) (max_reviews : nat)
    (collected : list Review) (page : Z) (t : trace)
    : option (result (list Review) * trace) :=
  if List.length collected <? max_reviews then
    match fuel with
    | O => None
    | S fuel' =>
        let page_url := _build_review_page_url asin page in
        match _fetch_html_with_retries page_url t with
        | (Raise e, t) => Some (Raise e, t)
        | (Return html, t) =>
            match html with
            | Some ((_ :: _) as html) =>
                let soup := BeautifulSoup html in
                let reviews :=
                  _parse_reviews_from_soup soup asin
                    (Z.of_nat (List.length collected) + 1) in
                match reviews with
                | [] => Some (Return collected, t)
                | _ =>
                    let collected := collected ++ reviews in
                    if max_reviews <=? List.length collected
                    then Some (Return collected, t)
                    else
                      match time_sleep (sleep_between_requests self) t with
                      | (Return _, t) =>
                          pagination fuel' asin max_reviews collected (page + 1) t
                      | (Raise e, t) => Some (Raise e, t)
                      end
                end
            | _ => Some (Return collected, t)
            end
        end
    end
  else Some (Return collected, t).

(** Every iteration that goes on adds a review, so [max_reviews] iterations
    are enough (see [pagination_total]). *)
Definition scrape_product_reviews (product_url : str) (max_reviews : nat)
    (t : trace) : option (result (list Review) * trace) :=
  match _extract_asin product_url with
  | Raise e => Some (Raise e, t)
  | Return (Some ((_ :: _) as asin)) =>
      match pagination max_reviews asin max_reviews [] 1 t with
      | Some (Return collected, t) => Some (Return (firstn max_reviews collected), t)
      | Some (Raise e, t) => Some (Raise e, t)
      | None => None
      end
  | Return _ =>
      Some (Raise (ValueError (lit "Could not determine ASIN from product URL: "
                                 ++ product_url)), t)
  end.

End Scraper.

End ReviewsParser.

(** ** Vocabulary of the statements

    The notions the properties below are stated with. *)

Section Vocabulary.

Import Py ReviewsParser.

Context {py : Interpreter} {Tag : Type} {world : External Tag}.
Variable self : AmazonReviewsScraper.

(** A word: a non-empty run of characters none of which is whitespace. *)
Definition word (w : str) : Prop :=
  w <> [] /\ forallb (fun c => negb (isspace c)) w = true.

(** [p] occurs in [s]. *)
Definition occurs (p s : str) : Prop := exists a b, s = a ++ p ++ b.

(** [P] spells [phrase], character by character, in any mix of cases, as
    [re.IGNORECASE] reads letters. *)
Definition spells (phrase : string) (P : str) : Prop :=
  Forall2 (fun a c => Re.fold_match a c = true) P (list_ascii_of_string phrase).

(** A helpfulness statement as the pattern reads it: a number [D] in decimal
    digits, blank space [W], and the phrase [P], which spells
    "people found this helpful" or "peopl found this helpful". *)
Definition vote_statement (D W P : str) : Prop :=
  (D <> [] /\ forallb isdecimal D = true) /\
  (W <> [] /\ forallb isspace W = true) /\
  (spells "people found this helpful" P \/ spells "peopl found this helpful" P).

(** [text] states its first number of votes as [D]: a statement starts
    somewhere in [text], and none starts further to the left. *)
Definition first_statement (text D : str) : Prop :=
  exists pre W P post,
    text = pre ++ D ++ W ++ P ++ post /\ vote_statement D W P /\
    forall pre' D' W' P' post',
      text = pre' ++ D' ++ W' ++ P' ++ post' -> vote_statement D' W' P' ->
      List.length pre <= List.length pre'.

(** No statement starts anywhere in [text]. *)
Definition no_statement (text : str) : Prop :=
  forall pre D W P post,
    text = pre ++ D ++ W ++ P ++ post -> ~ vote_statement D W P.

(** [int] reads a number of so many digits: the interpreter has no limit,
    or the number is within it (or has no more than 640 digits, which are
    always read). *)
Definition readable (D : str) : Prop :=
  List.length D <= 640 \/ int_max_str_digits = 0 \/
  List.length D <= int_max_str_digits.

(** What [parse_helpful_votes] falls back on when no number is read: 1 when
    the lower-cased text mentions one person, else 0. *)
Definition one_person (text : str) : Z :=
  if contains "one person found this helpful" (lower text) then 1%Z else 0%Z.

(** The image reference that one tile contributes: its [src] when that is
    present and not empty, else its [data-src] when that is present and not
    empty, else none. *)
Definition image_reference (img : Tag) : option str :=
  match get img "src", get img "data-src" with
  | Some (c :: src), _ => Some (c :: src)
  | _, Some (c :: data_src) => Some (c :: data_src)
  | _, _ => None
  end.

(** An optional value as a list of at most one element. *)
Definition present {A : Type} (x : option A) : list A :=
  match x with
  | Some a => [a]
  | None => []
  end.

(** The body of a response with status 200, the only kind that counts. *)
Definition body_if_200 (r : Response) : option str :=
  match r with
  | HttpResponse status_code text =>
      if (status_code =? 200)%Z then Some text else None
  | RequestException _ => None
  end.

(** The delay after the failure of attempt number [attempt]. *)
Definition backoff_delay (attempt : nat) : PrimFloat.float :=
  (sleep_between_requests self * nearest_float (Z.of_nat attempt))%float.

(** [time.sleep] accepts the delay after a failure of attempt [attempt]: the
    attempt number is not too large for a [float], and the product is a
    number of seconds that is not negative and within the clock's range. *)
Definition backoff_accepted (attempt : nat) : Prop :=
  PrimFloat.is_infinity (nearest_float (Z.of_nat attempt)) = false /\
  sleep_refusal (backoff_delay attempt) = None.


(** The events of [k] failed attempts numbered from [first]: each is a
    request followed by a wait of the base delay times its number. *)
Definition failed_attempts (url : str) (first k : nat) : trace :=
  flat_map (fun attempt => [Get url; Sleep (backoff_delay attempt)]) (seq first k).

(** The records carry the numbers 1, 2, 3, ... in order. *)
Definition numbered (records : list Review) : Prop :=
  map position records = map Z.of_nat (seq 1 (List.length records)).

(** The bodies that the requests among the events [added] were answered
    with, in order, those of status 200 only; [n] requests came before. *)
Fixpoint served (n : nat) (added : trace) : list str :=
  match added with
  | [] => []
  | Get url :: rest =>
      present (body_if_200 (session_get n url (timeout self) (proxies self)))
      ++ served (S n) rest
  | Sleep _ :: rest => served n rest
  end.

(** The pages that were fetched by the events [added], which follow the
    trace [t]: the parses of the bodies served, the empty ones left out. *)
Definition pages_fetched (t added : trace) : list Tag :=
  map BeautifulSoup (filter truthy (served (gets t) added)).

(** The review blocks of some pages, in order of appearance. *)
Definition review_blocks (pages : list Tag) : list Tag :=
  flat_map (fun soup => select soup "div[data-hook='review']") pages.

(** The block yields a record. *)
Definition yields (asin : str) (block : Tag) : bool :=
  match _parse_single_review block asin 0 with
  | Return (Some _) => true
  | _ => false
  end.

(** The records are those of the blocks, one for one and in the same order:
    each is what its block yields at the record's own position. *)
Definition transcribes (asin : str) (records : list Review) (blocks : list Tag)
    : Prop :=
  Forall2 (fun r block => _parse_single_review block asin (position r) = Return (Some r))
          records blocks.

End Vocabulary.

(** ** Vocabulary of the further properties *)

Section FurtherVocabulary.

Import Py Re ReviewsParser.

Context {py : Interpreter} {Tag : Type} {world : External Tag}.
Variable self : AmazonReviewsScraper.

(** A character that is not whitespace. *)
Definition visible (c : char) : bool := negb (isspace c).

(** The text with its letters A to Z in lower case. *)
Definition ascii_fold (s : str) : str := map ascii_lower s.

(** A pattern none of whose classes tells A to Z from a to z. *)
Fixpoint case_blind (r : regex) : Prop :=
  match r with
  | Cls p | Plus p | Rep _ p => forall a, p (ascii_lower a) = p a
  | Cat r1 r2 => case_blind r1 /\ case_blind r2
  | Opt r' | Grp r' => case_blind r'
  | _ => True
  end.

(** Ten characters, each a capital letter A to Z or a digit 0 to 9. *)
Definition asin_shaped (x : str) : Prop :=
  List.length x = 10 /\ forallb asin_class x = true.

(** In [s], after [pre], comes a lead-in text accepted by [lead] and then the
    identifier-shaped [x]. *)
Definition occurrence (lead : str -> Prop) (s pre x : str) : Prop :=
  exists l post, s = pre ++ l ++ x ++ post /\ lead l /\ asin_shaped x.

(** [x] is the identifier of the leftmost occurrence in [s]. *)
Definition first_occurrence (lead : str -> Prop) (s x : str) : Prop :=
  exists pre,
    occurrence lead s pre x /\
    forall pre' x', occurrence lead s pre' x' -> List.length pre <= List.length pre'.

Definition no_occurrence (lead : str -> Prop) (s : str) : Prop :=
  forall pre x, ~ occurrence lead s pre x.

(** The lead-in of the query parameter: [?ASIN=] or [&ASIN=]. *)
Definition asin_key (l : str) : Prop :=
  exists c : char, (c = ch "?" \/ c = ch "&") /\ l = c :: lit "ASIN=".

(** [[?&]ASIN=], the lead-in of [asin_parameter]. *)
Definition key_pattern : regex :=
  Cat (Cls (fun c => has_char c "?&")) (text "ASIN=").

(** What the fallback accepts as an identifier: ten characters, all
    alphanumeric as [str.isalnum] has it. *)
Definition qualifies (seg : str) : Prop :=
  List.length seg = 10 /\ isalnum seg = true.

Definition qualifiesb (seg : str) : bool := (List.length seg =? 10) && isalnum seg.

(** A text that [clean_text] leaves as it is. *)
Definition normalised (s : str) : Prop := UtilsText.clean_text (Some s) = s.

(** A record that is not noise: it has a body, or a rating other than zero. *)
Definition substantial (r : Review) : Prop :=
  reviewDescription r <> [] \/
  exists q, ratingScore r = Some q /\ ~ (q == 0)%Q.

(** What every record built for the identifier [asin] satisfies. *)
Definition well_formed (asin : str) (r : Review) : Prop :=
  productAsin r = asin /\
  helpfulVotes r = UtilsText.parse_helpful_votes (reviewReaction r) /\
  substantial r /\
  normalised (reviewTitle r) /\ normalised (reviewReaction r) /\
  normalised (reviewedIn r) /\ normalised (reviewDescription r) /\
  normalised (variant r) /\
  Forall (fun image => image <> []) (reviewImages r).

(** No request follows another without a pause in between. *)
Fixpoint paced (t : trace) : bool :=
  match t with
  | [] => true
  | Get _ :: rest =>
      match rest with
      | Get _ :: _ => false
      | _ => paced rest
      end
  | Sleep _ :: rest => paced rest
  end.

End FurtherVocabulary.

(** Comparisons of characters, read as propositions for [lia]. *)
Ltac as_numbers :=
  repeat first
    [ rewrite orb_true_iff | rewrite andb_true_iff
    | rewrite orb_false_iff | rewrite andb_false_iff
    | rewrite negb_true_iff | rewrite negb_false_iff
    | rewrite N.leb_le | rewrite N.leb_gt
    | rewrite N.ltb_lt | rewrite N.ltb_ge
    | rewrite N.eqb_eq | rewrite N.eqb_neq ].

Ltac as_numbers_in H :=
  repeat first
    [ rewrite orb_true_iff in H | rewrite andb_true_iff in H
    | rewrite orb_false_iff in H | rewrite andb_false_iff in H
    | rewrite negb_true_iff in H | rewrite negb_false_iff in H
    | rewrite N.leb_le in H | rewrite N.leb_gt in H
    | rewrite N.ltb_lt in H | rewrite N.ltb_ge in H
    | rewrite N.eqb_eq in H | rewrite N.eqb_neq in H ].

(** ** A scripted world, for running the scraper on concrete pages

    A document node that carries its own answers: its text fragments, its
    attributes, and for each selector the nodes that selector finds. *)

Module Scripted.

Import ReviewsParser.

#[local] Set Warnings "-register-all".

(** An interpreter that knows, beyond ASCII, the letters of the Latin-1 range
    and the Arabic-Indic digits; it reads up to 640 digits, the lowest limit
    that can be set, and of the bracketed hosts it accepts [[::1]] only. *)
Definition interpreter : Py.Interpreter.
Proof.
  refine
    {| Py.decimal_beyond := fun c =>
         if Py.between 0x660 0x669 c then Some (N.to_nat (c - 0x660)) else None;
       Py.alnum_beyond := fun c =>
         (Py.between 0xC0 0xFF c && negb (c =? 0xD7)%N && negb (c =? 0xF7)%N)
         || Py.between 0x660 0x669 c;
       Py.lower_beyond := fun c => [Re.latin_lower c];
       Py.cased_beyond := fun c =>
         Py.between 0xC0 0xFF c && negb (c =? 0xD7)%N && negb (c =? 0xF7)%N;
       Py.case_ignorable_beyond := fun c => (c =? 0xAD)%N || (c =? 0xB7)%N;
       Py.int_max_str_digits := 640;
       Py.bracketed_netloc_check := fun netloc =>
         if Py.str_eqb netloc "[::1]" then None
         else Some (lit "Invalid IPv6 URL");
       Py.nfkc_netloc_ok := fun _ => true |}.
  - intros c v. unfold Py.between.
    destruct ((0x660 <=? c)%N && (c <=? 0x669)%N) eqn:H; [|discriminate].
    as_numbers_in H. intros E. injection E as <-. lia.
  - intros c v. unfold Py.between.
    destruct ((0x660 <=? c)%N && (c <=? 0x669)%N) eqn:H; [|discriminate].
    as_numbers_in H. intros _. unfold Py.isspace, Py.between. as_numbers. lia.
Defined.

Inductive Node : Type :=
| node (strings : list str) (attributes : list (str * str))
       (found : list (str * list Node)).

Definition lookup {A : Type} (key : str) (table : list (str * A)) : option A :=
  option_map snd (find (fun entry => Py.str_eqb key (fst entry)) table).

Definition node_select (n : Node) (css : str) : list Node :=
  match n with
  | node _ _ found =>
      match lookup css found with
      | Some nodes => nodes
      | None => []
      end
  end.

(** [get_text]: the fragments joined by the separator; with [strip=True] each
    fragment is stripped and the empty ones are dropped. *)
Definition node_get_text (n : Node) (separator : str) (strip : bool) : str :=
  match n with
  | node strings _ _ =>
      Py.join separator
        (if strip then filter Py.truthy (map Py.strip strings) else strings)
  end.

Definition node_get (n : Node) (attribute : str) : option str :=
  match n with
  | node _ attributes _ => lookup attribute attributes
  end.

(** [urljoin] of the site's origin and an absolute path. *)
Definition join_path (base url : str) : result str := Return (base ++ url).


Definition world (parser : str -> Node) (joiner : str -> str -> result str)
    (server : nat -> str -> Response) : External Node :=
  {| select := node_select;
     get_text := node_get_text;
     get := node_get;
     BeautifulSoup := parser;
     urljoin := joiner;
     session_get := fun n url _ _ => server n url |}.

(** Builders for review markup. *)
Definition leaf (text : str) : Node := node [text] [] [].

Definition image (attributes : list (str * str)) : Node := node [] attributes [].

Definition review_block (rating body : str) (images : list Node) : Node :=
  node []
       []
       [(lit "span.a-icon-alt", [leaf rating]);
        (lit "span[data-hook='review-body']", [leaf body]);
        (lit "img[data-hook='review-image-tile']", images)].


Definition illustrated_block : Node :=
  review_block "4.0 out of 5 stars" "Sturdy."
    [image [(lit "src", lit "a.jpg"); (lit "data-src", lit "a-lazy.jpg")];
     image [(lit "data-src", lit "b-lazy.jpg")];
     image [(lit "alt", lit "decoration")];
     image [(lit "src", lit "d.jpg")]].

Definition page_of (blocks : list Node) : Node :=
  node [] [] [(lit "div[data-hook='review']", blocks)].

Definition five_stars (body : str) : Node :=
  review_block "5.0 out of 5 stars" body [].

Definition page_one : Node :=
  page_of [five_stars "one"; five_stars "two"; five_stars "three";
           five_stars "four"; five_stars "five"].

Definition page_two : Node :=
  page_of [five_stars "six"; review_block "" "" []; five_stars "seven";
           five_stars "eight"].

Definition two_pages (html : str) : Node :=
  if Py.str_eqb html "<html>1</html>" then page_one
  else if Py.str_eqb html "<html>2</html>" then page_two
  else page_of [].

Definition product : str := "https://www.amazon.com/dp/B08N5WRWNW".

Definition listing (page : Z) : str :=
  lit "https://www.amazon.com/product-reviews/B08N5WRWNW?pageNumber="
    ++ str_of_int page ++ lit "&sortBy=recent".

(** Serves page 1 and page 2, and nothing else. *)
Definition two_page_site (n : nat) (url : str) : Response :=
  if Py.str_eqb url (listing 1) then HttpResponse 200 "<html>1</html>"
  else if Py.str_eqb url (listing 2) then HttpResponse 200 "<html>2</html>"
  else HttpResponse 404 "Not Found".

(** Serves page 1 and fails every later request. *)
Definition one_page_then_down (n : nat) (url : str) : Response :=
  if Py.str_eqb url (listing 1) then HttpResponse 200 "<html>1</html>"
  else if Nat.even n then HttpResponse 503 "Service Unavailable"
  else RequestException "Connection refused".

(** Fails twice, then serves. *)
Definition third_time_lucky (n : nat) (url : str) : Response :=
  match n with
  | 0 => HttpResponse 503 "Service Unavailable"
  | 1 => RequestException "Read timed out"
  | _ => HttpResponse 200 "<html>1</html>"
  end.

(** Serves page 1, and for every other request a page without reviews. *)
Definition one_page_then_empty (n : nat) (url : str) : Response :=
  if Py.str_eqb url (listing 1) then HttpResponse 200 "<html>1</html>"
  else HttpResponse 200 "<html>no reviews</html>".

Definition scraper : AmazonReviewsScraper :=
  __init__ "Mozilla/5.0" 20 None 3 1%float.

(** A scraper that is allowed no attempt at all. *)
Definition idle_scraper : AmazonReviewsScraper :=
  __init__ "Mozilla/5.0" 20 None 0 1%float.

(** A scraper told to wait a negative time. *)
Definition hasty_scraper : AmazonReviewsScraper :=
  __init__ "Mozilla/5.0" 20 None 3 (-1)%float.

Definition site : External Node := world two_pages join_path two_page_site.

Definition down_after_one : External Node :=
  world two_pages join_path one_page_then_down.

Definition short_site : External Node := world two_pages join_path one_page_then_empty.

Definition slow_start : External Node := world two_pages join_path third_time_lucky.


(** The record of an extraction that returned one. *)
Definition returned (outcome : result (option Review)) : option Review :=
  match outcome with
  | Return (Some review) => Some review
  | _ => None
  end.

End Scripted.

(** * Properties *)

Unset Implicit Arguments.

(** ** The embedding on sample inputs *)

Example clean_text_sample :
  UtilsText.clean_text (Some (lit " a " ++ [10%N] ++ lit "  b ")) = "a b".
Proof. reflexivity. Qed.

Example clean_text_none : UtilsText.clean_text None = "".
Proof. reflexivity. Qed.

(** A no-break space is whitespace like any other. *)
Example clean_text_no_break_space :
  UtilsText.clean_text (Some (lit "a" ++ [0xA0%N] ++ lit "b")) = "a b" /\
  UtilsText.clean_text (Some [0xA0%N; 0x2003%N; 0x85%N]) = "".
Proof. split; reflexivity. Qed.

Example parse_rating_score_sample {py : Py.Interpreter} :
  UtilsText.parse_rating_score "4.0 out of 5 stars" = Some 4%Q /\
  UtilsText.parse_rating_score "" = None /\
  UtilsText.parse_rating_score "Five stars" = None.
Proof. repeat split. Qed.

(** Digits of another script, and a no-break space before the phrase, on an
    interpreter that knows the Arabic-Indic digits. *)
Example parse_helpful_votes_beyond_ascii :
  UtilsText.parse_helpful_votes (py := Scripted.interpreter)
    ([0x661%N; 0x662%N; 0xA0%N] ++ lit "people found this helpful") = 12%Z /\
  UtilsText.parse_rating_score (py := Scripted.interpreter)
    (lit "4." ++ [0x665%N] ++ lit " out of 5") = Some (9 # 2)%Q.
Proof. split; reflexivity. Qed.

(** Under [IGNORECASE] the dotted capital I matches "i"; [str.lower] turns it
    into "i" and a combining dot, which "this" does not contain. *)
Example parse_helpful_votes_dotted_capital :
  UtilsText.parse_helpful_votes (py := Scripted.interpreter)
    (lit "5 people found th" ++ [0x130%N] ++ lit "s helpful") = 5%Z.
Proof. reflexivity. Qed.

(** A number of more digits than the interpreter reads is passed over. *)
Example parse_helpful_votes_too_long :
  UtilsText.parse_helpful_votes (py := Scripted.interpreter)
    (repeat (ch "7") 641 ++ lit " people found this helpful") = 0%Z /\
  UtilsText.parse_helpful_votes (py := Scripted.interpreter)
    (repeat (ch "0") 639 ++ lit "7 people found this helpful") = 7%Z.
Proof. split; vm_compute; reflexivity. Qed.

Example extract_asin_shapes {py : Py.Interpreter} :
  ReviewsParser._extract_asin "https://www.amazon.com/Echo-Dot/dp/B08N5WRWNW/ref=sr_1_1?th=1"
    = Return (Some (lit "B08N5WRWNW")) /\
  ReviewsParser._extract_asin "https://www.amazon.com/gp/product/B08N5WRWNW"
    = Return (Some (lit "B08N5WRWNW")) /\
  ReviewsParser._extract_asin "https://www.amazon.com/product-reviews/B08N5WRWNW?pageNumber=2"
    = Return (Some (lit "B08N5WRWNW")) /\
  ReviewsParser._extract_asin "https://www.amazon.com/gp/aw/d/B08N5WRWNW/"
    = Return (Some (lit "B08N5WRWNW")) /\
  ReviewsParser._extract_asin "https://www.amazon.com/dp/B000000001/gp/product/B000000002"
    = Return (Some (lit "B000000001")).
Proof. repeat split. Qed.

Example extract_asin_not_found {py : Py.Interpreter} :
  ReviewsParser._extract_asin "https://www.amazon.com" = Return None /\
  ReviewsParser._extract_asin "https://www.amazon.com/?tag=x" = Return None.
Proof. split; reflexivity. Qed.

(** A path segment of ten letters and digits is taken whatever the script of
    its letters, and a bracketed host that is no address is refused. *)
Example extract_asin_beyond_ascii :
  ReviewsParser._extract_asin (py := Scripted.interpreter)
    (lit "https://www.amazon.fr/produit/cafeti" ++ [0xE8%N] ++ lit "re1")
    = Return (Some (lit "cafeti" ++ [0xE8%N] ++ lit "re1")) /\
  ReviewsParser._extract_asin (py := Scripted.interpreter)
    "https://[abc]/dp/B08N5WRWNW" = Raise (ValueError "Invalid IPv6 URL").
Proof. split; reflexivity. Qed.

Example fetch_third_time_lucky :
  ReviewsParser._fetch_html_with_retries (world := Scripted.slow_start)
    Scripted.scraper "u" []
  = (Return (Some (lit "<html>1</html>")),
     [ReviewsParser.Get "u"; ReviewsParser.Sleep 1%float;
      ReviewsParser.Get "u"; ReviewsParser.Sleep 2%float;
      ReviewsParser.Get "u"]).
Proof. reflexivity. Qed.

(** [time.sleep] refuses a negative delay, one that is not a number and one
    beyond the range of the clock; the call raises and no time is spent. *)
Example time_sleep_refuses :
  ReviewsParser.time_sleep (-1)%float []
  = (Raise (ValueError "sleep length must be non-negative"), []) /\
  ReviewsParser.time_sleep PrimFloat.nan []
  = (Raise (ValueError "Invalid value NaN (not a number)"), []) /\
  ReviewsParser.time_sleep 1e10%float []
  = (Raise (OverflowError "timestamp too large to convert to C _PyTime_t"), []) /\
  ReviewsParser.time_sleep (-0)%float [] = (Return tt, [ReviewsParser.Sleep (-0)%float]).
Proof. repeat split. Qed.

(** With a negative delay the first failed attempt ends the fetch with the
    exception of [time.sleep]. *)
Example fetch_with_negative_delay :
  ReviewsParser._fetch_html_with_retries (world := Scripted.slow_start)
    Scripted.hasty_scraper "u" []
  = (Raise (ValueError "sleep length must be non-negative"), [ReviewsParser.Get "u"]).
Proof. reflexivity. Qed.

(** The delays are products of floats: three times a tenth of a second is
    not three tenths. *)
Example backoff_is_a_float_product :
  backoff_delay (ReviewsParser.__init__ "Mozilla/5.0" 20 None 3 0x1.999999999999ap-4%float) 3
  = 0x1.3333333333334p-2%float /\
  PrimFloat.eqb 0x1.3333333333334p-2 0x1.3333333333333p-2 = false.
Proof. split; reflexivity. Qed.
(** ** Text normalisation *)

Section CleanText.

Import Py.


Lemma word_cons a w :
  isspace a = false -> forallb (fun c => negb (isspace c)) w = true -> word (a :: w).
Proof.
  intros Ha Hw; split; [discriminate|].
  simpl; now rewrite Ha, Hw.
Qed.

Lemma word_inv a w :
  word (a :: w) -> isspace a = false /\ forallb (fun c => negb (isspace c)) w = true.
Proof.
  intros [_ H]; simpl in H.
  apply andb_true_iff in H as [Ha Hw].
  now apply negb_true_iff in Ha.
Qed.

Lemma split_words s : Forall word (split s).
Proof.
  induction s as [|c s IH]; simpl; [constructor|].
  destruct (isspace c) eqn:Hc; [assumption|].
  destruct s as [|d s']; [repeat constructor; now apply word_cons|].
  destruct (isspace d) eqn:Hd.
  - constructor; [now apply word_cons | assumption].
  - destruct (split (d :: s')) as [|w ws] eqn:Hs.
    + repeat constructor; now apply word_cons.
    + inversion IH as [|? ? Hw Hws]; subst.
      constructor; [|assumption].
      destruct Hw as [_ Hw]; now apply word_cons.
Qed.

Lemma split_inside_word a b s :
  isspace a = false -> isspace b = false ->
  split (a :: b :: s) =
  match split (b :: s) with
  | w :: ws => (a :: w) :: ws
  | [] => [[a]]
  end.
Proof.
  intros Ha Hb.
  change (split (a :: b :: s))
    with (if isspace a then split (b :: s)
          else if isspace b then [a] :: split (b :: s)
          else match split (b :: s) with
               | w :: ws => (a :: w) :: ws
               | [] => [[a]]
               end).
  now rewrite Ha, Hb.
Qed.

Lemma split_word_then_space w c s :
  word w -> isspace c = true -> split (w ++ c :: s) = w :: split s.
Proof.
  intros Hw Hc; revert Hw.
  induction w as [|a w IH]; intros Hw; [now destruct Hw|].
  apply word_inv in Hw as [Ha Hw].
  destruct w as [|b w'].
  - simpl; now rewrite Ha, Hc.
  - assert (Hb : word (b :: w')) by (split; [discriminate|assumption]).
    specialize (IH Hb).
    destruct (word_inv _ _ Hb) as [Hb' _].
    change ((b :: w') ++ c :: s) with (b :: w' ++ c :: s) in IH.
    change ((a :: b :: w') ++ c :: s) with (a :: b :: w' ++ c :: s).
    now rewrite split_inside_word, IH.
Qed.

Lemma split_one_word w : word w -> split w = [w].
Proof.
  induction w as [|a w IH]; intros Hw; [now destruct Hw|].
  apply word_inv in Hw as [Ha Hw].
  destruct w as [|b w'].
  - simpl; now rewrite Ha.
  - assert (Hb : word (b :: w')) by (split; [discriminate|assumption]).
    specialize (IH Hb).
    destruct (word_inv _ _ Hb) as [Hb' _].
    now rewrite split_inside_word, IH.
Qed.

Lemma split_join_words ws :
  Forall word ws -> split (join " " ws) = ws.
Proof.
  induction 1 as [|w ws Hw Hws IH]; [reflexivity|].
  destruct ws as [|w2 ws'].
  - simpl; now apply split_one_word.
  - change (join " " (w :: w2 :: ws'))
      with (w ++ ch " " :: join " " (w2 :: ws')).
    rewrite split_word_then_space by (assumption || reflexivity).
    now rewrite IH.
Qed.

Lemma lstrip_word_first a s : isspace a = false -> lstrip (a :: s) = a :: s.
Proof. intros Ha; simpl; now rewrite Ha. Qed.

Lemma rstrip_word_last s a : isspace a = false -> rstrip (s ++ [a]) = s ++ [a].
Proof.
  intros Ha; unfold rstrip.
  rewrite rev_app_distr; simpl.
  rewrite Ha; simpl.
  now rewrite rev_involutive.
Qed.

Lemma word_last w : word w -> exists s a, w = s ++ [a] /\ isspace a = false.
Proof.
  intros [Hne Hw].
  destruct (exists_last Hne) as (s & a & ->).
  exists s, a; split; [reflexivity|].
  rewrite forallb_app in Hw; simpl in Hw.
  apply andb_true_iff in Hw as [_ Hw].
  rewrite andb_true_r in Hw.
  now apply negb_true_iff.
Qed.

Lemma join_words_last ws :
  Forall word ws -> ws <> [] ->
  exists s a, join " " ws = s ++ [a] /\ isspace a = false.
Proof.
  induction 1 as [|w ws Hw Hws IH]; intros Hne; [contradiction|].
  destruct ws as [|w2 ws'].
  - simpl; now apply word_last.
  - destruct IH as (s & a & Hj & Ha); [discriminate|].
    exists (w ++ ch " " :: s), a; split; [|assumption].
    change (join " " (w :: w2 :: ws'))
      with (w ++ ch " " :: join " " (w2 :: ws')).
    rewrite Hj. now rewrite <- app_assoc.
Qed.

Lemma join_words_first ws :
  Forall word ws -> ws <> [] ->
  exists a s, join " " ws = a :: s /\ isspace a = false.
Proof.
  intros Hws Hne.
  destruct Hws as [|w ws Hw Hws]; [contradiction|].
  destruct w as [|a w']; [now destruct Hw|].
  destruct (word_inv _ _ Hw) as [Ha _].
  destruct ws; simpl; eauto.
Qed.

Lemma strip_join_words ws :
  Forall word ws -> strip (join " " ws) = join " " ws.
Proof.
  intros Hws.
  destruct ws as [|w ws']; [reflexivity|].
  unfold strip.
  destruct (join_words_first _ Hws) as (a & s & Hj & Ha); [discriminate|].
  rewrite Hj, lstrip_word_first by assumption.
  rewrite <- Hj.
  destruct (join_words_last _ Hws) as (s' & b & Hj' & Hb); [discriminate|].
  rewrite Hj'. now apply rstrip_word_last.
Qed.

(** What [clean_text] returns: its words, single-spaced. *)
Lemma clean_text_words text :
  UtilsText.clean_text (Some text) = join " " (split text).
Proof.
  unfold UtilsText.clean_text.
  apply strip_join_words, split_words.
Qed.

End CleanText.

(** C10.  [clean_text] is idempotent: cleaning a cleaned text changes
    nothing, for every input, [None] included. *)
Theorem clean_text_idempotent (text : option str) :
  UtilsText.clean_text (Some (UtilsText.clean_text text)) = UtilsText.clean_text text.
Proof.
  destruct text as [text|]; [|reflexivity].
  rewrite !clean_text_words.
  now rewrite split_join_words by apply split_words.
Qed.
(** ** The matcher finds exactly the words of the pattern *)

Section Matching.

Import Re.

Variable ic : bool.

Lemma orelse_some a b x :
  orelse a b = Some x -> a = Some x \/ (a = None /\ b = Some x).
Proof. destruct a; simpl; intros H; [left|right]; auto. Qed.

Lemma plus_m_sound p s k x :
  plus_m p s k = Some x ->
  exists u v, s = u ++ v /\ u <> [] /\ forallb p u = true /\ k v = Some x.
Proof.
  revert x; induction s as [|a s IH]; intros x; simpl; [discriminate|].
  destruct (p a) eqn:Hp; [|discriminate].
  intros H; apply orelse_some in H as [H|[_ H]].
  - destruct (IH _ H) as (u & v & -> & _ & Hu & Hk).
    exists (a :: u), v; repeat split; try assumption; [discriminate|].
    simpl; now rewrite Hp.
  - exists [a], s; repeat split; try assumption; [discriminate|].
    simpl; now rewrite Hp.
Qed.

Lemma plus_m_complete p u v k :
  u <> [] -> forallb p u = true -> k v <> None -> plus_m p (u ++ v) k <> None.
Proof.
  induction u as [|a u IH]; intros Hne Hu Hk; [contradiction|].
  simpl in Hu; apply andb_true_iff in Hu as [Ha Hu].
  simpl; rewrite Ha.
  destruct u as [|b u'].
  - simpl. destruct (plus_m p v k); [discriminate|assumption].
  - assert (H : plus_m p ((b :: u') ++ v) k <> None)
      by (apply IH; [discriminate|assumption|assumption]).
    destruct (plus_m p ((b :: u') ++ v) k); [discriminate|contradiction].
Qed.

Lemma rep_m_sound p n s k x :
  rep_m p n s k = Some x ->
  exists u v, s = u ++ v /\ List.length u = n /\ forallb p u = true /\ k v = Some x.
Proof.
  revert s; induction n as [|n IH]; intros s; simpl.
  - intros H; exists [], s; auto.
  - destruct s as [|a s]; [discriminate|].
    destruct (p a) eqn:Hp; [|discriminate].
    intros H; destruct (IH _ H) as (u & v & -> & Hn & Hu & Hk).
    exists (a :: u), v; repeat split; simpl; try congruence.
    now rewrite Hp.
Qed.

Lemma rep_m_complete p u v k :
  forallb p u = true -> k v <> None -> rep_m p (List.length u) (u ++ v) k <> None.
Proof.
  induction u as [|a u IH]; intros Hu Hk; simpl; [assumption|].
  simpl in Hu; apply andb_true_iff in Hu as [Ha Hu].
  rewrite Ha; now apply IH.
Qed.

(** A pattern without the group hands to the continuation the rest of some
    split of the input, and passes the continuation's answer on. *)
Lemma m_sound r : group_free r ->
  forall s k x, m ic r s k = Some x ->
  exists u v, s = u ++ v /\ lang ic r u /\ k v = Some x.
Proof.
  induction r as [|c|p|r1 IH1 r2 IH2|r IH|p|n p|r IH]; simpl; intros Hg s k x H.
  - exists [], s; auto.
  - destruct s as [|a s]; [discriminate|].
    destruct (chr_match ic a c) eqn:Hc; [|discriminate].
    exists [a], s; repeat split; eauto.
  - destruct s as [|a s]; [discriminate|].
    destruct (p a) eqn:Hp; [|discriminate].
    exists [a], s; repeat split; eauto.
  - destruct Hg as [Hg1 Hg2].
    destruct (IH1 Hg1 _ _ _ H) as (u1 & v1 & -> & Hu1 & H1).
    destruct (IH2 Hg2 _ _ _ H1) as (u2 & v2 & -> & Hu2 & H2).
    exists (u1 ++ u2), v2; rewrite <- app_assoc; repeat split; eauto.
  - apply orelse_some in H as [H|[_ H]].
    + destruct (IH Hg _ _ _ H) as (u & v & -> & Hu & Hk); eauto 6.
    + exists [], s; auto.
  - destruct (plus_m_sound _ _ _ _ H) as (u & v & -> & Hne & Hu & Hk); eauto 7.
  - destruct (rep_m_sound _ _ _ _ _ H) as (u & v & -> & Hn & Hu & Hk); eauto 7.
  - contradiction.
Qed.

(** Any pattern: a match means that a word of the pattern starts the input
    and that the continuation accepted what follows. *)
Lemma m_accepts r :
  forall s k x, m ic r s k = Some x ->
  exists u v, s = u ++ v /\ lang ic r u /\ k v <> None.
Proof.
  induction r as [|c|p|r1 IH1 r2 IH2|r IH|p|n p|r IH]; simpl; intros s k x H.
  - exists [], s; repeat split; congruence.
  - destruct s as [|a s]; [discriminate|].
    destruct (chr_match ic a c) eqn:Hc; [|discriminate].
    exists [a], s; repeat split; eauto; congruence.
  - destruct s as [|a s]; [discriminate|].
    destruct (p a) eqn:Hp; [|discriminate].
    exists [a], s; repeat split; eauto; congruence.
  - destruct (IH1 _ _ _ H) as (u1 & v1 & -> & Hu1 & H1).
    destruct (m ic r2 v1 k) as [y|] eqn:H2; [|contradiction].
    destruct (IH2 _ _ _ H2) as (u2 & v2 & -> & Hu2 & Hk).
    exists (u1 ++ u2), v2; rewrite <- app_assoc; repeat split; eauto.
  - apply orelse_some in H as [H|[_ H]].
    + destruct (IH _ _ _ H) as (u & v & -> & Hu & Hk); eauto 6.
    + exists [], s; repeat split; auto; congruence.
  - destruct (plus_m_sound _ _ _ _ H) as (u & v & -> & Hne & Hu & Hk).
    exists u, v; repeat split; auto; congruence.
  - destruct (rep_m_sound _ _ _ _ _ H) as (u & v & -> & Hn & Hu & Hk).
    exists u, v; repeat split; auto; congruence.
  - destruct (IH _ _ _ H) as (u & v & -> & Hu & Hk).
    exists u, v; repeat split; auto.
    destruct (k v); [discriminate|contradiction].
Qed.

(** Conversely the matcher misses no word of the pattern. *)
Lemma m_complete r :
  forall u v k, lang ic r u -> k v <> None -> m ic r (u ++ v) k <> None.
Proof.
  induction r as [|c|p|r1 IH1 r2 IH2|r IH|p|n p|r IH]; simpl; intros u v k Hu Hk.
  - now subst.
  - destruct Hu as (a & -> & Ha); simpl; now rewrite Ha.
  - destruct Hu as (a & -> & Ha); simpl; now rewrite Ha.
  - destruct Hu as (u1 & u2 & -> & Hu1 & Hu2).
    rewrite <- app_assoc.
    apply IH1; [assumption|]. now apply IH2.
  - destruct Hu as [Hu| ->].
    + specialize (IH _ _ _ Hu Hk).
      destruct (m ic r (u ++ v) k); [discriminate|contradiction].
    + simpl. destruct (m ic r v k); [discriminate|assumption].
  - destruct Hu as [Hne Hu]. now apply plus_m_complete.
  - destruct Hu as [<- Hu]. now apply rep_m_complete.
  - apply IH; [assumption|].
    destruct (k v); [discriminate|contradiction].
Qed.

Lemma firstn_consumed (u v : str) :
  firstn (List.length (u ++ v) - List.length v) (u ++ v) = u.
Proof.
  replace (List.length (u ++ v) - List.length v) with (List.length u)
    by (rewrite length_app; lia).
  now rewrite firstn_app, Nat.sub_diag, firstn_all, firstn_O, app_nil_r.
Qed.

(** A pattern that opens with its group: the answer is the group's word. *)
Lemma match_here_group_first g r s x :
  group_free g ->
  match_here ic (Cat (Grp g) r) s = Some x ->
  exists u v, s = x ++ u ++ v /\ lang ic g x /\ lang ic r u.
Proof.
  unfold match_here; simpl; intros Hg H.
  destruct (m_sound _ Hg _ _ _ H) as (u1 & v1 & -> & Hu1 & Hk).
  destruct (m ic r v1 (fun _ => Some [])) as [y|] eqn:Hr; [|discriminate].
  destruct (m_accepts _ _ _ _ Hr) as (u2 & v2 & -> & Hu2 & _).
  injection Hk as <-.
  rewrite firstn_consumed.
  eauto.
Qed.

Lemma match_here_complete r u v :
  lang ic r u -> match_here ic r (u ++ v) <> None.
Proof. intros Hu; apply m_complete; [assumption|discriminate]. Qed.

(** [search] returns the answer at the leftmost position that matches. *)
Lemma search_some r s x :
  search ic r s = Some x ->
  exists pre rest,
    s = pre ++ rest /\ match_here ic r rest = Some x /\
    forall pre' rest', s = pre' ++ rest' -> List.length pre' < List.length pre ->
                       match_here ic r rest' = None.
Proof.
  induction s as [|a s IH]; simpl; intros H.
  - apply orelse_some in H as [H|[_ H]]; [|discriminate].
    exists [], []; repeat split; [assumption|].
    simpl; intros; lia.
  - apply orelse_some in H as [H|[Hn H]].
    + exists [], (a :: s); repeat split; [assumption|].
      simpl; intros; lia.
    + destruct (IH H) as (pre & rest & -> & Hm & Hleft).
      exists (a :: pre), rest; repeat split; [assumption|].
      intros [|b pre'] rest' Heq Hlen; simpl in *.
      * now subst.
      * injection Heq as -> Heq. apply (Hleft pre'); [assumption|lia].
Qed.

Lemma search_none r s :
  search ic r s = None ->
  forall pre rest, s = pre ++ rest -> match_here ic r rest = None.
Proof.
  induction s as [|a s IH]; simpl; intros H pre rest Heq.
  - destruct pre; [|discriminate]. simpl in Heq; subst.
    destruct (match_here ic r []); [discriminate|reflexivity].
  - destruct (match_here ic r (a :: s)) eqn:Hm; [discriminate|]. simpl in H.
    destruct pre as [|b pre]; simpl in Heq.
    + now subst.
    + injection Heq as -> Heq. now apply (IH H pre).
Qed.

Lemma search_finds r s pre rest :
  s = pre ++ rest -> match_here ic r rest <> None -> search ic r s <> None.
Proof.
  intros Heq Hm Hs. now apply Hm, (search_none _ _ Hs pre).
Qed.

End Matching.

(** ** Helpful votes *)

Section HelpfulVotes.

Import Py Re UtilsText.

Context {py : Interpreter}.

Lemma char_eqb_eq a b : char_eqb a b = true <-> a = b.
Proof. apply N.eqb_eq. Qed.

Lemma char_eqb_refl a : char_eqb a a = true.
Proof. apply N.eqb_refl. Qed.

Lemma decimal_digit c v : decimal c = Some v -> v <= 9.
Proof.
  unfold decimal. destruct (isascii c).
  - unfold between. destruct ((48 <=? c)%N && (c <=? 57)%N) eqn:H; [|discriminate].
    as_numbers_in H. intros E. injection E as <-. lia.
  - apply decimal_beyond_digit.
Qed.

Lemma space_is_no_digit c : isspace c = true -> isdecimal c = false.
Proof.
  intros Hs. unfold isdecimal, decimal.
  destruct (isascii c) eqn:Ha.
  - unfold isspace, between in Hs. unfold isascii in Ha. as_numbers_in Hs. as_numbers_in Ha.
    replace (between 48 57 c) with false; [reflexivity|].
    symmetry. unfold between. as_numbers. lia.
  - destruct (decimal_beyond c) as [v|] eqn:Hd; [|reflexivity].
    apply decimal_beyond_visible in Hd. congruence.
Qed.

Lemma startswith_prefix p s : startswith p s = true <-> exists b, s = p ++ b.
Proof.
  revert s; induction p as [|a p IH]; intros s; simpl.
  - split; eauto.
  - destruct s as [|c s]; [split; [discriminate|intros [b Hb]; discriminate]|].
    rewrite andb_true_iff, char_eqb_eq, IH.
    split.
    + intros [-> [b ->]]; eauto.
    + intros [b Hb]; injection Hb as -> ->; eauto.
Qed.

Lemma contains_occurs p s : contains p s = true <-> occurs p s.
Proof.
  induction s as [|c s IH]; simpl; rewrite orb_true_iff, startswith_prefix.
  - split.
    + intros [[b Hb]|H]; [|discriminate]. exists [], b; assumption.
    + intros ([|? ?] & b & Hb); [left; eauto|discriminate].
  - rewrite IH; split.
    + intros [[b Hb]|(a & b & ->)]; [exists [], b; assumption|].
      exists (c :: a), b; reflexivity.
    + intros ([|c' a] & b & Hb); [left; eauto|].
      injection Hb as -> ->. right; exists a, b; reflexivity.
Qed.

(** Under [IGNORECASE] a literal text matches its spellings in any case. *)
Lemma lang_text_spells t u : lang true (text t) u <-> spells t u.
Proof.
  unfold spells. revert u; induction t as [|c t IH]; intros u; simpl.
  - split; [intros ->; constructor|]. intros H; now inversion H.
  - split.
    + intros (u1 & u2 & -> & (a & -> & Ha) & Hu2).
      apply IH in Hu2. constructor; assumption.
    + intros H. inversion H as [|a c' u' t' Ha Hu]; subst.
      exists [a], u'; repeat split.
      * exists a; split; [reflexivity|assumption].
      * now apply IH.
Qed.

Lemma spells_app t1 t2 u1 u2 :
  spells t1 u1 -> spells t2 u2 -> spells (t1 ++ t2) (u1 ++ u2).
Proof.
  unfold spells. intros H1 H2.
  replace (list_ascii_of_string (t1 ++ t2))
    with (list_ascii_of_string t1 ++ list_ascii_of_string t2).
  - now apply Forall2_app.
  - clear. induction t1 as [|c t1 IH]; simpl; [reflexivity|now rewrite IH].
Qed.

Lemma spells_split t1 t2 u :
  spells (t1 ++ t2) u -> exists u1 u2, u = u1 ++ u2 /\ spells t1 u1 /\ spells t2 u2.
Proof.
  unfold spells.
  replace (list_ascii_of_string (t1 ++ t2))
    with (list_ascii_of_string t1 ++ list_ascii_of_string t2).
  - intros H. apply Forall2_app_inv_r in H as (u1 & u2 & H1 & H2 & ->). eauto.
  - clear. induction t1 as [|c t1 IH]; simpl; [reflexivity|now rewrite IH].
Qed.

Lemma helpful_lang u :
  lang true (Cat (Plus isspace)
               (Cat (text "peopl") (Cat (Opt (Chr "e")) (text " found this helpful")))) u
  <-> exists W P,
        u = W ++ P /\ (W <> [] /\ forallb isspace W = true) /\
        (spells "people found this helpful" P \/ spells "peopl found this helpful" P).
Proof.
  split.
  - intros (W & u1 & -> & HW & (p1 & u2 & -> & Hp1 & (e & p2 & -> & He & Hp2))).
    apply lang_text_spells in Hp1, Hp2.
    exists W, (p1 ++ e ++ p2); repeat split; try apply HW.
    destruct He as [(a & -> & Ha)| ->].
    + left. apply (spells_app "peopl" "e found this helpful"); [assumption|].
      apply (spells_app "e" " found this helpful"); [|assumption].
      repeat constructor. exact Ha.
    + right. now apply (spells_app "peopl" " found this helpful").
  - intros (W & P & -> & HW & HP).
    exists W, P; repeat split; try apply HW.
    destruct HP as [HP|HP].
    + apply (spells_split "peopl" "e found this helpful") in HP
        as (p1 & u2 & -> & Hp1 & HP).
      apply (spells_split "e" " found this helpful") in HP as (e & p2 & -> & He & Hp2).
      exists p1, (e ++ p2); repeat split; [now apply lang_text_spells|].
      exists e, p2; repeat split; [|now apply lang_text_spells].
      left. inversion He as [|a c e' t' Ha He']; subst. inversion He'; subst.
      exists a; split; [reflexivity|exact Ha].
    + apply (spells_split "peopl" " found this helpful") in HP
        as (p1 & p2 & -> & Hp1 & Hp2).
      exists p1, p2; repeat split; [now apply lang_text_spells|].
      exists [], p2; repeat split; [now right|now apply lang_text_spells].
Qed.

(** A match of [_HELPFUL_RE] at the start of [rest] answers [D] exactly when
    [rest] opens with a statement whose number is [D]. *)
Lemma helpful_match_statement rest D :
  match_here true _HELPFUL_RE rest = Some D ->
  exists W P post, rest = D ++ W ++ P ++ post /\ vote_statement D W P.
Proof.
  intros H.
  apply match_here_group_first in H as (u & post & -> & HD & Hu); [|exact I].
  apply helpful_lang in Hu as (W & P & -> & HW & HP).
  exists W, P, post; rewrite <- app_assoc; repeat split; (apply HD || apply HW || apply HP).
Qed.

Lemma digit_run_unique D D' c c' s s' :
  forallb isdecimal D = true -> forallb isdecimal D' = true ->
  isdecimal c = false -> isdecimal c' = false ->
  D ++ c :: s = D' ++ c' :: s' -> D = D'.
Proof.
  revert D'; induction D as [|a D IH]; intros [|a' D'] HD HD' Hc Hc' Heq;
    simpl in *; try reflexivity.
  - injection Heq as -> _. apply andb_true_iff in HD' as [HD' _]. congruence.
  - injection Heq as -> _. apply andb_true_iff in HD as [HD _]. congruence.
  - injection Heq as -> Heq.
    apply andb_true_iff in HD as [_ HD]. apply andb_true_iff in HD' as [_ HD'].
    f_equal. now apply (IH D').
Qed.

Lemma statement_number_unique D W P post D' W' P' post' :
  vote_statement D W P -> vote_statement D' W' P' ->
  D ++ W ++ P ++ post = D' ++ W' ++ P' ++ post' -> D = D'.
Proof.
  intros ((_ & HD) & (HW0 & HW) & _) ((_ & HD') & (HW0' & HW') & _) Heq.
  destruct W as [|c W]; [contradiction|]. destruct W' as [|c' W']; [contradiction|].
  simpl in HW, HW'.
  apply andb_true_iff in HW as [Hc _]. apply andb_true_iff in HW' as [Hc' _].
  apply space_is_no_digit in Hc, Hc'.
  now apply (digit_run_unique D D' c c' (W ++ P ++ post) (W' ++ P' ++ post')).
Qed.

Lemma helpful_statement_match D W P post :
  vote_statement D W P ->
  match_here true _HELPFUL_RE (D ++ W ++ P ++ post) = Some D.
Proof.
  intros HS.
  assert (Hm : match_here true _HELPFUL_RE ((D ++ W ++ P) ++ post) <> None).
  { apply match_here_complete. destruct HS as (HD & HW & HP).
    exists D, (W ++ P); repeat split; try apply HD.
    apply helpful_lang. exists W, P; auto. }
  rewrite <- !app_assoc in Hm.
  destruct (match_here true _HELPFUL_RE (D ++ W ++ P ++ post)) as [D'|] eqn:H;
    [|contradiction].
  destruct (helpful_match_statement _ _ H) as (W' & P' & post' & Heq & HS').
  f_equal; symmetry. eapply statement_number_unique; eauto.
Qed.

Lemma over_limit_readable D :
  over_limit int_max_str_digits (List.length D) = false <-> readable D.
Proof.
  unfold over_limit, readable.
  rewrite !andb_false_iff, !Nat.ltb_ge. lia.
Qed.

Lemma int_digits D :
  D <> [] -> forallb isdecimal D = true -> readable D ->
  int D = Some (digits_val D).
Proof.
  intros Hne HD Hr; unfold int, all_digits.
  apply over_limit_readable in Hr. rewrite Hr.
  destruct D; [contradiction|]. now rewrite HD.
Qed.

Lemma int_unreadable D : ~ readable D -> int D = None.
Proof.
  intros Hr; unfold int.
  destruct (over_limit int_max_str_digits (List.length D)) eqn:Ho.
  - now destruct (truthy D && all_digits D).
  - now apply over_limit_readable in Ho.
Qed.

Lemma search_first_statement text D :
  first_statement text D -> search true _HELPFUL_RE text = Some D.
Proof.
  intros (pre & W & P & post & Heq & HS & Hleft).
  pose proof (helpful_statement_match _ _ _ post HS) as Hm.
  destruct (search true _HELPFUL_RE text) as [D'|] eqn:Hs.
  - apply search_some in Hs as (pre2 & rest2 & Heq2 & Hm2 & Hleft2).
    destruct (helpful_match_statement _ _ Hm2) as (W' & P' & post' & -> & HS').
    assert (Hlen : List.length pre = List.length pre2).
    { apply Nat.le_antisymm; [now apply (Hleft pre2 D' W' P' post')|].
      apply Nat.nlt_ge; intros Hlt.
      specialize (Hleft2 _ _ Heq Hlt). congruence. }
    rewrite Heq in Heq2.
    assert (Hpre : pre = pre2 /\ D ++ W ++ P ++ post = D' ++ W' ++ P' ++ post').
    { clear - Heq2 Hlen. revert pre2 Heq2 Hlen.
      induction pre as [|a pre IH]; intros [|b pre2] Heq2 Hlen;
        simpl in *; try discriminate; [auto|].
      injection Heq2 as -> Heq2. injection Hlen as Hlen.
      destruct (IH _ Heq2 Hlen) as [-> ?]; auto. }
    destruct Hpre as [_ Heq3]. f_equal; symmetry.
    eapply statement_number_unique; eauto.
  - exfalso. eapply search_finds; eauto.
    rewrite Hm; discriminate.
Qed.

Lemma search_no_statement text :
  no_statement text -> search true _HELPFUL_RE text = None.
Proof.
  intros Hno.
  destruct (search true _HELPFUL_RE text) as [D|] eqn:Hs; [|reflexivity].
  apply search_some in Hs as (pre & rest & -> & Hm & _).
  destruct (helpful_match_statement _ _ Hm) as (W & P & post & -> & HS).
  now destruct (Hno pre D W P post).
Qed.

Lemma no_statement_search text :
  search true _HELPFUL_RE text = None -> no_statement text.
Proof.
  intros Hs pre D W P post Heq HS.
  apply (search_finds true _HELPFUL_RE text pre _ Heq); [|assumption].
  rewrite (helpful_statement_match _ _ _ post HS); discriminate.
Qed.

Lemma first_statement_search text D :
  search true _HELPFUL_RE text = Some D -> first_statement text D.
Proof.
  intros Hs. apply search_some in Hs as (pre & rest & -> & Hm & Hleft).
  destruct (helpful_match_statement _ _ Hm) as (W & P & post & -> & HS).
  exists pre, W, P, post. split; [reflexivity|]. split; [assumption|].
  intros pre' D' W' P' post' Heq HS'.
  apply Nat.nlt_ge; intros Hlt.
  specialize (Hleft _ _ Heq Hlt).
  rewrite (helpful_statement_match _ _ _ post' HS') in Hleft. discriminate.
Qed.

End HelpfulVotes.

(** C7, as amended.  A statement is a number in decimal digits, whitespace,
    and the phrase "people found this helpful" in any mix of cases, where the
    final "e" of "people" may be missing (the pattern does not accept
    "person").  [parse_helpful_votes] returns the number of the first
    statement of the text, provided [int] reads a number of so many digits.
    When the text has no statement, or the number of its first statement is
    too long for [int], it returns 1 if "one person found this helpful"
    occurs in the lower-cased text, and 0 otherwise; the empty text gives 0.
    So "21 people found this helpful" gives 21,
    "One person found this helpful" gives 1 and "" gives 0. *)
Theorem parse_helpful_votes_reads_statement {py : Py.Interpreter} (text : str) :
  (forall D, first_statement text D -> readable D ->
             UtilsText.parse_helpful_votes text = Py.digits_val D) /\
  (forall D, first_statement text D -> ~ readable D ->
             UtilsText.parse_helpful_votes text = one_person text) /\
  (no_statement text ->
   occurs "one person found this helpful" (Py.lower text) ->
   UtilsText.parse_helpful_votes text = 1%Z) /\
  (no_statement text ->
   ~ occurs "one person found this helpful" (Py.lower text) ->
   UtilsText.parse_helpful_votes text = 0%Z) /\
  UtilsText.parse_helpful_votes "" = 0%Z /\
  UtilsText.parse_helpful_votes "21 people found this helpful" = 21%Z /\
  UtilsText.parse_helpful_votes "One person found this helpful" = 1%Z.
Proof.
  repeat split; try reflexivity.
  - intros D HD Hr.
    pose proof (search_first_statement _ _ HD) as Hs.
    destruct HD as (pre & W & P & post & -> & ((Hne & HD) & _) & _).
    unfold UtilsText.parse_helpful_votes.
    rewrite Hs, (int_digits _ Hne HD Hr).
    destruct pre; [destruct D; [contradiction|]|]; reflexivity.
  - intros D HD Hr.
    pose proof (search_first_statement _ _ HD) as Hs.
    destruct HD as (pre & W & P & post & -> & ((Hne & HD) & _) & _).
    unfold UtilsText.parse_helpful_votes, one_person.
    rewrite Hs, (int_unreadable _ Hr).
    destruct pre; [destruct D; [contradiction|]|]; reflexivity.
  - intros Hno Hocc.
    unfold UtilsText.parse_helpful_votes.
    rewrite (search_no_statement _ Hno).
    apply contains_occurs in Hocc. rewrite Hocc.
    destruct text; [discriminate Hocc|reflexivity].
  - intros Hno Hocc.
    unfold UtilsText.parse_helpful_votes.
    rewrite (search_no_statement _ Hno).
    destruct (Py.contains "one person found this helpful" (Py.lower text)) eqn:Hc.
    + now apply contains_occurs in Hc.
    + now destruct (negb (Py.truthy text)).
Qed.

(** C7 on texts that meet the conditions of its cases, for an interpreter
    that reads the Arabic-Indic digits and no more than 640 digits: a counted
    statement in upper case without the final "e"; one written with digits
    of another script, a no-break space and a dotted capital I; one whose
    number is too long; the spelled-out singular; a text about something
    else. *)
Lemma parse_helpful_votes_reads_statement_witness :
  UtilsText.parse_helpful_votes (py := Scripted.interpreter)
    "7  PEOPL found this helpful" = 7%Z /\
  UtilsText.parse_helpful_votes (py := Scripted.interpreter)
    ([0x661%N; 0x662%N] ++ [0xA0%N]
       ++ (lit "people found th" ++ [0x130%N] ++ lit "s helpful") ++ []) = 12%Z /\
  UtilsText.parse_helpful_votes (py := Scripted.interpreter)
    (repeat (ch "7") 641 ++ lit " " ++ lit "people found this helpful" ++ []) = 0%Z /\
  UtilsText.parse_helpful_votes (py := Scripted.interpreter)
    "One person found this helpful" = 1%Z /\
  UtilsText.parse_helpful_votes (py := Scripted.interpreter) "Report abuse" = 0%Z.
Proof.
  split; [|split; [|split; [|split]]].
  - apply (proj1 (parse_helpful_votes_reads_statement (py := Scripted.interpreter)
                    "7  PEOPL found this helpful") "7").
    + exists [], (lit "  "), (lit "PEOPL found this helpful"), [].
      split; [reflexivity|]. split.
      * repeat split; try discriminate. right. repeat constructor.
      * intros; apply Nat.le_0_l.
    + left. simpl. lia.
  - apply (proj1 (parse_helpful_votes_reads_statement (py := Scripted.interpreter) _)
             [0x661%N; 0x662%N]).
    + exists [], [0xA0%N], (lit "people found th" ++ [0x130%N] ++ lit "s helpful"), [].
      split; [reflexivity|]. split.
      * repeat split; try discriminate. left. repeat constructor.
      * intros; apply Nat.le_0_l.
    + left. simpl. lia.
  - refine (eq_trans
              (proj1 (proj2 (parse_helpful_votes_reads_statement
                               (py := Scripted.interpreter) _))
                 (repeat (ch "7") 641) _ _) _); [| |vm_compute; reflexivity].
    + exists [], (lit " "), (lit "people found this helpful"), [].
      split; [reflexivity|]. split.
      * split; [split; [discriminate|vm_compute; reflexivity]|].
        split; [split; [discriminate|reflexivity]|]. left. repeat constructor.
      * intros; apply Nat.le_0_l.
    + unfold readable. rewrite repeat_length. simpl. lia.
  - apply (proj1 (proj2 (proj2 (parse_helpful_votes_reads_statement
                                  (py := Scripted.interpreter)
                                  "One person found this helpful")))).
    + apply no_statement_search. reflexivity.
    + exists [], []; reflexivity.
  - apply (proj1 (proj2 (proj2 (proj2 (parse_helpful_votes_reads_statement
                                         (py := Scripted.interpreter) "Report abuse"))))).
    + apply no_statement_search. reflexivity.
    + intros Hocc. apply contains_occurs in Hocc. discriminate Hocc.
Defined.

(** A count followed by "person" is not read as a count, whatever the
    interpreter. *)
Example parse_helpful_votes_person {py : Py.Interpreter} :
  UtilsText.parse_helpful_votes "3 person found this helpful" = 0%Z /\
  UtilsText.parse_helpful_votes "1 person found this helpful" = 0%Z.
Proof. split; reflexivity. Qed.

(** C7 as stated fails: a count followed by "person" is not read as a count.
    The claim gives 3 for this text; the code gives 0. *)
Lemma parse_helpful_votes_rejects_person :
  UtilsText.parse_helpful_votes (py := Scripted.interpreter)
    "3 person found this helpful" = 0%Z.
Proof. reflexivity. Qed.

(** ** Ratings *)

Section Ratings.

Import Py Re UtilsText.

Context {py : Interpreter}.

Lemma zero_to_five_cases a :
  zero_to_five a = true ->
  In a [48; 49; 50; 51; 52; 53]%N.
Proof.
  unfold zero_to_five, between. intros H. as_numbers_in H. simpl.
  assert (a = 48 \/ a = 49 \/ a = 50 \/ a = 51 \/ a = 52 \/ a = 53)%N by lia.
  intuition.
Qed.

(** A literal that is no letter matches itself only, also under
    [IGNORECASE]. *)
Lemma dot_only a : chr_match true a "." = true -> a = ch ".".
Proof.
  unfold chr_match, fold_match.
  change (latin_lower (ch ".")) with 46%N. cbn [N.eqb Pos.eqb andb orb].
  rewrite !orb_false_r. unfold latin_lower.
  destruct (between 65 90 a || between 192 222 a && negb (a =? 215)%N) eqn:E;
    intros H; apply N.eqb_eq in H; [|exact H].
  unfold between in E. as_numbers_in E. lia.
Qed.

Lemma isdecimal_value c : isdecimal c = true -> exists v, decimal c = Some v /\ v <= 9.
Proof.
  unfold isdecimal. destruct (decimal c) as [v|] eqn:H; [|discriminate].
  intros _. exists v. split; [reflexivity|]. eapply decimal_digit; eauto.
Qed.

Lemma digits_val_one a : digits_val [a] = digit_val a.
Proof. unfold digits_val. cbn [fold_left]. lia. Qed.

Lemma float_whole a :
  isdecimal a = true -> a <> ch "." ->
  Py.float [a] = Some (Qred (Qmake (digit_val a) 1)).
Proof.
  intros Ha Hna. unfold Py.float. cbn [partition]. unfold char_eqb.
  rewrite (proj2 (N.eqb_neq a _) Hna). cbn iota beta.
  unfold all_digits. cbn [forallb]. rewrite Ha.
  cbn [andb app truthy List.length].
  change (10 ^ Z.of_nat 0)%Z with 1%Z. change (Z.to_pos 1) with 1%positive.
  change (digits_val []) with 0%Z. rewrite digits_val_one.
  do 3 f_equal. lia.
Qed.

Lemma float_tenths a c :
  isdecimal a = true -> isdecimal c = true -> a <> ch "." ->
  Py.float [a; ch "."; c]
  = Some (Qred (Qmake (digit_val a * 10 + digit_val c) 10)).
Proof.
  intros Ha Hc Hna.
  assert (Hnc : c <> ch ".") by (intros ->; vm_compute in Hc; discriminate).
  unfold Py.float. cbn [partition]. unfold char_eqb.
  rewrite (proj2 (N.eqb_neq a _) Hna), N.eqb_refl. cbn iota beta.
  unfold all_digits. cbn [forallb]. rewrite Ha, Hc.
  cbn [andb app truthy List.length].
  change (10 ^ Z.of_nat 1)%Z with 10%Z. change (Z.to_pos 10) with 10%positive.
  now rewrite !digits_val_one.
Qed.

Lemma zero_to_five_value a :
  zero_to_five a = true ->
  isdecimal a = true /\ a <> ch "." /\ (0 <= digit_val a <= 5)%Z.
Proof.
  intros Ha. apply zero_to_five_cases in Ha. simpl in Ha.
  repeat (destruct Ha as [<-|Ha]; [vm_compute; repeat split; congruence|]).
  contradiction.
Qed.

Lemma digit_val_range c : isdecimal c = true -> (0 <= digit_val c <= 9)%Z.
Proof.
  intros Hc. destruct (isdecimal_value c Hc) as (d & Hd & Hd9).
  unfold digit_val. rewrite Hd. lia.
Qed.

(** What the group of [_RATING_RE] is read as: a number of tenths, from 0 to
    59. *)
Lemma rating_group_tenths g :
  lang true (Cat (Cls zero_to_five) (Opt (Cat (Chr ".") (Cls isdecimal)))) g ->
  exists tenths : Z, (0 <= tenths <= 59)%Z /\ Py.float g = Some (Qred (Qmake tenths 10)).
Proof.
  intros (u1 & u2 & -> & (a & -> & Ha) & Hopt).
  apply zero_to_five_value in Ha as (Ha & Hna & Hva).
  destruct Hopt as [(v1 & v2 & -> & (b & -> & Hb) & (c & -> & Hc))| ->].
  - apply dot_only in Hb; subst b.
    pose proof (digit_val_range c Hc) as Hvc.
    exists (digit_val a * 10 + digit_val c)%Z. split; [lia|].
    now apply float_tenths.
  - exists (digit_val a * 10)%Z. split; [lia|].
    rewrite app_nil_r, (float_whole a Ha Hna). f_equal.
    apply Qred_complete. unfold Qeq. simpl. lia.
Qed.

Lemma rating_group text g :
  search true _RATING_RE text = Some g ->
  lang true (Cat (Cls zero_to_five) (Opt (Cat (Chr ".") (Cls isdecimal)))) g.
Proof.
  intros Hs. apply search_some in Hs as (_ & rest & _ & Hm & _).
  apply match_here_group_first in Hm as (_ & _ & _ & Hg & _); [exact Hg|simpl; tauto].
Qed.

Lemma tenths_range (tenths : Z) :
  (0 <= tenths <= 59)%Z ->
  (0 <= Qred (Qmake tenths 10))%Q /\ (Qred (Qmake tenths 10) <= 59 # 10)%Q.
Proof.
  intros H. rewrite !Qred_correct. unfold Qle. simpl. lia.
Qed.

(** The range that does hold: a parsed rating lies between 0 and 5.9. *)
Lemma parse_rating_score_range text q :
  parse_rating_score text = Some q -> (0 <= q)%Q /\ (q <= 59 # 10)%Q.
Proof.
  unfold parse_rating_score.
  destruct (negb (truthy text)); [discriminate|].
  destruct (search true _RATING_RE text) as [g|] eqn:Hs; [|discriminate].
  destruct (rating_group_tenths g (rating_group _ _ Hs)) as (tenths & Ht & ->).
  intros H; injection H as <-. now apply tenths_range.
Qed.

End Ratings.

(** C8.  The pattern lets any digit follow "5.": the text below parses to 5.9,
    which is above 5. *)
Theorem parse_rating_score_above_five {py : Py.Interpreter} :
  UtilsText.parse_rating_score "5.9 out of 5 stars" = Some (59 # 10)%Q /\
  Qle_bool (59 # 10) 5 = false.
Proof. split; reflexivity. Qed.

(** ** Identifier resolution *)

(** C2.  An [ASIN] parameter that opens the query string is not found: the
    query that [urlparse] returns does not keep the question mark that the
    pattern asks for.  The same parameter in second place is found. *)
Theorem extract_asin_misses_first_parameter {py : Py.Interpreter} :
  ReviewsParser._extract_asin
    "https://www.amazon.com/review/create-review?ASIN=B08N5WRWNW" = Return None /\
  ReviewsParser._extract_asin
    "https://www.amazon.com/review/create-review?ie=UTF8&ASIN=B08N5WRWNW"
  = Return (Some (lit "B08N5WRWNW")).
Proof. split; reflexivity. Qed.

(** ** Review blocks *)

(** C3.  A block whose rating parses to 0.0 and whose body is empty is
    dropped, as if it had no rating. *)
Theorem parse_single_review_drops_zero_rating {py : Py.Interpreter} :
  UtilsText.parse_rating_score "0.0 out of 5 stars" = Some 0%Q /\
  ReviewsParser._parse_single_review (world := Scripted.site)
    (Scripted.review_block "0.0 out of 5 stars" "" []) "B08N5WRWNW" 1
  = Return None.
Proof. split; reflexivity. Qed.
Section ReviewBlocks.

Import ReviewsParser.

Context {py : Py.Interpreter} {Tag : Type} {world : External Tag}.

(** What a record that [_parse_single_review] returns is made of. *)
Lemma parse_single_review_fields block asin pos r :
  _parse_single_review block asin pos = Return (Some r) ->
  productAsin r = asin /\ position r = pos /\
  reviewImages r = review_images_of (select block "img[data-hook='review-image-tile']").
Proof.
  unfold _parse_single_review, bind; intros H.
  match type of H with
  | context [match ?X with Return _ => _ | Raise _ => _ end] => destruct X
  end; [|discriminate].
  match type of H with
  | context [if ?c then _ else _] => destruct c
  end; [discriminate|].
  injection H as <-. auto.
Qed.


Lemma review_images_of_references tiles :
  review_images_of tiles = flat_map (fun img => present (image_reference img)) tiles.
Proof.
  induction tiles as [|img tiles IH]; [reflexivity|].
  cbn [review_images_of flat_map]; rewrite IH.
  unfold image_reference, or_str.
  destruct (get img "src") as [[|c src]|];
    destruct (get img "data-src") as [[|d data_src]|]; reflexivity.
Qed.

End ReviewBlocks.

(** C9, as amended.  The image list of a returned record holds, in document
    order, one entry per image tile that contributes one: the tile's [src]
    when it has a non-empty [src]; otherwise its [data-src] when it has a
    non-empty [data-src]; tiles with neither contribute nothing. *)
Theorem review_images_prefer_src {py : Py.Interpreter} {Tag : Type}
    {world : ReviewsParser.External Tag}
    (block : Tag) (asin : str) (pos : Z) (r : ReviewsParser.Review) :
  ReviewsParser._parse_single_review block asin pos = Return (Some r) ->
  ReviewsParser.reviewImages r =
  flat_map (fun img => present (image_reference img))
           (ReviewsParser.select block "img[data-hook='review-image-tile']").
Proof.
  intros H.
  destruct (parse_single_review_fields _ _ _ _ H) as (_ & _ & ->).
  apply review_images_of_references.
Qed.

(** C9 on a block with four tiles: both attributes, only [data-src], neither,
    only [src]. *)
Lemma review_images_prefer_src_witness :
  exists r,
    ReviewsParser._parse_single_review (py := Scripted.interpreter)
      (world := Scripted.site)
      Scripted.illustrated_block "B08N5WRWNW" 4 = Return (Some r) /\
    ReviewsParser.reviewImages r = [lit "a.jpg"; lit "b-lazy.jpg"; lit "d.jpg"].
Proof.
  eexists; split; [vm_compute; reflexivity|].
  exact (review_images_prefer_src (py := Scripted.interpreter) (world := Scripted.site)
           Scripted.illustrated_block "B08N5WRWNW" 4 _ eq_refl).
Defined.

(** C9 as stated fails: a tile with an empty [src] and a [data-src] has both
    attributes, and its entry is the [data-src], not the [src]. *)
Lemma review_images_empty_src_falls_back :
  option_map ReviewsParser.reviewImages
    (Scripted.returned
       (ReviewsParser._parse_single_review (py := Scripted.interpreter)
      (world := Scripted.site)
          (Scripted.review_block "4.0 out of 5 stars" "Fine."
             [Scripted.image [(lit "src", lit ""); (lit "data-src", lit "lazy.jpg")]])
          "B08N5WRWNW" 1))
  = Some [lit "lazy.jpg"].
Proof. reflexivity. Qed.

(** ** The page fetcher *)

Section Fetcher.

Import ReviewsParser.

Context {Tag : Type} {world : External Tag}.
Variable self : AmazonReviewsScraper.

Lemma gets_app t u : gets (t ++ u) = gets t + gets u.
Proof. unfold gets. now rewrite filter_app, length_app. Qed.

Lemma gets_failed_attempts url first k : gets (failed_attempts self url first k) = k.
Proof.
  revert first; induction k as [|k IH]; intros first; [reflexivity|].
  unfold failed_attempts in *; simpl.
  change (gets (Get url :: ?x)) with (S (gets x)).
  unfold gets in *; simpl. now rewrite IH.
Qed.

Lemma failed_attempts_S url first k :
  failed_attempts self url first (S k) =
  [Get url; Sleep (backoff_delay self first)] ++ failed_attempts self url (S first) k.
Proof. reflexivity. Qed.

(** The wait after a failed attempt happens when its delay is accepted, and
    raises otherwise, leaving the trace as it is. *)
Lemma backoff_outcome attempt t :
  (backoff_accepted self attempt /\
   backoff self attempt t = (Return tt, t ++ [Sleep (backoff_delay self attempt)])) \/
  (~ backoff_accepted self attempt /\ exists e, backoff self attempt t = (Raise e, t)).
Proof.
  unfold backoff, backoff_accepted, backoff_delay, float_times_int, time_sleep.
  destruct (PrimFloat.is_infinity (Py.nearest_float (Z.of_nat attempt))).
  - right. split; [intros [H _]; discriminate|eauto].
  - destruct (sleep_refusal _) as [e|].
    + right. split; [intros [_ H]; discriminate|eauto].
    + left. auto.
Qed.

(** What a fetch does, whatever [time.sleep] makes of the delays.  Some
    number [j] of attempts fail and are followed by their wait.  Then either
    attempt [j+1] is answered with status 200, and its body is returned; or
    the attempts are used up, and [None] is returned; or attempt [j+1] fails
    too and its delay is refused, and the exception of the wait is raised. *)
Lemma fetch_attempts_outcome url k :
  forall first t,
  let answer j := body_if_200 (session_get (gets t + j) url (timeout self) (proxies self)) in
  exists j,
    j <= k /\
    (forall i, i < j -> answer i = None /\ backoff_accepted self (first + i)) /\
    match fetch_attempts self url (seq first k) t with
    | (Return (Some body), t') =>
        j < k /\ answer j = Some body /\
        t' = t ++ failed_attempts self url first j ++ [Get url]
    | (Return None, t') =>
        j = k /\ t' = t ++ failed_attempts self url first k
    | (Raise e, t') =>
        j < k /\ answer j = None /\ ~ backoff_accepted self (first + j) /\
        t' = t ++ failed_attempts self url first j ++ [Get url]
    end.
Proof.
  induction k as [|k IH]; intros first t answer.
  - exists 0. simpl. split; [lia|]. split; [intros; lia|].
    split; [reflexivity|]. now rewrite app_nil_r.
  - cbn [seq fetch_attempts].
    assert (Hfail : answer 0 = None ->
      exists j,
        j <= S k /\
        (forall i, i < j -> answer i = None /\ backoff_accepted self (first + i)) /\
        match (match backoff self first (t ++ [Get url]) with
               | (Return _, t0) => fetch_attempts self url (seq (S first) k) t0
               | (Raise e, t0) => (Raise e, t0)
               end) with
        | (Return (Some body), t') =>
            j < S k /\ answer j = Some body /\
            t' = t ++ failed_attempts self url first j ++ [Get url]
        | (Return None, t') =>
            j = S k /\ t' = t ++ failed_attempts self url first (S k)
        | (Raise e, t') =>
            j < S k /\ answer j = None /\ ~ backoff_accepted self (first + j) /\
            t' = t ++ failed_attempts self url first j ++ [Get url]
        end).
    { intros H0.
      destruct (backoff_outcome first (t ++ [Get url])) as [[Hacc ->]|[Hacc [e ->]]].
      - set (t1 := (t ++ [Get url]) ++ [Sleep (backoff_delay self first)]).
        assert (Hg : forall j, gets t1 + j = gets t + S j).
        { intros j; unfold t1; rewrite !gets_app.
          change (gets [Get url]) with 1. change (gets [Sleep _]) with 0. lia. }
        destruct (IH (S first) t1) as (j & Hj & Hbefore & Hout).
        exists (S j). split; [lia|]. split.
        + intros [|i] Hi.
          * rewrite Nat.add_0_r. auto.
          * destruct (Hbefore i ltac:(lia)) as [Hi1 Hi2].
            rewrite Hg in Hi1. replace (first + S i) with (S first + i) by lia. auto.
        + rewrite Hg in Hout. replace (first + S j) with (S first + j) by lia.
          destruct (fetch_attempts self url (seq (S first) k) t1) as [[[body|]|e] t'].
          * destruct Hout as (Hlt & Hat & ->). split; [lia|]. split; [assumption|].
            unfold t1. rewrite failed_attempts_S, <- !app_assoc. reflexivity.
          * destruct Hout as (-> & ->). split; [reflexivity|].
            unfold t1. rewrite failed_attempts_S, <- !app_assoc. reflexivity.
          * destruct Hout as (Hlt & Hat & Hno & ->). split; [lia|].
            split; [assumption|]. split; [assumption|].
            unfold t1. rewrite failed_attempts_S, <- !app_assoc. reflexivity.
      - exists 0. split; [lia|]. split; [intros; lia|].
        rewrite Nat.add_0_r. split; [lia|]. split; [assumption|].
        split; [assumption|reflexivity]. }
    unfold answer in Hfail at 1. rewrite Nat.add_0_r in Hfail.
    destruct (session_get (gets t) url (timeout self) (proxies self))
      as [status_code text|message] eqn:Hresp; simpl in Hfail.
    + destruct (status_code =? 200)%Z eqn:H200.
      * exists 0; split; [lia|]. split; [intros; lia|]. split; [lia|]. split.
        -- unfold answer. rewrite Nat.add_0_r, Hresp; simpl. now rewrite H200.
        -- reflexivity.
      * now apply Hfail.
    + now apply Hfail.
Qed.

(** Every event that a fetch adds is a request of its own URL or a wait. *)
Lemma failed_attempts_only url first k u :
  In (Get u) (failed_attempts self url first k) -> u = url.
Proof.
  unfold failed_attempts; rewrite in_flat_map.
  intros (a & _ & [H|[H|[]]]); congruence.
Qed.

(** The events that a fetch adds: some failed attempts, and then a last
    request unless the attempts were used up. *)
Lemma fetch_events url t res t' :
  _fetch_html_with_retries self url t = (res, t') ->
  exists j last,
    t' = t ++ failed_attempts self url 1 j ++ last /\
    (last = [] \/ last = [Get url]) /\
    gets (failed_attempts self url 1 j ++ last) <= retry_count self.
Proof.
  unfold _fetch_html_with_retries; intros H.
  destruct (fetch_attempts_outcome url (retry_count self) 1 t) as (j & Hj & _ & Hout).
  rewrite H in Hout.
  destruct res as [[body|]|e].
  - destruct Hout as (Hlt & _ & ->). exists j, [Get url].
    rewrite gets_app, gets_failed_attempts. change (gets [Get url]) with 1.
    split; [reflexivity|]. split; [auto|lia].
  - destruct Hout as (-> & ->). exists (retry_count self), [].
    rewrite !app_nil_r, gets_failed_attempts. auto.
  - destruct Hout as (Hlt & _ & _ & ->). exists j, [Get url].
    rewrite gets_app, gets_failed_attempts. change (gets [Get url]) with 1.
    split; [reflexivity|]. split; [auto|lia].
Qed.

Lemma fetch_requests_only url t res t' :
  _fetch_html_with_retries self url t = (res, t') ->
  exists added, t' = t ++ added /\ forall u, In (Get u) added -> u = url.
Proof.
  intros H. destruct (fetch_events _ _ _ _ H) as (j & last & -> & Hlast & _).
  eexists; split; [reflexivity|].
  intros u Hu. apply in_app_or in Hu as [Hu|Hu].
  - eapply failed_attempts_only; eauto.
  - destruct Hlast as [-> | ->]; [contradiction|].
    destruct Hu as [Hu|[]]. congruence.
Qed.

End Fetcher.



(** ** Identifiers have ten characters *)

Section Identifier.

Import Re ReviewsParser.

Context {py : Py.Interpreter}.

Lemma match_here_group_last ic r n p s x :
  group_free r ->
  match_here ic (Cat r (Grp (Rep n p))) s = Some x -> List.length x = n.
Proof.
  unfold match_here; simpl; intros Hg H.
  destruct (m_sound ic r Hg _ _ _ H) as (u & v & -> & _ & Hk).
  destruct (rep_m_sound _ _ _ _ _ Hk) as (u' & v' & -> & Hn & _ & Hx).
  injection Hx as <-. now rewrite firstn_consumed.
Qed.

Lemma group_free_text t : group_free (text t).
Proof. induction t; simpl; auto. Qed.

Lemma search_after_ten prefix s x :
  search false (after prefix) s = Some x -> List.length x = 10.
Proof.
  intros H. apply search_some in H as (_ & rest & _ & H & _).
  apply match_here_group_last in H; [assumption|apply group_free_text].
Qed.

Lemma search_parameter_ten s x :
  search false asin_parameter s = Some x -> List.length x = 10.
Proof.
  intros H. apply search_some in H as (_ & rest & _ & H & _).
  change (match_here false asin_parameter rest)
    with (match_here false
            (Cat (Cat (Cls (fun c => Py.has_char c "?&")) (text "ASIN="))
                 (Grp (Rep 10 asin_class))) rest) in H.
  apply match_here_group_last in H; [assumption|].
  split; [exact I|apply group_free_text].
Qed.

Lemma extract_asin_ten url asin :
  _extract_asin url = Return (Some asin) -> List.length asin = 10.
Proof.
  unfold _extract_asin, bind.
  destruct (Urllib.urlparse url) as [parsed|e]; [|discriminate].
  destruct (search false (after "/dp/") _) eqn:H1;
    [intros H; injection H as ->; eapply search_after_ten; eauto|].
  destruct (search false (after "/gp/product/") _) eqn:H2;
    [intros H; injection H as ->; eapply search_after_ten; eauto|].
  destruct (search false (after "/product-reviews/") _) eqn:H3;
    [intros H; injection H as ->; eapply search_after_ten; eauto|].
  destruct (search false asin_parameter _) eqn:H4;
    [intros H; injection H as ->; eapply search_parameter_ten; eauto|].
  intros H; injection H as H. unfold fallback_segment in H.
  apply find_some in H as [_ H].
  apply andb_true_iff in H as [H _]. now apply Nat.eqb_eq.
Qed.

End Identifier.

(** ** Pagination *)

Section Pagination.

Import ReviewsParser.

Context {py : Py.Interpreter} {Tag : Type} {world : External Tag}.
Variable self : AmazonReviewsScraper.

Lemma map_seq_from {A : Type} (f : nat -> A) a n :
  map f (seq a n) = map (fun i => f (a + i)) (seq 0 n).
Proof.
  revert f a; induction n as [|n IH]; intros f a; [reflexivity|].
  simpl. rewrite Nat.add_0_r. f_equal.
  rewrite (IH f (S a)), (IH (fun i => f (a + i)) 1). apply map_ext; intros i.
  f_equal; lia.
Qed.

Lemma parse_blocks_positions blocks asin p :
  map position (parse_blocks blocks asin p) =
  map (fun i => p + Z.of_nat i)%Z (seq 0 (List.length (parse_blocks blocks asin p))).
Proof.
  revert p; induction blocks as [|block more IH]; intros p; [reflexivity|].
  simpl.
  destruct (_parse_single_review block asin p) as [[r|]|e] eqn:Hr; try apply IH.
  destruct (parse_single_review_fields _ _ _ _ Hr) as (_ & Hp & _).
  simpl. rewrite Hp, Z.add_0_r. f_equal.
  rewrite IH, (map_seq_from _ 1). apply map_ext; intros i.
  lia.
Qed.

Lemma numbered_app collected soup asin :
  numbered collected ->
  numbered (collected ++ _parse_reviews_from_soup soup asin
                           (Z.of_nat (List.length collected) + 1)).
Proof.
  unfold numbered, _parse_reviews_from_soup; intros H.
  rewrite map_app, length_app, seq_app, map_app, H. f_equal.
  rewrite parse_blocks_positions, (map_seq_from Z.of_nat).
  apply map_ext; intros i. lia.
Qed.

Lemma firstn_seq_min n a len : firstn n (seq a len) = seq a (Nat.min n len).
Proof.
  revert a len; induction n as [|n IH]; intros a [|len]; simpl; try reflexivity.
  now rewrite IH.
Qed.

Lemma numbered_firstn n records : numbered records -> numbered (firstn n records).
Proof.
  unfold numbered; intros H.
  rewrite <- firstn_map, H, firstn_map, firstn_seq_min, length_firstn.
  reflexivity.
Qed.

(** The pause between two pages happens when [time.sleep] accepts the delay,
    and raises otherwise, leaving the trace as it is. *)
Lemma pause_outcome t :
  (sleep_refusal (sleep_between_requests self) = None /\
   time_sleep (sleep_between_requests self) t
   = (Return tt, t ++ [Sleep (sleep_between_requests self)])) \/
  (exists e, sleep_refusal (sleep_between_requests self) = Some e /\
             time_sleep (sleep_between_requests self) t = (Raise e, t)).
Proof.
  unfold time_sleep. destruct (sleep_refusal _) as [e|]; eauto.
Qed.

Lemma pagination_done fuel asin max collected page t :
  max <= List.length collected ->
  pagination self fuel asin max collected page t = Some (Return collected, t).
Proof.
  intros H. apply Nat.ltb_ge in H.
  destruct fuel; simpl; now rewrite H.
Qed.

(** One turn of the loop. *)
Lemma pagination_step fuel asin max collected page t :
  List.length collected < max ->
  pagination self (S fuel) asin max collected page t =
  match _fetch_html_with_retries self (_build_review_page_url asin page) t with
  | (Raise e, t1) => Some (Raise e, t1)
  | (Return html, t1) =>
      match html with
      | Some (c :: html') =>
          match _parse_reviews_from_soup (BeautifulSoup (c :: html')) asin
                  (Z.of_nat (List.length collected) + 1) with
          | [] => Some (Return collected, t1)
          | r :: reviews =>
              if max <=? List.length (collected ++ r :: reviews)
              then Some (Return (collected ++ r :: reviews), t1)
              else
                match time_sleep (sleep_between_requests self) t1 with
                | (Return _, t2) =>
                    pagination self fuel asin max (collected ++ r :: reviews)
                      (page + 1) t2
                | (Raise e, t2) => Some (Raise e, t2)
                end
          end
      | _ => Some (Return collected, t1)
      end
  end.
Proof.
  intros H. apply Nat.ltb_lt in H.
  cbn [pagination]. rewrite H.
  destruct (_fetch_html_with_retries self _ t) as [[[[|c html]|]|e] t1]; try reflexivity.
  destruct (_parse_reviews_from_soup _ asin _); reflexivity.
Qed.

(** The cases of one turn, for the proofs about the whole loop: the turn ends
    the loop with the records collected so far, or raises, or goes on after
    the pause with the records of one more page. *)
Lemma pagination_turn fuel asin max collected page t :
  List.length collected < max ->
  exists res t1,
    _fetch_html_with_retries self (_build_review_page_url asin page) t = (res, t1) /\
    let reviews body :=
      _parse_reviews_from_soup (BeautifulSoup body) asin
        (Z.of_nat (List.length collected) + 1) in
    ((exists e, res = Raise e /\
        pagination self (S fuel) asin max collected page t = Some (Raise e, t1)) \/
     (exists html, res = Return html /\
        (html = None \/ html = Some [] \/ exists body, html = Some body /\ reviews body = []) /\
        pagination self (S fuel) asin max collected page t = Some (Return collected, t1)) \/
     (exists body, res = Return (Some body) /\ body <> [] /\ reviews body <> [] /\
        max <= List.length (collected ++ reviews body) /\
        pagination self (S fuel) asin max collected page t
        = Some (Return (collected ++ reviews body), t1)) \/
     (exists body e, res = Return (Some body) /\ body <> [] /\ reviews body <> [] /\
        List.length (collected ++ reviews body) < max /\
        sleep_refusal (sleep_between_requests self) = Some e /\
        pagination self (S fuel) asin max collected page t = Some (Raise e, t1)) \/
     (exists body, res = Return (Some body) /\ body <> [] /\ reviews body <> [] /\
        List.length (collected ++ reviews body) < max /\
        sleep_refusal (sleep_between_requests self) = None /\
        pagination self (S fuel) asin max collected page t
        = pagination self fuel asin max (collected ++ reviews body) (page + 1)
            (t1 ++ [Sleep (sleep_between_requests self)]))).
Proof.
  intros Hlt. rewrite pagination_step by assumption.
  destruct (_fetch_html_with_retries self _ t) as [res t1].
  exists res, t1. split; [reflexivity|]. intros reviews.
  destruct res as [[[|c html]|]|e].
  - right; left. exists (Some []). auto.
  - fold (reviews (c :: html)).
    destruct (reviews (c :: html)) as [|r more] eqn:Hr.
    + right; left. exists (Some (c :: html)). split; [reflexivity|]. split; [|reflexivity].
      right; right. eauto.
    + destruct (max <=? List.length (collected ++ r :: more)) eqn:Hfull.
      * right; right; left. exists (c :: html). rewrite Hr.
        apply Nat.leb_le in Hfull. repeat split; try discriminate; assumption.
      * apply Nat.leb_gt in Hfull.
        destruct (pause_outcome t1) as [[Hok ->]|(e & Hno & ->)].
        -- right; right; right; right. exists (c :: html). rewrite Hr.
           repeat split; try discriminate; assumption.
        -- right; right; right; left. exists (c :: html), e. rewrite Hr.
           repeat split; try discriminate; assumption.
  - right; left. exists None. auto.
  - left. eauto.
Qed.

Lemma pagination_numbered fuel asin max :
  forall collected page t out t',
  pagination self fuel asin max collected page t = Some (Return out, t') ->
  numbered collected -> numbered out.
Proof.
  induction fuel as [|fuel IH]; intros collected page t out t' H Hn.
  - simpl in H. destruct (List.length collected <? max); [discriminate|].
    now injection H as <- _.
  - destruct (Nat.lt_ge_cases (List.length collected) max) as [Hlt|Hge].
    + destruct (pagination_turn fuel asin max collected page t Hlt)
        as (res & t1 & _ & Hturn). cbv zeta in Hturn.
      destruct Hturn as [(e & _ & Hp)|[(html & _ & _ & Hp)|[(body & _ & _ & _ & _ & Hp)
                        |[(body & e & _ & _ & _ & _ & _ & Hp)|(body & _ & _ & _ & _ & _ & Hp)]]]];
        rewrite Hp in H; try discriminate.
      * now injection H as <- _.
      * injection H as <- _. now apply numbered_app.
      * eapply IH; [exact H|]. now apply numbered_app.
    + rewrite pagination_done in H by assumption. now injection H as <- _.
Qed.

(** The loop ends: each turn that goes on has added a record. *)
Lemma pagination_total fuel asin max :
  forall collected page t,
  max - List.length collected <= fuel ->
  exists out t', pagination self fuel asin max collected page t = Some (out, t').
Proof.
  induction fuel as [|fuel IH]; intros collected page t Hfuel.
  - rewrite pagination_done by lia. eauto.
  - destruct (Nat.lt_ge_cases (List.length collected) max) as [Hlt|Hge];
      [|rewrite pagination_done by assumption; eauto].
    destruct (pagination_turn fuel asin max collected page t Hlt)
      as (res & t1 & _ & Hturn). cbv zeta in Hturn.
    destruct Hturn as [(e & _ & Hp)|[(html & _ & _ & Hp)|[(body & _ & _ & _ & _ & Hp)
                      |[(body & e & _ & _ & _ & _ & _ & Hp)|(body & _ & _ & Hne & Hl & _ & Hp)]]]];
      rewrite Hp; eauto.
    apply IH. rewrite length_app in *.
    destruct (_parse_reviews_from_soup _ asin _); [contradiction|]. simpl in *. lia.
Qed.



Lemma scrape_resolved url asin max t :
  _extract_asin url = Return (Some asin) ->
  scrape_product_reviews self url max t =
  match pagination self max asin max [] 1 t with
  | Some (Return collected, t') => Some (Return (firstn max collected), t')
  | Some (Raise e, t') => Some (Raise e, t')
  | None => None
  end.
Proof.
  intros H. unfold scrape_product_reviews. rewrite H.
  apply extract_asin_ten in H. destruct asin; [discriminate|reflexivity].
Qed.

(** The scrape always ends, with records or with an exception; its records
    are those that the loop collected, cut to [max]. *)
Lemma scrape_truncates url asin max t :
  _extract_asin url = Return (Some asin) ->
  exists outcome t',
    pagination self max asin max [] 1 t = Some (outcome, t') /\
    match outcome with
    | Return collected =>
        scrape_product_reviews self url max t = Some (Return (firstn max collected), t') /\
        List.length (firstn max collected) = Nat.min max (List.length collected)
    | Raise e => scrape_product_reviews self url max t = Some (Raise e, t')
    end.
Proof.
  intros H.
  destruct (pagination_total max asin max [] 1 t) as (outcome & t' & Hp);
    [simpl; lia|].
  exists outcome, t'. rewrite (scrape_resolved _ _ _ _ H), Hp.
  split; [reflexivity|]. destruct outcome; [|reflexivity].
  split; [reflexivity|apply length_firstn].
Qed.

Lemma scrape_product_reviews_total url max t :
  exists outcome t', scrape_product_reviews self url max t = Some (outcome, t').
Proof.
  destruct (_extract_asin url) as [[asin|]|e] eqn:Hasin.
  - destruct (scrape_truncates url asin max t Hasin) as ([c|e] & t' & _ & H).
    + destruct H as [H _]. eauto.
    + eauto.
  - unfold scrape_product_reviews; rewrite Hasin; eauto.
  - unfold scrape_product_reviews; rewrite Hasin; eauto.
Qed.

Lemma scrape_returned url max t records t' :
  scrape_product_reviews self url max t = Some (Return records, t') ->
  exists asin collected,
    _extract_asin url = Return (Some asin) /\
    pagination self max asin max [] 1 t = Some (Return collected, t') /\
    records = firstn max collected.
Proof.
  unfold scrape_product_reviews.
  destruct (_extract_asin url) as [[[|c asin]|]|e]; try discriminate.
  destruct (pagination self max (c :: asin) max [] 1 t) as [[[collected|e] t1]|] eqn:Hp;
    try discriminate.
  intros H; injection H as <- <-. exists (c :: asin), collected.
  repeat split. exact Hp.
Qed.

Lemma page_urls_differ asin p q :
  _build_review_page_url asin p = _build_review_page_url asin q ->
  str_of_int p = str_of_int q.
Proof.
  unfold _build_review_page_url; intros H.
  apply app_inv_head in H. apply app_inv_head in H. apply app_inv_head in H.
  apply app_inv_head in H. now apply app_inv_tail in H.
Qed.

End Pagination.

(** ** Records in order of appearance *)

Section Appearance.

Import Py ReviewsParser.

Context {py : Interpreter} {Tag : Type} {world : External Tag}.
Variable self : AmazonReviewsScraper.

(** Whether a block yields a record does not depend on the position that the
    record is to carry. *)
Lemma parse_single_review_position block asin p q :
  match _parse_single_review block asin p with
  | Return (Some r) => exists r', _parse_single_review block asin q = Return (Some r')
  | Return None => _parse_single_review block asin q = Return None
  | Raise e => _parse_single_review block asin q = Raise e
  end.
Proof.
  unfold _parse_single_review, bind.
  set (joined := match select_one block "a[data-hook='review-title']" with
                 | Some l => _
                 | None => _
                 end).
  destruct joined as [review_url|e]; [|reflexivity].
  match goal with
  | |- context [if ?c then _ else _] => destruct c
  end; [reflexivity|eauto].
Qed.

Lemma yields_record block asin p r :
  _parse_single_review block asin p = Return (Some r) -> yields asin block = true.
Proof.
  intros H. unfold yields.
  pose proof (parse_single_review_position block asin p 0) as Hq.
  rewrite H in Hq. destruct Hq as [r' ->]. reflexivity.
Qed.

Lemma yields_nothing block asin p :
  _parse_single_review block asin p <> Return None ->
  (forall e, _parse_single_review block asin p <> Raise e) ->
  yields asin block = true.
Proof.
  intros Hnone Hraise.
  destruct (_parse_single_review block asin p) as [[r|]|e] eqn:H.
  - eapply yields_record; eauto.
  - contradiction.
  - now destruct (Hraise e).
Qed.

Lemma not_yields block asin p :
  (_parse_single_review block asin p = Return None \/
   exists e, _parse_single_review block asin p = Raise e) ->
  yields asin block = false.
Proof.
  intros H. unfold yields.
  pose proof (parse_single_review_position block asin p 0) as Hq.
  destruct H as [H|[e H]]; rewrite H in Hq; now rewrite Hq.
Qed.

(** The records of a run of blocks are those of the blocks that yield one,
    in the order of the blocks. *)
Lemma parse_blocks_transcribes blocks asin p :
  transcribes asin (parse_blocks blocks asin p) (filter (yields asin) blocks).
Proof.
  unfold transcribes.
  revert p; induction blocks as [|block more IH]; intros p; [constructor|].
  cbn [parse_blocks filter].
  destruct (_parse_single_review block asin p) as [[r|]|e] eqn:Hr.
  - rewrite (yields_record _ _ _ _ Hr). constructor; [|apply IH].
    destruct (parse_single_review_fields _ _ _ _ Hr) as (_ & -> & _). exact Hr.
  - rewrite (not_yields block asin p) by auto. apply IH.
  - rewrite (not_yields block asin p) by eauto. apply IH.
Qed.

Lemma parse_blocks_app blocks blocks' asin p :
  parse_blocks (blocks ++ blocks') asin p
  = parse_blocks blocks asin p
    ++ parse_blocks blocks' asin
         (p + Z.of_nat (List.length (parse_blocks blocks asin p))).
Proof.
  revert p; induction blocks as [|block more IH]; intros p.
  - simpl. now rewrite Z.add_0_r.
  - cbn [app parse_blocks].
    destruct (_parse_single_review block asin p) as [[r|]|e]; try apply IH.
    cbn [app List.length]. rewrite IH. do 3 f_equal. lia.
Qed.

Lemma transcribes_firstn n asin records blocks :
  transcribes asin records blocks ->
  transcribes asin (firstn n records) (firstn n blocks).
Proof.
  unfold transcribes. intros H. revert n.
  induction H as [|r b records blocks Hr H IH]; intros [|n]; simpl; constructor; auto.
Qed.

Lemma served_app n a b :
  served self n (a ++ b) = served self n a ++ served self (n + gets a) b.
Proof.
  revert n; induction a as [|[url|seconds] a IH]; intros n.
  - simpl. now rewrite Nat.add_0_r.
  - cbn [app served]. rewrite IH, <- app_assoc. do 3 f_equal.
    change (gets (Get url :: a)) with (S (gets a)). lia.
  - cbn [app served]. rewrite IH. reflexivity.
Qed.

Lemma served_failed_attempts url first j n :
  (forall i, i < j ->
     body_if_200 (session_get (n + i) url (timeout self) (proxies self)) = None) ->
  served self n (failed_attempts self url first j) = [].
Proof.
  revert first n; induction j as [|j IH]; intros first n H; [reflexivity|].
  rewrite failed_attempts_S. cbn [app served].
  pose proof (H 0 ltac:(lia)) as H0. rewrite Nat.add_0_r in H0. rewrite H0.
  apply IH. intros i Hi. replace (S n + i) with (n + S i) by lia. apply H. lia.
Qed.

(** A fetch that returns was served the body it returns, and no other. *)
Lemma fetch_served url t html t' :
  _fetch_html_with_retries self url t = (Return html, t') ->
  exists added, t' = t ++ added /\ served self (gets t) added = present html.
Proof.
  unfold _fetch_html_with_retries. intros H.
  destruct (fetch_attempts_outcome self url (retry_count self) 1 t)
    as (j & Hj & Hbefore & Hout).
  rewrite H in Hout.
  assert (Hnone : served self (gets t) (failed_attempts self url 1 j) = []).
  { apply served_failed_attempts. intros i Hi. now apply Hbefore. }
  destruct html as [body|].
  - destruct Hout as (_ & Hat & ->). eexists. split; [reflexivity|].
    rewrite served_app, Hnone, gets_failed_attempts. cbn [app served].
    rewrite Hat. reflexivity.
  - destruct Hout as (-> & ->). eexists. split; [reflexivity|]. exact Hnone.
Qed.

(** What the loop has collected when it returns: the records of the blocks of
    the pages it fetched, taken as one run of blocks. *)
Lemma pagination_transcript fuel asin max :
  forall collected page t out t',
  pagination self fuel asin max collected page t = Some (Return out, t') ->
  exists added,
    t' = t ++ added /\
    out = collected
          ++ parse_blocks (review_blocks (pages_fetched self t added)) asin
               (Z.of_nat (List.length collected) + 1).
Proof.
  assert (Hstop : forall collected t, exists added,
            t = t ++ added /\
            collected = collected
              ++ parse_blocks (review_blocks (pages_fetched self t added)) asin
                   (Z.of_nat (List.length collected) + 1)).
  { intros collected t. exists []. now rewrite !app_nil_r. }
  induction fuel as [|fuel IH]; intros collected page t out t' H.
  - simpl in H. destruct (List.length collected <? max); [discriminate|].
    injection H as <- <-. apply Hstop.
  - destruct (Nat.lt_ge_cases (List.length collected) max) as [Hlt|Hge];
      [|rewrite pagination_done in H by assumption; injection H as <- <-; apply Hstop].
    destruct (pagination_turn self fuel asin max collected page t Hlt)
      as (res & t1 & Hf & Hturn). cbv zeta in Hturn.
    assert (Hpage : forall body, body <> [] ->
              served self (gets t) (skipn (List.length t) t1) = [body] ->
              parse_blocks
                (review_blocks (pages_fetched self t (skipn (List.length t) t1))) asin
                (Z.of_nat (List.length collected) + 1)
              = _parse_reviews_from_soup (BeautifulSoup body) asin
                  (Z.of_nat (List.length collected) + 1)).
    { intros body Hne Hs. unfold pages_fetched. rewrite Hs.
      destruct body; [contradiction|].
      cbn [filter truthy map]. unfold review_blocks. cbn [flat_map].
      now rewrite app_nil_r. }
    destruct Hturn as [(e & _ & Hp)|[(html & -> & Hhtml & Hp)|[(body & -> & Hne & _ & _ & Hp)
                      |[(body & e & _ & _ & _ & _ & _ & Hp)
                       |(body & -> & Hne & _ & _ & _ & Hp)]]]];
      rewrite Hp in H; try discriminate.
    + injection H as <- <-.
      destruct (fetch_served _ _ _ _ Hf) as (a1 & -> & Hs).
      exists a1. split; [reflexivity|].
      unfold pages_fetched. rewrite Hs.
      destruct Hhtml as [-> | [-> | (body & -> & Hr)]].
      * now rewrite app_nil_r.
      * now rewrite app_nil_r.
      * destruct body as [|c body]; [now rewrite app_nil_r|].
        cbn [present filter truthy map]. unfold review_blocks. cbn [flat_map].
        rewrite app_nil_r. unfold _parse_reviews_from_soup in Hr. now rewrite Hr, app_nil_r.
    + injection H as <- <-.
      destruct (fetch_served _ _ _ _ Hf) as (a1 & -> & Hs).
      exists a1. split; [reflexivity|]. f_equal. symmetry.
      rewrite <- (Hpage body Hne); rewrite skipn_app, skipn_all, Nat.sub_diag;
        [reflexivity|exact Hs].
    + destruct (fetch_served _ _ _ _ Hf) as (a1 & -> & Hs).
      apply IH in H as (a2 & -> & ->).
      exists (a1 ++ Sleep (sleep_between_requests self) :: a2).
      split; [now rewrite <- !app_assoc|].
      rewrite <- app_assoc. f_equal.
      assert (Hall : pages_fetched self t (a1 ++ Sleep (sleep_between_requests self) :: a2)
                     = BeautifulSoup body
                       :: pages_fetched self
                            ((t ++ a1) ++ [Sleep (sleep_between_requests self)]) a2).
      { unfold pages_fetched. rewrite served_app, Hs. cbn [present app served].
        destruct body; [contradiction|]. cbn [filter truthy map].
        do 4 f_equal. rewrite !gets_app.
        change (gets [Sleep (sleep_between_requests self)]) with 0. lia. }
      rewrite Hall. change (review_blocks (BeautifulSoup body :: ?pages))
        with (select (BeautifulSoup body) "div[data-hook='review']" ++ review_blocks pages).
      rewrite parse_blocks_app. unfold _parse_reviews_from_soup.
      do 2 f_equal. rewrite length_app. lia.
Qed.

End Appearance.

Lemma numbered_nth records i r :
  numbered records -> nth_error records i = Some r ->
  ReviewsParser.position r = Z.of_nat (S i).
Proof.
  unfold numbered; intros Hn Hr.
  pose proof (map_nth_error ReviewsParser.position _ _ Hr) as H.
  rewrite Hn in H.
  assert (Hi : i < List.length records) by (apply nth_error_Some; congruence).
  rewrite (nth_error_nth' _ 0%Z) in H by (now rewrite length_map, length_seq).
  injection H as H.
  rewrite (map_nth Z.of_nat _ 0), seq_nth in H by assumption.
  now rewrite <- H.
Qed.

(** C6.  The position values of the records a scrape returns are 1, 2, 3, ...
    in the order of the records: the record at index [i] (from 0) has
    position [i + 1].  They start at 1, grow by one from each record to the
    next, across page boundaries too, and so are strictly increasing and
    pairwise distinct.  And the order of the records is the order of
    appearance: take the pages that the scrape fetched, in the order of the
    requests, and their review blocks in document order, as one run of
    blocks; the returned records are those of the first [max_reviews] blocks
    of that run that yield a record, one for one and in the same order, each
    being what its block yields at the record's own position. *)
Theorem positions_count_from_one {py : Py.Interpreter} {Tag : Type}
    {world : ReviewsParser.External Tag}
    (self : ReviewsParser.AmazonReviewsScraper) (url : str) (max_reviews : nat)
    (t t' : ReviewsParser.trace) (records : list ReviewsParser.Review) :
  ReviewsParser.scrape_product_reviews self url max_reviews t
    = Some (Return records, t') ->
  map ReviewsParser.position records = map Z.of_nat (seq 1 (List.length records)) /\
  (forall i r, nth_error records i = Some r ->
               ReviewsParser.position r = (Z.of_nat i + 1)%Z) /\
  (forall i j ri rj,
     nth_error records i = Some ri -> nth_error records j = Some rj ->
     i < j -> (ReviewsParser.position ri < ReviewsParser.position rj)%Z) /\
  exists asin,
    ReviewsParser._extract_asin url = Return (Some asin) /\
    transcribes asin records
      (firstn max_reviews
         (filter (yields asin)
            (review_blocks (pages_fetched self t (skipn (List.length t) t'))))).
Proof.
  intros H. apply scrape_returned in H as (asin & collected & Hasin & Hp & ->).
  assert (Hn : numbered (firstn max_reviews collected)).
  { apply numbered_firstn.
    eapply pagination_numbered; [exact Hp|reflexivity]. }
  split; [exact Hn|]. split; [|split].
  - intros i r Hr. rewrite (numbered_nth _ _ _ Hn Hr). lia.
  - intros i j ri rj Hi Hj Hlt.
    rewrite (numbered_nth _ _ _ Hn Hi), (numbered_nth _ _ _ Hn Hj). lia.
  - exists asin. split; [assumption|].
    apply pagination_transcript in Hp as (added & -> & ->).
    rewrite skipn_app, skipn_all, Nat.sub_diag. cbn [skipn app].
    apply transcribes_firstn, parse_blocks_transcribes.
Qed.

(** C6 on the two-page site, all records asked for: the eight records are
    those of the five blocks of page 1 and of the three blocks of page 2 that
    hold a review, in that order. *)
Lemma positions_count_from_one_witness :
  exists records t',
    ReviewsParser.scrape_product_reviews (py := Scripted.interpreter)
      (world := Scripted.site) Scripted.scraper Scripted.product 100 []
    = Some (Return records, t') /\
    map ReviewsParser.position records = [1; 2; 3; 4; 5; 6; 7; 8]%Z /\
    transcribes (py := Scripted.interpreter) (world := Scripted.site)
      "B08N5WRWNW" records
      [Scripted.five_stars "one"; Scripted.five_stars "two";
       Scripted.five_stars "three"; Scripted.five_stars "four";
       Scripted.five_stars "five"; Scripted.five_stars "six";
       Scripted.five_stars "seven"; Scripted.five_stars "eight"].
Proof.
  eexists; eexists; split; [vm_compute; reflexivity|].
  destruct (positions_count_from_one (py := Scripted.interpreter)
              (world := Scripted.site)
              Scripted.scraper Scripted.product 100 [] _ _ eq_refl)
    as (Hpos & _ & _ & asin & Hasin & Horder).
  split; [exact Hpos|].
  injection Hasin as <-. exact Horder.
Defined.

(** C1.  When page 1 yields 5 records and page 2, fetched after the pause,
    yields 3, a scrape for 6 returns the first 6 of the 8 collected records,
    numbered 1 to 6, and ends with the fetch of page 2: the only requests
    are for pages 1 and 2, none for page 3.  In general a scrape ends, and
    when it returns it returns the collected records cut to [max_reviews]. *)
Theorem scrape_two_pages_stops_at_six {py : Py.Interpreter} {Tag : Type}
    {world : ReviewsParser.External Tag}
    (self : ReviewsParser.AmazonReviewsScraper) (url asin : str)
    (t0 t1 t2 : ReviewsParser.trace) (h1 h2 : str)
    (p1 p2 : list ReviewsParser.Review) :
  ReviewsParser._extract_asin url = Return (Some asin) ->
  ReviewsParser._fetch_html_with_retries self
    (ReviewsParser._build_review_page_url asin 1) t0 = (Return (Some h1), t1) ->
  h1 <> [] ->
  ReviewsParser._parse_reviews_from_soup (ReviewsParser.BeautifulSoup h1) asin 1 = p1 ->
  List.length p1 = 5 ->
  ReviewsParser.sleep_refusal (ReviewsParser.sleep_between_requests self) = None ->
  ReviewsParser._fetch_html_with_retries self
    (ReviewsParser._build_review_page_url asin 2)
    (t1 ++ [ReviewsParser.Sleep (ReviewsParser.sleep_between_requests self)])
    = (Return (Some h2), t2) ->
  h2 <> [] ->
  ReviewsParser._parse_reviews_from_soup (ReviewsParser.BeautifulSoup h2) asin 6 = p2 ->
  List.length p2 = 3 ->
  (ReviewsParser.scrape_product_reviews self url 6 t0
     = Some (Return (firstn 6 (p1 ++ p2)), t2) /\
   List.length (firstn 6 (p1 ++ p2)) = 6 /\
   map ReviewsParser.position (firstn 6 (p1 ++ p2)) = [1; 2; 3; 4; 5; 6]%Z /\
   (forall u, In (ReviewsParser.Get u) (skipn (List.length t0) t2) ->
              u = ReviewsParser._build_review_page_url asin 1 \/
              u = ReviewsParser._build_review_page_url asin 2) /\
   (In (ReviewsParser.Get (ReviewsParser._build_review_page_url asin 3))
       (skipn (List.length t0) t2) -> False)) /\
  (forall max_reviews t,
     exists outcome t',
       ReviewsParser.pagination self max_reviews asin max_reviews [] 1 t
         = Some (outcome, t') /\
       match outcome with
       | Return collected =>
           ReviewsParser.scrape_product_reviews self url max_reviews t
             = Some (Return (firstn max_reviews collected), t') /\
           List.length (firstn max_reviews collected)
             = Nat.min max_reviews (List.length collected)
       | Raise e =>
           ReviewsParser.scrape_product_reviews self url max_reviews t
             = Some (Raise e, t')
       end).
Proof.
  intros Hasin Hf1 Hh1 Hp1 Hl1 Hpause Hf2 Hh2 Hp2 Hl2.
  split; [|intros; now apply scrape_truncates].
  assert (Hrun : ReviewsParser.pagination self 6 asin 6 [] 1 t0
                 = Some (Return (p1 ++ p2), t2)).
  { rewrite pagination_step by (simpl; lia).
    rewrite Hf1. destruct h1 as [|c1 h1]; [contradiction|].
    change (Z.of_nat (List.length (@nil ReviewsParser.Review)) + 1)%Z with 1%Z.
    rewrite Hp1.
    destruct p1 as [|r1 p1]; [discriminate|].
    replace (6 <=? List.length ([] ++ r1 :: p1)) with false
      by (symmetry; apply Nat.leb_gt; simpl in *; lia).
    unfold ReviewsParser.time_sleep. rewrite Hpause.
    rewrite pagination_step by (simpl in *; lia).
    change (1 + 1)%Z with 2%Z. rewrite Hf2.
    destruct h2 as [|c2 h2]; [contradiction|].
    replace (Z.of_nat (List.length ([] ++ r1 :: p1)) + 1)%Z with 6%Z
      by (cbn [app List.length] in *; lia).
    rewrite Hp2.
    destruct p2 as [|r2 p2]; [discriminate|].
    replace (6 <=? List.length (([] ++ r1 :: p1) ++ r2 :: p2)) with true
      by (symmetry; apply Nat.leb_le; rewrite length_app; simpl in *; lia).
    reflexivity. }
  assert (Hnum : numbered (p1 ++ p2))
    by (eapply pagination_numbered; [exact Hrun|reflexivity]).
  assert (Hlen : List.length (firstn 6 (p1 ++ p2)) = 6)
    by (rewrite length_firstn, length_app; lia).
  split; [|split; [|split; [|split]]].
  - now rewrite (scrape_resolved self _ _ _ _ Hasin), Hrun.
  - assumption.
  - apply (numbered_firstn 6) in Hnum. unfold numbered in Hnum.
    now rewrite Hnum, Hlen.
  - destruct (fetch_requests_only self _ _ _ _ Hf1) as (a1 & -> & Ha1).
    destruct (fetch_requests_only self _ _ _ _ Hf2) as (a2 & -> & Ha2).
    rewrite <- !app_assoc, skipn_app, skipn_all, Nat.sub_diag.
    cbn [skipn app]. intros u Hu.
    apply in_app_or in Hu as [Hu|Hu]; [left; now apply Ha1|].
    simpl in Hu. destruct Hu as [Hu|Hu]; [discriminate|right; now apply Ha2].
  - destruct (fetch_requests_only self _ _ _ _ Hf1) as (a1 & -> & Ha1).
    destruct (fetch_requests_only self _ _ _ _ Hf2) as (a2 & -> & Ha2).
    rewrite <- !app_assoc, skipn_app, skipn_all, Nat.sub_diag.
    cbn [skipn app]. intros Hu.
    apply in_app_or in Hu as [Hu|Hu];
      [apply Ha1, page_urls_differ in Hu; discriminate|].
    simpl in Hu. destruct Hu as [Hu|Hu]; [discriminate|].
    apply Ha2, page_urls_differ in Hu; discriminate.
Qed.

(** C1 on the two-page site, whose second page has a fourth, empty block. *)
Lemma scrape_two_pages_stops_at_six_witness :
  exists records,
    ReviewsParser.scrape_product_reviews (py := Scripted.interpreter)
      (world := Scripted.site) Scripted.scraper Scripted.product 6 []
    = Some (Return records,
            [ReviewsParser.Get (Scripted.listing 1);
             ReviewsParser.Sleep 1%float;
             ReviewsParser.Get (Scripted.listing 2)]) /\
    map ReviewsParser.position records = [1; 2; 3; 4; 5; 6]%Z.
Proof.
  destruct (scrape_two_pages_stops_at_six (py := Scripted.interpreter)
              (world := Scripted.site)
              Scripted.scraper Scripted.product "B08N5WRWNW"
              [] [ReviewsParser.Get (Scripted.listing 1)]
              [ReviewsParser.Get (Scripted.listing 1);
               ReviewsParser.Sleep 1%float;
               ReviewsParser.Get (Scripted.listing 2)]
              "<html>1</html>" "<html>2</html>" _ _
              eq_refl eq_refl ltac:(discriminate) eq_refl eq_refl eq_refl
              eq_refl ltac:(discriminate) eq_refl eq_refl)
    as ((Hrun & _ & Hpos & _) & _).
  eexists; split; [exact Hrun|exact Hpos].
Defined.




(** Without the condition on the delays the scrape can raise after its
    requests have begun: with a negative delay, the pause after page 1 is
    refused by [time.sleep], and the records of page 1 are lost. *)
Example scrape_with_negative_delay :
  ReviewsParser.scrape_product_reviews (py := Scripted.interpreter)
    (world := Scripted.site) Scripted.hasty_scraper Scripted.product 100 []
  = Some (Raise (ValueError "sleep length must be non-negative"),
          [ReviewsParser.Get (Scripted.listing 1)]).
Proof. reflexivity. Qed.
(** * Further properties of the code *)

(** ** [clean_text] *)

Section CleanTextShape.

Import Py.

Lemma split_nil_blank s : split s = [] <-> forallb isspace s = true.
Proof.
  induction s as [|c s IH]; simpl; [tauto|].
  destruct (isspace c) eqn:Hc; simpl; [assumption|].
  split; [|discriminate].
  destruct s as [|d s']; [discriminate|].
  destruct (isspace d); [discriminate|].
  destruct (split (d :: s')); discriminate.
Qed.

Lemma concat_split s : List.concat (split s) = filter visible s.
Proof.
  induction s as [|c s IH]; [reflexivity|].
  unfold visible in *. cbn [filter].
  destruct (isspace c) eqn:Hc; cbn [negb].
  - simpl. rewrite Hc. exact IH.
  - destruct s as [|d s']; [simpl; now rewrite Hc|].
    destruct (isspace d) eqn:Hd.
    + change (split (c :: d :: s')) with
        (if isspace c then split (d :: s')
         else if isspace d then [c] :: split (d :: s')
              else match split (d :: s') with
                   | w :: ws => (c :: w) :: ws
                   | [] => [[c]]
                   end).
      rewrite Hc, Hd. cbn [List.concat app]. now rewrite IH.
    + rewrite split_inside_word by assumption.
      destruct (split (d :: s')) as [|w ws] eqn:Hs.
      * apply split_nil_blank in Hs. simpl in Hs. now rewrite Hd in Hs.
      * cbn [List.concat app] in *. now rewrite <- IH.
Qed.

Lemma filter_visible_word w : word w -> filter visible w = w.
Proof.
  intros [_ H]. induction w as [|a w IH]; [reflexivity|].
  simpl in H. apply andb_true_iff in H as [Ha Hw].
  simpl. unfold visible at 1. rewrite Ha. now rewrite IH.
Qed.

Lemma filter_visible_join ws :
  Forall word ws -> filter visible (join " " ws) = List.concat ws.
Proof.
  induction 1 as [|w ws Hw Hws IH]; [reflexivity|].
  destruct ws as [|w2 ws'].
  - simpl. rewrite app_nil_r. now apply filter_visible_word.
  - change (join " " (w :: w2 :: ws'))
      with (w ++ ch " " :: join " " (w2 :: ws')).
    rewrite filter_app, filter_visible_word by assumption.
    cbn [filter]. change (visible (ch " ")) with false. cbn iota.
    now rewrite IH.
Qed.

Lemma join_words_nil ws : Forall word ws -> join " " ws = [] -> ws = [].
Proof.
  intros Hws Hj. destruct ws as [|w ws]; [reflexivity|].
  destruct (join_words_first _ Hws) as (a & s & Hj' & _); [discriminate|].
  congruence.
Qed.

End CleanTextShape.

(** X1.  [clean_text] keeps the words of the text and nothing else: its
    result is the whitespace-free words of the input joined by single spaces
    (so stripping it changes nothing), it has the same words and the same
    non-whitespace characters in the same order as the input, and it is empty
    exactly when the input holds nothing but whitespace. *)
Theorem clean_text_normal_form (text : str) :
  let cleaned := UtilsText.clean_text (Some text) in
  cleaned = Py.join " " (Py.split text) /\
  Forall word (Py.split text) /\
  Py.split cleaned = Py.split text /\
  Py.strip cleaned = cleaned /\
  filter visible cleaned = filter visible text /\
  (cleaned = [] <-> forallb Py.isspace text = true).
Proof.
  intros cleaned. unfold cleaned. rewrite clean_text_words.
  pose proof (split_words text) as Hw.
  split; [reflexivity|]. split; [assumption|].
  split; [now apply split_join_words|].
  split; [now apply strip_join_words|].
  split; [now rewrite filter_visible_join, concat_split|].
  rewrite <- split_nil_blank. split.
  - now apply join_words_nil.
  - now intros ->.
Qed.

(** ** [parse_helpful_votes] and [parse_rating_score] *)

Section TextParsers.

Import Py Re UtilsText.

Context {py : Interpreter}.

Lemma digit_val_nonneg c : (0 <= digit_val c)%Z.
Proof. unfold digit_val. destruct (decimal c); lia. Qed.

Lemma digits_val_nonneg s : (0 <= digits_val s)%Z.
Proof.
  unfold digits_val.
  assert (H : forall acc, (0 <= acc)%Z ->
                          (0 <= fold_left (fun a c => 10 * a + digit_val c) s acc)%Z).
  { induction s as [|c s IH]; intros acc Hacc; [assumption|].
    cbn [fold_left]. apply IH.
    pose proof (digit_val_nonneg c). lia. }
  apply H. lia.
Qed.

Lemma int_nonneg s n : int s = Some n -> (0 <= n)%Z.
Proof.
  unfold int. destruct (truthy s && all_digits s); [|discriminate].
  destruct (over_limit _ _); [discriminate|].
  intros H; injection H as <-. apply digits_val_nonneg.
Qed.

End TextParsers.

(** X2.  [parse_helpful_votes] never returns a negative number. *)
Theorem parse_helpful_votes_nonnegative {py : Py.Interpreter} (text : str) :
  (0 <= UtilsText.parse_helpful_votes text)%Z.
Proof.
  unfold UtilsText.parse_helpful_votes.
  destruct (negb (Py.truthy text)); [lia|].
  assert (Hafter : (0 <= if Py.contains "one person found this helpful" (Py.lower text)
                         then 1 else 0)%Z)
    by (destruct (Py.contains _ _); lia).
  destruct (Re.search true UtilsText._HELPFUL_RE text) as [g|] eqn:Hs; [|assumption].
  destruct (Py.int g) as [n|] eqn:Hn; [|assumption].
  eapply int_nonneg; eauto.
Qed.

(** ** The case of the letters A to Z *)

Section AsciiCase.

Import Py Re UtilsText.

Context {py : Interpreter}.

Lemma ascii_lower_cases a :
  (between 65 90 a = true /\ ascii_lower a = (a + 32)%N /\ (65 <= a <= 90)%N) \/
  (between 65 90 a = false /\ ascii_lower a = a).
Proof.
  unfold ascii_lower. destruct (between 65 90 a) eqn:H; [left|right]; auto.
  unfold between in H. as_numbers_in H. auto.
Qed.

Ltac capital a :=
  destruct (ascii_lower_cases a) as [(_ & -> & ?)|(_ & ->)]; [|reflexivity].

Lemma between_shift lo hi a :
  (65 <= a <= 90)%N -> (hi < 65 \/ 122 < lo \/ (90 < lo /\ hi < 97))%N ->
  between lo hi (a + 32)%N = between lo hi a.
Proof.
  intros Ha H. unfold between.
  destruct ((lo <=? a + 32)%N && (a + 32 <=? hi)%N) eqn:E1;
    destruct ((lo <=? a)%N && (a <=? hi)%N) eqn:E2; try reflexivity;
    as_numbers_in E1; as_numbers_in E2; lia.
Qed.

Lemma eqb_shift k a :
  (65 <= a <= 90)%N -> (k < 65 \/ 122 < k \/ 90 < k < 97)%N ->
  (a + 32 =? k)%N = (a =? k)%N.
Proof.
  intros Ha H.
  destruct (N.eqb_spec (a + 32)%N k), (N.eqb_spec a k); try reflexivity; lia.
Qed.

Lemma ascii_lower_idem a : ascii_lower (ascii_lower a) = ascii_lower a.
Proof.
  destruct (ascii_lower_cases a) as [(_ & -> & H)|(Hb & ->)].
  - unfold ascii_lower. replace (between 65 90 (a + 32)%N) with false; [reflexivity|].
    symmetry. unfold between. as_numbers. lia.
  - unfold ascii_lower. now rewrite Hb.
Qed.

Lemma isascii_lower a : isascii (ascii_lower a) = isascii a.
Proof.
  capital a. unfold isascii.
  destruct (N.ltb_spec (a + 32)%N 128), (N.ltb_spec a 128); try reflexivity; lia.
Qed.

Lemma isspace_lower a : isspace (ascii_lower a) = isspace a.
Proof.
  capital a. unfold isspace.
  rewrite !between_shift, !eqb_shift by lia. reflexivity.
Qed.

Lemma zero_to_five_lower a : zero_to_five (ascii_lower a) = zero_to_five a.
Proof. capital a. unfold zero_to_five. now rewrite between_shift by lia. Qed.

Lemma decimal_capital a : (65 <= a <= 90)%N -> decimal a = None /\ decimal (a + 32)%N = None.
Proof.
  intros H. unfold decimal, isascii.
  replace (a <? 128)%N with true by (symmetry; as_numbers; lia).
  replace (a + 32 <? 128)%N with true by (symmetry; as_numbers; lia).
  replace (between 48 57 a) with false by (symmetry; unfold between; as_numbers; lia).
  replace (between 48 57 (a + 32)%N) with false
    by (symmetry; unfold between; as_numbers; lia).
  auto.
Qed.

Lemma isdecimal_lower a : isdecimal (ascii_lower a) = isdecimal a.
Proof.
  capital a. unfold isdecimal.
  destruct (decimal_capital a) as [-> ->]; auto.
Qed.

Lemma lower_decimal a : isdecimal a = true -> ascii_lower a = a.
Proof.
  destruct (ascii_lower_cases a) as [(_ & _ & H)|(_ & ->)]; [|reflexivity].
  unfold isdecimal. destruct (decimal_capital a H) as [-> _]. discriminate.
Qed.

Lemma fold_decimal s : forallb isdecimal s = true -> ascii_fold s = s.
Proof.
  induction s as [|a s IH]; [reflexivity|]. simpl; intros H.
  apply andb_true_iff in H as [Ha Hs]. now rewrite lower_decimal, IH.
Qed.

Lemma latin_lower_capital a :
  (65 <= a <= 90)%N -> latin_lower a = (a + 32)%N /\ latin_lower (a + 32)%N = (a + 32)%N.
Proof.
  intros H. unfold latin_lower.
  replace (between 65 90 a) with true by (symmetry; unfold between; as_numbers; lia).
  replace (between 65 90 (a + 32)%N) with false
    by (symmetry; unfold between; as_numbers; lia).
  replace (between 192 222 (a + 32)%N) with false
    by (symmetry; unfold between; as_numbers; lia).
  auto.
Qed.

(** A literal under [IGNORECASE] does not tell A to Z from a to z. *)
Lemma fold_match_lower a c : fold_match (ascii_lower a) c = fold_match a c.
Proof.
  capital a. unfold fold_match.
  destruct (latin_lower_capital a H) as [-> ->].
  rewrite (eqb_shift 304 a), (eqb_shift 305 a), (eqb_shift 383 a),
    (eqb_shift 8490 a), (eqb_shift 8491 a), (eqb_shift 924 a), (eqb_shift 956 a),
    (eqb_shift 7838 a), (eqb_shift 376 a) by lia.
  reflexivity.
Qed.

Lemma ascii_fold_idem s : ascii_fold (ascii_fold s) = ascii_fold s.
Proof.
  unfold ascii_fold. rewrite map_map. apply map_ext. apply ascii_lower_idem.
Qed.

Lemma orelse_map (f : str -> str) a b :
  option_map f (orelse a b) = orelse (option_map f a) (option_map f b).
Proof. now destruct a. Qed.

Lemma plus_m_fold p : (forall a, p (ascii_lower a) = p a) ->
  forall s k k',
  (forall rest, k' (ascii_fold rest) = option_map ascii_fold (k rest)) ->
  plus_m p (ascii_fold s) k' = option_map ascii_fold (plus_m p s k).
Proof.
  intros Hp s k k' Hk. induction s as [|a s IH]; [reflexivity|].
  simpl. rewrite Hp. destruct (p a); [|reflexivity].
  fold (ascii_fold s). now rewrite orelse_map, IH, Hk.
Qed.

Lemma rep_m_fold p : (forall a, p (ascii_lower a) = p a) ->
  forall n s k k',
  (forall rest, k' (ascii_fold rest) = option_map ascii_fold (k rest)) ->
  rep_m p n (ascii_fold s) k' = option_map ascii_fold (rep_m p n s k).
Proof.
  intros Hp n. induction n as [|n IH]; intros s k k' Hk; simpl; [apply Hk|].
  destruct s as [|a s]; [reflexivity|]. simpl. rewrite Hp.
  destruct (p a); [|reflexivity]. fold (ascii_fold s). now apply IH.
Qed.

(** Under [IGNORECASE], matching the folded text goes the same way and
    answers the folded group. *)
Lemma m_fold r : case_blind r ->
  forall s k k',
  (forall rest, k' (ascii_fold rest) = option_map ascii_fold (k rest)) ->
  m true r (ascii_fold s) k' = option_map ascii_fold (m true r s k).
Proof.
  induction r as [|c|p|r1 IH1 r2 IH2|r IH|p|n p|r IH];
    simpl; intros Hb s k k' Hk.
  - apply Hk.
  - destruct s as [|a s]; [reflexivity|]. simpl.
    unfold chr_match. rewrite fold_match_lower.
    destruct (fold_match a c); [apply Hk|reflexivity].
  - destruct s as [|a s]; [reflexivity|]. simpl. rewrite Hb.
    destruct (p a); [apply Hk|reflexivity].
  - destruct Hb as [Hb1 Hb2].
    apply IH1; [assumption|]. intros rest. now apply IH2.
  - rewrite orelse_map. now rewrite (IH Hb s k k' Hk), Hk.
  - now apply plus_m_fold.
  - now apply rep_m_fold.
  - apply IH; [assumption|]. intros rest. rewrite Hk.
    destruct (k rest); [|reflexivity]. simpl.
    unfold ascii_fold. now rewrite !length_map, firstn_map.
Qed.

Lemma search_fold r s : case_blind r ->
  search true r (ascii_fold s) = option_map ascii_fold (search true r s).
Proof.
  intros Hb. induction s as [|a s IH]; simpl.
  - rewrite orelse_map. f_equal.
    unfold match_here. now apply (m_fold r Hb []).
  - rewrite orelse_map. fold (ascii_fold s). rewrite IH. f_equal.
    unfold match_here. now apply (m_fold r Hb (a :: s)).
Qed.

Lemma case_blind_text t : case_blind (text t).
Proof. induction t; simpl; auto. Qed.

Lemma helpful_case_blind : case_blind _HELPFUL_RE.
Proof.
  unfold _HELPFUL_RE; simpl.
  repeat split; try apply isdecimal_lower; try apply isspace_lower.
Qed.

Lemma rating_case_blind : case_blind _RATING_RE.
Proof.
  unfold _RATING_RE; simpl.
  repeat split; try apply isdecimal_lower; try apply isspace_lower;
    try apply zero_to_five_lower.
Qed.

Lemma helpful_group_digits text g :
  search true _HELPFUL_RE text = Some g -> g <> [] /\ forallb isdecimal g = true.
Proof.
  intros H. apply search_some in H as (_ & rest & _ & H & _).
  apply helpful_match_statement in H as (W & P & post & _ & (HD & _)).
  exact HD.
Qed.

Lemma rating_group_plain text g :
  search true _RATING_RE text = Some g -> ascii_fold g = g.
Proof.
  intros H. apply rating_group in H.
  destruct H as (u1 & u2 & -> & (a & -> & Ha) & Hopt).
  apply zero_to_five_value in Ha as (Ha & _ & _).
  destruct Hopt as [(v1 & v2 & -> & (b & -> & Hb) & (c & -> & Hc))| ->].
  - apply dot_only in Hb; subst b. simpl.
    now rewrite (lower_decimal a Ha), (lower_decimal c Hc).
  - simpl. now rewrite (lower_decimal a Ha).
Qed.

(** [str.lower] does not tell A to Z from a to z either. *)
Lemma lower_full_lower a : lower_full (ascii_lower a) = lower_full a.
Proof.
  unfold lower_full. rewrite isascii_lower, ascii_lower_idem.
  destruct (isascii a) eqn:Ha; [reflexivity|].
  destruct (ascii_lower_cases a) as [(_ & _ & H)|(_ & ->)]; [|reflexivity].
  unfold isascii in Ha. as_numbers_in Ha. lia.
Qed.

Lemma cased_lower a : cased (ascii_lower a) = cased a.
Proof.
  capital a. unfold cased, isascii.
  replace (a <? 128)%N with true by (symmetry; as_numbers; lia).
  replace (a + 32 <? 128)%N with true by (symmetry; as_numbers; lia).
  unfold between.
  replace ((65 <=? a)%N && (a <=? 90)%N) with true by (symmetry; as_numbers; lia).
  replace ((97 <=? a + 32)%N && (a + 32 <=? 122)%N) with true
    by (symmetry; as_numbers; lia).
  now rewrite orb_true_r.
Qed.

Lemma case_ignorable_lower a : case_ignorable (ascii_lower a) = case_ignorable a.
Proof.
  capital a. unfold case_ignorable, isascii.
  replace (a <? 128)%N with true by (symmetry; as_numbers; lia).
  replace (a + 32 <? 128)%N with true by (symmetry; as_numbers; lia).
  rewrite !(eqb_shift _ a) by lia. reflexivity.
Qed.

Lemma reaches_cased_fold s : reaches_cased (ascii_fold s) = reaches_cased s.
Proof.
  induction s as [|c s IH]; [reflexivity|]. simpl.
  now rewrite case_ignorable_lower, cased_lower, IH.
Qed.

Lemma lower_from_fold before s :
  lower_from (ascii_fold before) (ascii_fold s) = lower_from before s.
Proof.
  revert before; induction s as [|c s IH]; intros before; [reflexivity|].
  cbn [ascii_fold map lower_from].
  fold (ascii_fold s).
  change (ascii_lower c :: ascii_fold before) with (ascii_fold (c :: before)).
  rewrite IH, lower_full_lower. unfold final_sigma.
  rewrite !reaches_cased_fold. f_equal.
  destruct (ascii_lower_cases c) as [(_ & -> & H)|(_ & ->)]; [|reflexivity].
  now rewrite (eqb_shift _ c) by lia.
Qed.

Lemma lower_fold s : lower (ascii_fold s) = lower s.
Proof. apply (lower_from_fold []). Qed.

Lemma truthy_fold s : truthy (ascii_fold s) = truthy s.
Proof. now destruct s. Qed.

Lemma parse_helpful_votes_fold text :
  parse_helpful_votes (ascii_fold text) = parse_helpful_votes text.
Proof.
  unfold parse_helpful_votes.
  rewrite truthy_fold, lower_fold, (search_fold _ _ helpful_case_blind).
  destruct (search true _HELPFUL_RE text) as [g|] eqn:Hs; [|reflexivity].
  simpl. destruct (helpful_group_digits _ _ Hs) as [_ Hg].
  now rewrite (fold_decimal g Hg).
Qed.

Lemma parse_rating_score_fold text :
  parse_rating_score (ascii_fold text) = parse_rating_score text.
Proof.
  unfold parse_rating_score.
  rewrite truthy_fold, (search_fold _ _ rating_case_blind).
  destruct (search true _RATING_RE text) as [g|] eqn:Hs; [|reflexivity].
  simpl. now rewrite (rating_group_plain _ _ Hs).
Qed.

End AsciiCase.

(** X3.  Both parsers read their text without regard to the case of the
    letters A to Z: two texts that are the same once these letters are put
    in lower case get the same vote count and the same rating. *)
Theorem text_parsers_ignore_case {py : Py.Interpreter} (text text' : str) :
  ascii_fold text = ascii_fold text' ->
  UtilsText.parse_helpful_votes text = UtilsText.parse_helpful_votes text' /\
  UtilsText.parse_rating_score text = UtilsText.parse_rating_score text'.
Proof.
  intros H. split.
  - now rewrite <- (parse_helpful_votes_fold text),
      <- (parse_helpful_votes_fold text'), H.
  - now rewrite <- (parse_rating_score_fold text),
      <- (parse_rating_score_fold text'), H.
Qed.

(** X3 on a statement shouted and whispered. *)
Lemma text_parsers_ignore_case_witness :
  UtilsText.parse_helpful_votes (py := Scripted.interpreter)
    "12 PEOPLE FOUND THIS HELPFUL"
  = UtilsText.parse_helpful_votes (py := Scripted.interpreter)
      "12 people found this helpful" /\
  UtilsText.parse_rating_score (py := Scripted.interpreter) "4.5 OUT OF 5 Stars"
  = UtilsText.parse_rating_score (py := Scripted.interpreter) "4.5 out of 5 stars".
Proof.
  split.
  - apply (text_parsers_ignore_case (py := Scripted.interpreter)
             "12 PEOPLE FOUND THIS HELPFUL" "12 people found this helpful").
    reflexivity.
  - apply (text_parsers_ignore_case (py := Scripted.interpreter)
             "4.5 OUT OF 5 Stars" "4.5 out of 5 stars").
    reflexivity.
Defined.

(** X4.  A rating that [parse_rating_score] returns is a number of tenths
    between 0 and 5.9: ten times the rating is an integer from 0 to 59.  The
    empty text has no rating. *)
Theorem parse_rating_score_tenths {py : Py.Interpreter} (text : str) (q : Q) :
  UtilsText.parse_rating_score text = Some q ->
  text <> [] /\
  exists tenths : Z, (0 <= tenths <= 59)%Z /\ q = Qred (Qmake tenths 10).
Proof.
  intros H. split; [now intros ->|].
  revert H. unfold UtilsText.parse_rating_score.
  destruct (negb (Py.truthy text)); [discriminate|].
  destruct (Re.search true UtilsText._RATING_RE text) as [g|] eqn:Hs; [|discriminate].
  destruct (rating_group_tenths g (rating_group _ _ Hs)) as (tenths & Ht & ->).
  intros H; injection H as <-. eauto.
Qed.

(** X4 on a rating with a decimal. *)
Lemma parse_rating_score_tenths_witness :
  exists tenths : Z,
    (0 <= tenths <= 59)%Z /\
    UtilsText.parse_rating_score (py := Scripted.interpreter)
      "Rated 3.5 out of 5 stars" = Some (Qred (Qmake tenths 10)).
Proof.
  destruct (parse_rating_score_tenths (py := Scripted.interpreter)
              "Rated 3.5 out of 5 stars" (Qmake 7 2) eq_refl)
    as (_ & tenths & Hrange & Hq).
  exists tenths. split; [exact Hrange|]. now rewrite <- Hq.
Defined.
(** ** [_extract_asin] *)

Section LeadThenIdentifier.

Import Py Re ReviewsParser.

Context {py : Interpreter}.

(** A pattern [L([A-Z0-9]{10})] whose lead-in [L] matches the texts [lead],
    all of one length. *)
Variable L : regex.
Variable lead : str -> Prop.
Variable width : nat.
Hypothesis L_group_free : group_free L.
Hypothesis L_lang : forall l, lang false L l <-> lead l.
Hypothesis lead_width : forall l, lead l -> List.length l = width.

Let R : regex := Cat L (Grp (Rep 10 asin_class)).

Lemma match_lead rest x :
  match_here false R rest = Some x ->
  exists l post, rest = l ++ x ++ post /\ lead l /\ asin_shaped x.
Proof.
  unfold match_here, R; cbn [m]; intros H.
  destruct (m_sound false L L_group_free _ _ _ H) as (l & v & -> & Hl & Hk).
  destruct (rep_m_sound _ _ _ _ _ Hk) as (u & post & -> & Hn & Hu & Hx).
  injection Hx as <-. rewrite firstn_consumed.
  exists l, post. repeat split; auto. now apply L_lang.
Qed.

Lemma same_width_split (l l' a b : str) :
  List.length l = List.length l' -> l ++ a = l' ++ b -> l = l' /\ a = b.
Proof.
  revert l'; induction l as [|c l IH]; intros [|c' l'] Hlen Heq;
    simpl in *; try discriminate; [auto|].
  injection Heq as -> Heq. injection Hlen as Hlen.
  destruct (IH _ Hlen Heq) as [-> ->]. auto.
Qed.

Lemma lead_match l x post :
  lead l -> asin_shaped x -> match_here false R (l ++ x ++ post) = Some x.
Proof.
  intros Hl [Hn Hx].
  assert (Hm : match_here false R ((l ++ x) ++ post) <> None).
  { apply match_here_complete. exists l, x. repeat split; auto. now apply L_lang. }
  rewrite <- app_assoc in Hm.
  destruct (match_here false R (l ++ x ++ post)) as [x'|] eqn:H; [|contradiction].
  destruct (match_lead _ _ H) as (l' & post' & Heq & Hl' & [Hn' _]).
  apply same_width_split in Heq as [_ Heq];
    [|now rewrite (lead_width _ Hl), (lead_width _ Hl')].
  apply same_width_split in Heq as [-> _]; [reflexivity|congruence].
Qed.

Lemma search_first_occurrence s x :
  first_occurrence lead s x -> search false R s = Some x.
Proof.
  intros (pre & (l & post & Heq & Hl & Hx) & Hleft).
  pose proof (lead_match l x post Hl Hx) as Hm.
  destruct (search false R s) as [x'|] eqn:Hs.
  - apply search_some in Hs as (pre2 & rest2 & Heq2 & Hm2 & Hleft2).
    destruct (match_lead _ _ Hm2) as (l' & post' & -> & Hl' & Hx').
    assert (Hlen : List.length pre = List.length pre2).
    { apply Nat.le_antisymm.
      - apply (Hleft pre2 x'). now exists l', post'.
      - apply Nat.nlt_ge; intros Hlt.
        specialize (Hleft2 _ _ Heq Hlt). congruence. }
    rewrite Heq in Heq2.
    apply same_width_split in Heq2 as [_ Heq2]; [|assumption].
    rewrite Heq2 in Hm. congruence.
  - exfalso. eapply search_finds; eauto. rewrite Hm; discriminate.
Qed.

Lemma search_no_occurrence s :
  no_occurrence lead s -> search false R s = None.
Proof.
  intros Hno.
  destruct (search false R s) as [x|] eqn:Hs; [|reflexivity].
  apply search_some in Hs as (pre & rest & -> & Hm & _).
  destruct (match_lead _ _ Hm) as (l & post & -> & Hl & Hx).
  destruct (Hno pre x). now exists l, post.
Qed.

Lemma no_occurrence_search s :
  search false R s = None -> no_occurrence lead s.
Proof.
  intros Hs pre x (l & post & Heq & Hl & Hx).
  apply (search_finds false R s pre _ Heq); [|assumption].
  rewrite (lead_match l x post Hl Hx); discriminate.
Qed.

Lemma first_occurrence_search s x :
  search false R s = Some x -> first_occurrence lead s x.
Proof.
  intros Hs. apply search_some in Hs as (pre & rest & -> & Hm & Hleft).
  destruct (match_lead _ _ Hm) as (l & post & -> & Hl & Hx).
  exists pre. split; [now exists l, post|].
  intros pre' x' (l' & post' & Heq & Hl' & Hx').
  apply Nat.nlt_ge; intros Hlt.
  specialize (Hleft _ _ Heq Hlt).
  rewrite (lead_match l' x' post' Hl' Hx') in Hleft. discriminate.
Qed.

Lemma search_shaped s x : search false R s = Some x -> asin_shaped x.
Proof.
  intros Hs. apply search_some in Hs as (pre & rest & _ & Hm & _).
  now destruct (match_lead _ _ Hm) as (l & post & _ & _ & Hx).
Qed.

End LeadThenIdentifier.

Section Identifiers.

Import Py Re ReviewsParser.

Context {py : Interpreter}.

Lemma lang_text_exact t u : lang false (text t) u <-> u = lit t.
Proof.
  revert u; induction t as [|c t IH]; intros u; simpl; [tauto|].
  change (lit (String c t)) with (ch c :: lit t).
  split.
  - intros (u1 & u2 & -> & (a & -> & Ha) & Hu2).
    apply IH in Hu2. apply char_eqb_eq in Ha. now subst.
  - intros ->. exists [ch c], (lit t). repeat split; [|now apply IH].
    exists (ch c). split; [reflexivity|]. unfold chr_match. now apply char_eqb_eq.
Qed.

Lemma search_ext ic r r' :
  (forall s, match_here ic r s = match_here ic r' s) ->
  forall s, search ic r s = search ic r' s.
Proof.
  intros H s. induction s as [|a s IH]; simpl; rewrite H; [reflexivity|].
  now rewrite IH.
Qed.

Lemma key_pattern_lang l : lang false key_pattern l <-> asin_key l.
Proof.
  unfold key_pattern, asin_key. cbn [lang]. split.
  - intros (u1 & u2 & -> & (c & -> & Hc) & Hu2).
    apply (lang_text_exact "ASIN=") in Hu2. subst u2.
    exists c. split; [|reflexivity].
    unfold has_char in Hc. cbn [lit list_ascii_of_string map existsb] in Hc.
    apply orb_true_iff in Hc as [Hc|Hc]; [left|right];
      [|apply orb_true_iff in Hc as [Hc|Hc]; [|discriminate]];
      now apply char_eqb_eq in Hc.
  - intros (c & Hc & ->). exists [c], (lit "ASIN="). repeat split.
    + exists c. split; [reflexivity|]. destruct Hc as [-> | ->]; reflexivity.
    + now apply (lang_text_exact "ASIN=").
Qed.

Lemma search_parameter_as_lead s :
  search false asin_parameter s
  = search false (Cat key_pattern (Grp (Rep 10 asin_class))) s.
Proof. apply search_ext. reflexivity. Qed.

Lemma asin_class_alnum x : forallb asin_class x = true -> forallb isalnum_char x = true.
Proof.
  induction x as [|c x IH]; [reflexivity|]. simpl; intros H.
  apply andb_true_iff in H as [Hc Hx]. rewrite IH by assumption.
  rewrite andb_true_r. unfold asin_class in Hc. unfold isalnum_char, isascii.
  assert (Hascii : (c <? 128)%N = true)
    by (unfold between in Hc; as_numbers_in Hc; as_numbers; lia).
  rewrite Hascii.
  apply orb_true_iff in Hc as [Hc|Hc]; rewrite Hc;
    now rewrite ?orb_true_r, ?orb_true_l.
Qed.

Lemma find_app {A : Type} (f : A -> bool) l1 l2 :
  find f (l1 ++ l2) = match find f l1 with
                      | Some x => Some x
                      | None => find f l2
                      end.
Proof.
  induction l1 as [|a l1 IH]; [reflexivity|]. simpl.
  destruct (f a); [reflexivity|exact IH].
Qed.

(** The first hit in the reversed list is the last one in the list. *)
Lemma find_rev_last {A : Type} (f : A -> bool) l :
  match find f (rev l) with
  | Some x => exists before later,
                l = before ++ x :: later /\ f x = true /\ forallb (fun y => negb (f y)) later = true
  | None => forallb (fun y => negb (f y)) l = true
  end.
Proof.
  induction l as [|a l IH]; [reflexivity|].
  simpl rev. rewrite find_app.
  destruct (find f (rev l)) as [x|].
  - destruct IH as (before & later & -> & Hx & Hl).
    exists (a :: before), later. auto.
  - simpl. destruct (f a) eqn:Ha.
    + exists [], l. auto.
    + simpl. assumption.
Qed.

Lemma join_split_on sep s : join [sep] (split_on sep s) = s.
Proof.
  induction s as [|c s IH]; [reflexivity|]. simpl.
  destruct (char_eqb c sep) eqn:Hc.
  - apply char_eqb_eq in Hc. subst c.
    destruct (split_on sep s) as [|w ws] eqn:Hs.
    + destruct s as [|a s']; simpl in Hs; [discriminate|].
      destruct (char_eqb a sep); [discriminate|].
      destruct (split_on sep s'); discriminate.
    + change (join [sep] ([] :: w :: ws)) with (sep :: join [sep] (w :: ws)).
      now rewrite IH.
  - destruct (split_on sep s) as [|w ws] eqn:Hs.
    + destruct s as [|a s']; simpl in Hs; [discriminate|].
      destruct (char_eqb a sep); [discriminate|].
      destruct (split_on sep s'); discriminate.
    + rewrite <- IH. destruct ws; reflexivity.
Qed.

Lemma split_on_pieces sep s :
  Forall (fun piece => has_char sep piece = false) (split_on sep s).
Proof.
  induction s as [|c s IH]; simpl; [repeat constructor|].
  destruct (char_eqb c sep) eqn:Hc; [constructor; [reflexivity|assumption]|].
  destruct (split_on sep s) as [|w ws]; [repeat constructor|].
  - unfold has_char; simpl. rewrite orb_false_r.
    destruct (char_eqb sep c) eqn:Hc'; [|reflexivity].
    apply char_eqb_eq in Hc'. subst. unfold char_eqb in Hc.
    now rewrite N.eqb_refl in Hc.
  - inversion IH as [|? ? Hw Hws]; subst. constructor; [|assumption].
    unfold has_char in *; simpl. rewrite Hw, orb_false_r.
    destruct (char_eqb sep c) eqn:Hc'; [|reflexivity].
    apply char_eqb_eq in Hc'. subst. unfold char_eqb in Hc.
    now rewrite N.eqb_refl in Hc.
Qed.

Lemma qualifiesb_spec seg : qualifiesb seg = true <-> qualifies seg.
Proof.
  unfold qualifiesb, qualifies. now rewrite andb_true_iff, Nat.eqb_eq.
Qed.

Lemma not_qualifying l :
  forallb (fun y => negb (qualifiesb y)) l = true -> Forall (fun p => ~ qualifies p) l.
Proof.
  rewrite forallb_forall, Forall_forall. intros H p Hp Hq.
  apply qualifiesb_spec in Hq. specialize (H p Hp). now rewrite Hq in H.
Qed.

Lemma find_filter_truthy l :
  find qualifiesb (rev (filter truthy l)) = find qualifiesb (rev l).
Proof.
  induction l as [|a l IH]; [reflexivity|]. simpl.
  destruct a as [|c a]; simpl.
  - rewrite find_app, IH. simpl. now destruct (find qualifiesb (rev l)).
  - now rewrite !find_app, IH.
Qed.

End Identifiers.

Section IdentifierFacts.

Import Py Re ReviewsParser.

Context {py : Interpreter}.

Lemma after_first_occurrence prefix s x :
  first_occurrence (eq (lit prefix)) s x -> search false (after prefix) s = Some x.
Proof.
  apply (search_first_occurrence (text prefix) (eq (lit prefix))
           (List.length (lit prefix))).
  - apply group_free_text.
  - intros l. rewrite lang_text_exact. split; congruence.
  - now intros l <-.
Qed.

Lemma after_no_occurrence prefix s :
  no_occurrence (eq (lit prefix)) s -> search false (after prefix) s = None.
Proof.
  apply (search_no_occurrence (text prefix) (eq (lit prefix))).
  - apply group_free_text.
  - intros l. rewrite lang_text_exact. split; congruence.
Qed.

Lemma after_shaped prefix s x :
  search false (after prefix) s = Some x -> asin_shaped x.
Proof.
  apply (search_shaped (text prefix) (eq (lit prefix))).
  - apply group_free_text.
  - intros l. rewrite lang_text_exact. split; congruence.
Qed.

Lemma after_search_none prefix s :
  search false (after prefix) s = None -> no_occurrence (eq (lit prefix)) s.
Proof.
  apply (no_occurrence_search (text prefix) (eq (lit prefix))
           (List.length (lit prefix))).
  - apply group_free_text.
  - intros l. rewrite lang_text_exact. split; congruence.
  - now intros l <-.
Qed.

Lemma after_search_some prefix s x :
  search false (after prefix) s = Some x -> first_occurrence (eq (lit prefix)) s x.
Proof.
  apply (first_occurrence_search (text prefix) (eq (lit prefix))
           (List.length (lit prefix))).
  - apply group_free_text.
  - intros l. rewrite lang_text_exact. split; congruence.
  - now intros l <-.
Qed.

Lemma key_group_free : group_free key_pattern.
Proof. split; [exact I|apply group_free_text]. Qed.

Lemma asin_key_width l : asin_key l -> List.length l = 6.
Proof. now intros (c & _ & ->). Qed.

Lemma parameter_first_occurrence s x :
  first_occurrence asin_key s x -> search false asin_parameter s = Some x.
Proof.
  rewrite search_parameter_as_lead.
  apply (search_first_occurrence key_pattern asin_key 6
           key_group_free key_pattern_lang asin_key_width).
Qed.

Lemma parameter_no_occurrence s :
  no_occurrence asin_key s -> search false asin_parameter s = None.
Proof.
  rewrite search_parameter_as_lead.
  apply (search_no_occurrence key_pattern asin_key key_group_free key_pattern_lang).
Qed.

Lemma parameter_search_none s :
  search false asin_parameter s = None -> no_occurrence asin_key s.
Proof.
  rewrite search_parameter_as_lead.
  apply (no_occurrence_search key_pattern asin_key 6
           key_group_free key_pattern_lang asin_key_width).
Qed.

Lemma parameter_search_some s x :
  search false asin_parameter s = Some x -> first_occurrence asin_key s x.
Proof.
  rewrite search_parameter_as_lead.
  apply (first_occurrence_search key_pattern asin_key 6
           key_group_free key_pattern_lang asin_key_width).
Qed.

Lemma parameter_shaped s x :
  search false asin_parameter s = Some x -> asin_shaped x.
Proof.
  rewrite search_parameter_as_lead.
  apply (search_shaped key_pattern asin_key key_group_free key_pattern_lang).
Qed.

Lemma fallback_segment_find path :
  fallback_segment path = find qualifiesb (rev (split_on "/" path)).
Proof. unfold fallback_segment. apply find_filter_truthy. Qed.

End IdentifierFacts.

(** X5.  An identifier that [_extract_asin] returns has exactly ten
    characters, all of them alphanumeric as [str.isalnum] has it; unless it
    comes from the fallback over the path segments, the ten are capital
    letters A to Z and digits 0 to 9. *)
Theorem extract_asin_identifier_shape {py : Py.Interpreter} (url asin : str) :
  ReviewsParser._extract_asin url = Return (Some asin) ->
  List.length asin = 10 /\ forallb Py.isalnum_char asin = true /\
  (asin_shaped asin \/
   exists parsed,
     Urllib.urlparse url = Return parsed /\
     ReviewsParser.fallback_segment (Urllib.path parsed) = Some asin).
Proof.
  unfold ReviewsParser._extract_asin, bind.
  destruct (Urllib.urlparse url) as [parsed|e]; [|discriminate].
  assert (Hshape : forall x, List.length x = 10 /\ forallb ReviewsParser.asin_class x = true ->
            List.length x = 10 /\ forallb Py.isalnum_char x = true /\
            (asin_shaped x \/
             exists parsed0,
               Return parsed = Return parsed0 /\
               ReviewsParser.fallback_segment (Urllib.path parsed0) = Some x)).
  { intros x [Hn Hc]. repeat split; [assumption|now apply asin_class_alnum|].
    left. now split. }
  destruct (Re.search false (ReviewsParser.after "/dp/") _) eqn:H1;
    [intros H; injection H as ->; apply after_shaped in H1; now apply Hshape|].
  destruct (Re.search false (ReviewsParser.after "/gp/product/") _) eqn:H2;
    [intros H; injection H as ->; apply after_shaped in H2; now apply Hshape|].
  destruct (Re.search false (ReviewsParser.after "/product-reviews/") _) eqn:H3;
    [intros H; injection H as ->; apply after_shaped in H3; now apply Hshape|].
  destruct (Re.search false ReviewsParser.asin_parameter _) eqn:H4;
    [intros H; injection H as ->; apply parameter_shaped in H4; now apply Hshape|].
  intros H; injection H as H. pose proof H as Hseg.
  rewrite fallback_segment_find in H.
  apply find_some in H as [_ H]. apply qualifiesb_spec in H as [Hn Ha].
  split; [assumption|]. split; [destruct asin; [discriminate|exact Ha]|].
  right. exists parsed. now split.
Qed.

(** X5 on a URL whose identifier is found by the fallback: the segment
    [cafeti\u00e8re1] has ten alphanumeric characters, one of them beyond
    ASCII. *)
Lemma extract_asin_identifier_shape_witness :
  let segment := lit "cafeti" ++ [0xE8%N] ++ lit "re1" in
  let url := lit "https://www.amazon.com/Coffee/" ++ segment ++ lit "/ref=x" in
  ReviewsParser._extract_asin (py := Scripted.interpreter) url
    = Return (Some segment) /\
  List.length segment = 10 /\
  forallb (Py.isalnum_char (py := Scripted.interpreter)) segment = true.
Proof.
  intros segment url.
  assert (H : ReviewsParser._extract_asin (py := Scripted.interpreter) url
              = Return (Some segment)) by (vm_compute; reflexivity).
  split; [exact H|].
  pose proof (extract_asin_identifier_shape (py := Scripted.interpreter) _ _ H)
    as (Hn & Ha & _).
  split; [exact Hn|exact Ha].
Defined.

(** X6.  [_extract_asin] tries its shapes in a fixed order on the path and
    the query of the parsed URL.  The identifier (ten characters of [[A-Z0-9]])
    of the leftmost [/dp/] occurrence in the path wins; without any, that of
    the leftmost [/gp/product/] occurrence; without any, that of the leftmost
    [/product-reviews/] occurrence; without any, that of the leftmost
    [?ASIN=] or [&ASIN=] occurrence in the query; and without any of these the
    answer is the fallback over the path segments. *)
Theorem extract_asin_priority {py : Py.Interpreter}
    (url : str) (parsed : Urllib.ParseResult) :
  Urllib.urlparse url = Return parsed ->
  let path := Urllib.path parsed in
  let query := Urllib.query parsed in
  (forall x, first_occurrence (eq (lit "/dp/")) path x ->
             ReviewsParser._extract_asin url = Return (Some x)) /\
  (no_occurrence (eq (lit "/dp/")) path ->
   forall x, first_occurrence (eq (lit "/gp/product/")) path x ->
             ReviewsParser._extract_asin url = Return (Some x)) /\
  (no_occurrence (eq (lit "/dp/")) path ->
   no_occurrence (eq (lit "/gp/product/")) path ->
   forall x, first_occurrence (eq (lit "/product-reviews/")) path x ->
             ReviewsParser._extract_asin url = Return (Some x)) /\
  (no_occurrence (eq (lit "/dp/")) path ->
   no_occurrence (eq (lit "/gp/product/")) path ->
   no_occurrence (eq (lit "/product-reviews/")) path ->
   forall x, first_occurrence asin_key query x ->
             ReviewsParser._extract_asin url = Return (Some x)) /\
  (no_occurrence (eq (lit "/dp/")) path ->
   no_occurrence (eq (lit "/gp/product/")) path ->
   no_occurrence (eq (lit "/product-reviews/")) path ->
   no_occurrence asin_key query ->
   ReviewsParser._extract_asin url = Return (ReviewsParser.fallback_segment path)).
Proof.
  intros Hparse path query.
  unfold ReviewsParser._extract_asin, bind. rewrite Hparse.
  fold path; fold query.
  split; [|split; [|split; [|split]]].
  - intros x H. now rewrite (after_first_occurrence _ _ _ H).
  - intros N1 x H.
    now rewrite (after_no_occurrence _ _ N1), (after_first_occurrence _ _ _ H).
  - intros N1 N2 x H.
    now rewrite (after_no_occurrence _ _ N1), (after_no_occurrence _ _ N2),
      (after_first_occurrence _ _ _ H).
  - intros N1 N2 N3 x H.
    now rewrite (after_no_occurrence _ _ N1), (after_no_occurrence _ _ N2),
      (after_no_occurrence _ _ N3), (parameter_first_occurrence _ _ H).
  - intros N1 N2 N3 N4.
    now rewrite (after_no_occurrence _ _ N1), (after_no_occurrence _ _ N2),
      (after_no_occurrence _ _ N3), (parameter_no_occurrence _ N4).
Qed.

(** X6 on a URL with two path shapes, where [/dp/] wins, and on one whose
    identifier is the second parameter of the query. *)
Lemma extract_asin_priority_witness :
  ReviewsParser._extract_asin (py := Scripted.interpreter)
    "https://www.amazon.com/gp/product/B000000002/dp/B000000001"
  = Return (Some (lit "B000000001")) /\
  ReviewsParser._extract_asin (py := Scripted.interpreter)
    "https://www.amazon.com/review/create-review?ie=UTF8&ASIN=B08N5WRWNW"
  = Return (Some (lit "B08N5WRWNW")).
Proof.
  split.
  - pose (parsed := {| Urllib.scheme := "https"; Urllib.netloc := "www.amazon.com";
                       Urllib.path := "/gp/product/B000000002/dp/B000000001";
                       Urllib.params := []; Urllib.query := [];
                       Urllib.fragment := [] |}).
    assert (Hparse : Urllib.urlparse (py := Scripted.interpreter)
                       "https://www.amazon.com/gp/product/B000000002/dp/B000000001"
                     = Return parsed) by (vm_compute; reflexivity).
    apply (proj1 (extract_asin_priority (py := Scripted.interpreter) _ parsed Hparse)).
    apply after_search_some. vm_compute. reflexivity.
  - pose (parsed := {| Urllib.scheme := "https"; Urllib.netloc := "www.amazon.com";
                       Urllib.path := "/review/create-review";
                       Urllib.params := []; Urllib.query := "ie=UTF8&ASIN=B08N5WRWNW";
                       Urllib.fragment := [] |}).
    assert (Hparse : Urllib.urlparse (py := Scripted.interpreter)
                       "https://www.amazon.com/review/create-review?ie=UTF8&ASIN=B08N5WRWNW"
                     = Return parsed) by (vm_compute; reflexivity).
    apply (proj1 (proj2 (proj2 (proj2 (extract_asin_priority (py := Scripted.interpreter) _ parsed Hparse))))).
    + apply after_search_none. vm_compute. reflexivity.
    + apply after_search_none. vm_compute. reflexivity.
    + apply after_search_none. vm_compute. reflexivity.
    + apply parameter_search_some. vm_compute. reflexivity.
Defined.

(** X7.  The fallback of [_extract_asin] splits the path at its slashes and
    returns the last piece that has ten characters, all of them alphanumeric
    as [str.isalnum] has it (letters and numbers of any script), and nothing
    when no piece has. *)
Theorem fallback_takes_last_segment {py : Py.Interpreter} (path : str) :
  let pieces := Py.split_on "/" path in
  Py.join "/" pieces = path /\
  Forall (fun piece => Py.has_char "/" piece = false) pieces /\
  match ReviewsParser.fallback_segment path with
  | Some seg =>
      exists before later,
        pieces = before ++ seg :: later /\ qualifies seg /\
        Forall (fun piece => ~ qualifies piece) later
  | None => Forall (fun piece => ~ qualifies piece) pieces
  end.
Proof.
  intros pieces. split; [apply (join_split_on "/")|].
  split; [apply split_on_pieces|].
  rewrite fallback_segment_find. fold pieces.
  pose proof (find_rev_last qualifiesb pieces) as H.
  destruct (find qualifiesb (rev pieces)) as [seg|].
  - destruct H as (before & later & Heq & Hq & Hl).
    exists before, later. split; [assumption|]. split.
    + now apply qualifiesb_spec.
    + now apply not_qualifying.
  - now apply not_qualifying.
Qed.
(** ** Listing URLs *)

Section ListingUrls.

Import Py Re ReviewsParser.

Context {py : Interpreter}.

Lemma asin_char_facts a :
  asin_class a = true ->
  isascii a = true /\
  Urllib.unsafe_byte a = false /\
  char_eqb "#" a = false /\ char_eqb "?" a = false /\ char_eqb ";" a = false /\
  chr_match false a "/" = false /\
  chr_match false a "d" = false /\ chr_match false a "g" = false.
Proof.
  unfold asin_class, isascii, Urllib.unsafe_byte, chr_match, char_eqb, between.
  change (ch "#") with 35%N. change (ch "?") with 63%N. change (ch ";") with 59%N.
  change (ch "/") with 47%N. change (ch "d") with 100%N. change (ch "g") with 103%N.
  intros H. as_numbers_in H. repeat split; as_numbers; lia.
Qed.

Lemma filter_all {A : Type} (f : A -> bool) l : forallb f l = true -> filter f l = l.
Proof.
  induction l as [|a l IH]; [reflexivity|]. simpl; intros H.
  apply andb_true_iff in H as [Ha Hl]. now rewrite Ha, IH.
Qed.

Lemma class_excludes c x :
  asin_class c = false -> forallb asin_class x = true -> has_char c x = false.
Proof.
  intros Hc. unfold has_char. induction x as [|a x IH]; [reflexivity|].
  simpl; intros H. apply andb_true_iff in H as [Ha Hx].
  rewrite (IH Hx), orb_false_r.
  destruct (char_eqb c a) eqn:Heq; [|reflexivity].
  apply char_eqb_eq in Heq. congruence.
Qed.

Lemma has_char_app c a b : has_char c (a ++ b) = has_char c a || has_char c b.
Proof. apply existsb_app. Qed.

Lemma partition_at sep a b :
  has_char sep a = false -> partition sep (a ++ sep :: b) = (a, b).
Proof.
  unfold has_char. induction a as [|c a IH]; simpl; intros H.
  - unfold char_eqb. now rewrite N.eqb_refl.
  - apply orb_false_iff in H as [Hc Ha]. rewrite (IH Ha).
    destruct (char_eqb c sep) eqn:Heq; [|reflexivity].
    apply char_eqb_eq in Heq. subst. unfold char_eqb in Hc.
    now rewrite N.eqb_refl in Hc.
Qed.

Lemma safe_identifier x :
  forallb asin_class x = true ->
  forallb (fun c => negb (Urllib.unsafe_byte c)) x = true.
Proof.
  rewrite !forallb_forall. intros H c Hc.
  destruct (asin_char_facts c (H c Hc)) as (_ & Hs & _). now rewrite Hs.
Qed.

(** How [urlparse] reads a listing URL: the path ends with the identifier and
    the query is what follows the question mark. *)
Lemma listing_url_parses asin q :
  asin_shaped asin ->
  forallb (fun c => negb (Urllib.unsafe_byte c)) q = true ->
  has_char "#" q = false ->
  Urllib.urlparse (BASE_DOMAIN ++ lit "/product-reviews/" ++ asin ++ ch "?" :: q)
  = Return {| Urllib.scheme := "https"; Urllib.netloc := "www.amazon.com";
              Urllib.path := lit "/product-reviews/" ++ asin;
              Urllib.params := []; Urllib.query := q; Urllib.fragment := [] |}.
Proof.
  intros [_ Hclass] Hsafe Hhash.
  set (pth := lit "/product-reviews/" ++ asin).
  set (rest := pth ++ ch "?" :: q).
  assert (Hurl : BASE_DOMAIN ++ lit "/product-reviews/" ++ asin ++ ch "?" :: q
                 = lit "https://www.amazon.com" ++ rest)
    by (unfold rest, pth; now rewrite <- app_assoc).
  assert (Hrest : exists r, rest = ch "/" :: r) by (eexists; reflexivity).
  assert (Hno : forall c, asin_class c = false ->
                          has_char c (lit "/product-reviews/") = false ->
                          has_char c pth = false).
  { intros c Hc Hp. unfold pth. now rewrite has_char_app, Hp, (class_excludes c asin Hc). }
  assert (Hrest_safe : forallb (fun c => negb (Urllib.unsafe_byte c)) rest = true).
  { unfold rest, pth. rewrite !forallb_app. cbn [forallb].
    now rewrite (safe_identifier asin Hclass), Hsafe. }
  assert (Hrest_hash : has_char "#" rest = false).
  { unfold rest. rewrite has_char_app, (Hno (ch "#") eq_refl eq_refl).
    unfold has_char in *. cbn [existsb]. now rewrite Hhash. }
  rewrite Hurl. clear Hurl.
  unfold Urllib.urlparse, Urllib.urlsplit, bind.
  change (Urllib.lstrip_c0 (lit "https://www.amazon.com" ++ rest))
    with (lit "https://www.amazon.com" ++ rest).
  rewrite filter_app, (filter_all _ rest Hrest_safe).
  change (filter (fun c => negb (Urllib.unsafe_byte c)) (lit "https://www.amazon.com"))
    with (lit "https://www.amazon.com").
  change (Urllib.split_scheme (lit "https://www.amazon.com" ++ rest))
    with (lit "https", lit "//www.amazon.com" ++ rest).
  cbv beta iota.
  change (startswith "//" (lit "//www.amazon.com" ++ rest)) with true.
  cbv beta iota.
  change (skipn 2 (lit "//www.amazon.com" ++ rest)) with (lit "www.amazon.com" ++ rest).
  destruct Hrest as [r Hr].
  assert (Hnet : Urllib.until_delim (lit "www.amazon.com" ++ rest)
                 = (lit "www.amazon.com", rest)) by (rewrite Hr; reflexivity).
  rewrite Hnet. cbv beta iota.
  change (has_char "[" (lit "www.amazon.com")) with false.
  change (has_char "]" (lit "www.amazon.com")) with false.
  cbv beta iota.
  unfold Urllib.cut at 1. rewrite Hrest_hash.
  unfold Urllib.cut at 1.
  assert (Hq : has_char "?" rest = true).
  { unfold rest. rewrite has_char_app. unfold has_char at 2. cbn [existsb].
    change (char_eqb "?" (ch "?")) with true. now rewrite orb_true_r. }
  rewrite Hq. unfold rest at 1.
  rewrite (partition_at "?" pth q (Hno (ch "?") eq_refl eq_refl)).
  change (forallb isascii (lit "www.amazon.com")) with true.
  rewrite orb_true_l. change (xorb false false) with false. cbv beta iota.
  change (existsb (str_eqb (lit "https")) Urllib.uses_params) with true.
  rewrite (Hno (ch ";") eq_refl eq_refl).
  reflexivity.
Qed.

Lemma forallb_impl {A : Type} (f g : A -> bool) l :
  (forall a, f a = true -> g a = true) -> forallb f l = true -> forallb g l = true.
Proof.
  intros Hfg. rewrite !forallb_forall. auto.
Qed.

Lemma uint_chars d :
  forallb (between 48 57) (lit (DecimalString.NilEmpty.string_of_uint d)) = true.
Proof. induction d; simpl; auto. Qed.

Lemma str_of_int_chars n :
  forallb (fun c => between 48 57 c || char_eqb c "-") (str_of_int n) = true.
Proof.
  unfold str_of_int.
  assert (Hu : forall d, forallb (fun c => between 48 57 c || char_eqb c "-")
                 (lit (DecimalString.NilZero.string_of_uint d)) = true).
  { intros d. destruct d; [reflexivity|..];
      match goal with
      | |- forallb _ (lit (DecimalString.NilZero.string_of_uint ?x)) = true =>
          apply (forallb_impl (between 48 57));
          [intros c Hc; now rewrite Hc|exact (uint_chars x)]
      end. }
  destruct (Z.to_int n) as [d|d]; simpl; [apply Hu|].
  change (forallb (fun c => between 48 57 c || char_eqb c "-")
            (lit (DecimalString.NilZero.string_of_uint d)) = true).
  apply Hu.
Qed.

Lemma number_char_facts c :
  between 48 57 c || char_eqb c "-" = true ->
  negb (Urllib.unsafe_byte c) = true /\ char_eqb "#" c = false.
Proof.
  unfold Urllib.unsafe_byte, char_eqb, between.
  change (ch "#") with 35%N. change (ch "-") with 45%N.
  intros H. as_numbers_in H. split; as_numbers; lia.
Qed.

Lemma page_query_plain page :
  let q := lit "pageNumber=" ++ str_of_int page ++ lit "&sortBy=recent" in
  forallb (fun c => negb (Urllib.unsafe_byte c)) q = true /\ has_char "#" q = false.
Proof.
  intros q. unfold q, has_char. pose proof (str_of_int_chars page) as H.
  split.
  - rewrite !forallb_app.
    assert (Hn : forallb (fun c : char => negb (Urllib.unsafe_byte c)) (str_of_int page)
                 = true)
      by (revert H; apply forallb_impl; intros c Hc; apply (number_char_facts c Hc)).
    rewrite Hn. reflexivity.
  - rewrite !existsb_app.
    replace (existsb (char_eqb "#") (str_of_int page)) with false; [reflexivity|].
    symmetry. apply not_true_is_false. intros Hex.
    apply existsb_exists in Hex as (c & Hc & Heq).
    rewrite forallb_forall in H. specialize (H c Hc).
    apply number_char_facts in H as [_ H]. congruence.
Qed.

Lemma listing_path_resolves asin :
  asin_shaped asin ->
  search false (after "/dp/") (lit "/product-reviews/" ++ asin) = None /\
  search false (after "/gp/product/") (lit "/product-reviews/" ++ asin) = None /\
  search false (after "/product-reviews/") (lit "/product-reviews/" ++ asin) = Some asin.
Proof.
  intros [Hlen Hclass].
  destruct asin as [|a1 [|a2 [|a3 [|a4 [|a5 [|a6 [|a7 [|a8 [|a9 [|a10 [|]]]]]]]]]]];
    try discriminate Hlen.
  cbn [forallb] in Hclass.
  repeat match type of Hclass with
         | (_ && _) = true => apply andb_true_iff in Hclass as [?H Hclass]
         end.
  repeat match goal with
         | H : asin_class ?a = true |- _ =>
             destruct (asin_char_facts a H) as (_ & _ & _ & _ & _ & ? & ? & ?);
             revert H
         end.
  intros.
  repeat split; cbn -[chr_match asin_class];
    repeat (first
              [ match goal with
                | H : chr_match false _ _ = false |- _ => rewrite H
                | H : asin_class _ = true |- _ => rewrite H
                end
              | match goal with
                | |- context [chr_match false ?x ?c] =>
                    let v := eval vm_compute in (chr_match false x c) in
                    change (chr_match false x c) with v
                end ];
            cbn -[chr_match asin_class]); reflexivity.
Qed.

End ListingUrls.

(** X8.  The listing URL that the scraper builds for an identifier of ten
    characters of [[A-Z0-9]] resolves back to that identifier, for every page
    number: [_extract_asin] undoes [_build_review_page_url]. *)
Theorem listing_url_round_trip {py : Py.Interpreter} (asin : str) (page : Z) :
  asin_shaped asin ->
  ReviewsParser._extract_asin (ReviewsParser._build_review_page_url asin page)
  = Return (Some asin).
Proof.
  intros Hasin.
  destruct (page_query_plain page) as [Hsafe Hhash].
  pose proof (listing_url_parses asin _ Hasin Hsafe Hhash) as Hparse.
  destruct (listing_path_resolves asin Hasin) as (H1 & H2 & H3).
  unfold ReviewsParser._extract_asin, ReviewsParser._build_review_page_url, bind.
  change (lit "?pageNumber=" ++ ReviewsParser.str_of_int page ++ lit "&sortBy=recent")
    with (ch "?" :: lit "pageNumber=" ++ ReviewsParser.str_of_int page
                      ++ lit "&sortBy=recent").
  rewrite Hparse. cbn [Urllib.path Urllib.query].
  now rewrite H1, H2, H3.
Qed.

(** X8 on page 12 of a product. *)
Lemma listing_url_round_trip_witness :
  ReviewsParser._extract_asin (py := Scripted.interpreter)
    (ReviewsParser._build_review_page_url "B08N5WRWNW" 12)
  = Return (Some (lit "B08N5WRWNW")).
Proof.
  apply (listing_url_round_trip (py := Scripted.interpreter) "B08N5WRWNW" 12).
  split; reflexivity.
Defined.

Section ListingUrlsDistinct.

Import Py ReviewsParser.

Lemma lit_inj s t : lit s = lit t -> s = t.
Proof.
  unfold lit; intros H.
  apply (f_equal (map ascii_of_N)) in H. rewrite !map_map in H.
  assert (Hid : forall l : list ascii, map (fun x => ascii_of_N (ch x)) l = l).
  { intros l. rewrite <- (map_id l) at 2. apply map_ext.
    intros a. apply ascii_N_embedding. }
  rewrite !Hid in H.
  apply (f_equal string_of_list_ascii) in H.
  now rewrite !string_of_list_ascii_of_string in H.
Qed.

Lemma str_of_int_inj p q : str_of_int p = str_of_int q -> p = q.
Proof.
  unfold str_of_int; intros H. apply lit_inj in H.
  apply DecimalZ.to_int_inj.
  assert (Hn : forall n, Z.to_int n <> Decimal.Pos Decimal.Nil /\
                         Z.to_int n <> Decimal.Neg Decimal.Nil).
  { intros [|n|n]; simpl; split; try discriminate;
      intros Hn; injection Hn; apply DecimalPos.Unsigned.to_uint_nonnil. }
  pose proof (DecimalString.NilZero.isi (Z.to_int p) (proj1 (Hn p)) (proj2 (Hn p))) as Hp.
  pose proof (DecimalString.NilZero.isi (Z.to_int q) (proj1 (Hn q)) (proj2 (Hn q))) as Hq.
  rewrite H in Hp. congruence.
Qed.

End ListingUrlsDistinct.

(** X9.  Listing URLs are told apart by what they were built from: for
    identifiers of one length, equal URLs mean the same identifier and the
    same page number. *)
Theorem listing_url_injective (asin asin' : str) (page page' : Z) :
  List.length asin = List.length asin' ->
  ReviewsParser._build_review_page_url asin page
  = ReviewsParser._build_review_page_url asin' page' ->
  asin = asin' /\ page = page'.
Proof.
  unfold ReviewsParser._build_review_page_url; intros Hlen H.
  apply app_inv_head in H. apply app_inv_head in H.
  apply same_width_split in H as [Ha H]; [|assumption].
  split; [assumption|].
  apply app_inv_head in H. apply app_inv_tail in H.
  now apply str_of_int_inj.
Qed.

(** X9 on two spellings of one URL. *)
Lemma listing_url_injective_witness :
  lit "B08N5WRWNW" = lit "B08N5WRWNW" /\ (2 + 1)%Z = 3%Z.
Proof.
  apply (listing_url_injective "B08N5WRWNW" "B08N5WRWNW" (2 + 1) 3); reflexivity.
Defined.
(** ** Records *)

Section Records.

Import Py ReviewsParser.

Context {py : Interpreter} {Tag : Type} {world : External Tag}.

Lemma clean_text_normalised text : normalised (UtilsText.clean_text text).
Proof.
  unfold normalised. destruct text as [text|]; [|reflexivity].
  rewrite !clean_text_words.
  now rewrite split_join_words by apply split_words.
Qed.

Lemma text_of_normalised t separator otherwise :
  normalised otherwise -> normalised (text_of t separator otherwise).
Proof.
  intros H. destruct t; unfold text_of;
    [apply (clean_text_normalised (Some _))|assumption].
Qed.

Lemma review_images_nonempty tiles :
  Forall (fun image => image <> []) (review_images_of tiles).
Proof.
  induction tiles as [|img tiles IH]; cbn [review_images_of]; [constructor|].
  destruct (or_str _ _) as [[|c src]|]; try assumption.
  constructor; [discriminate|assumption].
Qed.

Lemma not_float_false x :
  not_float x = false -> exists q, x = Some q /\ ~ (q == 0)%Q.
Proof.
  destruct x as [q|]; [|discriminate]. simpl; intros H.
  exists q. split; [reflexivity|]. intros Hq.
  apply Qeq_bool_iff in Hq. congruence.
Qed.

Ltac record_fields :=
  cbn [productAsin ratingScore reviewTitle reviewUrl reviewReaction reviewedIn
       reviewDescription isVerified variant reviewImages position helpfulVotes].

Lemma parse_single_review_well_formed block asin pos r :
  _parse_single_review block asin pos = Return (Some r) ->
  well_formed asin r /\ position r = pos /\
  (select_one block "span[data-hook='helpful-vote-statement']" = None ->
   reviewReaction r = "0 people found this helpful" /\ helpfulVotes r = 0%Z) /\
  (select_one block "a[data-hook='review-title']" = None -> reviewUrl r = []).
Proof.
  unfold _parse_single_review, bind; intros H.
  match type of H with
  | context [match ?X with Return _ => _ | Raise _ => _ end] =>
      destruct X as [review_url|e] eqn:Hurl
  end; [|discriminate].
  match type of H with
  | context [if negb (truthy ?b) && not_float ?x then _ else _] =>
      set (body := b) in *; set (rating := x) in *;
      destruct (negb (truthy body) && not_float rating) eqn:Hc
  end; [discriminate|].
  injection H as <-. unfold well_formed, substantial. record_fields.
  split; [|split; [reflexivity|split]].
  - split; [reflexivity|]. split; [reflexivity|]. split.
    + apply andb_false_iff in Hc as [Hc|Hc].
      * left. apply negb_false_iff in Hc. intros Hb. now rewrite Hb in Hc.
      * right. now apply not_float_false.
    + repeat split; try (apply text_of_normalised; reflexivity).
      apply review_images_nonempty.
  - intros Hnone. cbv [lit list_ascii_of_string] in *.
    rewrite Hnone. split; reflexivity.
  - intros Hnone. cbv [lit list_ascii_of_string] in *.
    rewrite Hnone in Hurl. now injection Hurl as <-.
Qed.

Lemma parse_blocks_well_formed blocks asin pos :
  Forall (well_formed asin) (parse_blocks blocks asin pos).
Proof.
  revert pos; induction blocks as [|block more IH]; intros pos; simpl;
    [constructor|].
  destruct (_parse_single_review block asin pos) as [[r|]|e] eqn:Hr; auto.
  constructor; [|apply IH].
  now apply parse_single_review_well_formed in Hr.
Qed.

Lemma parse_blocks_length blocks asin pos :
  List.length (parse_blocks blocks asin pos) <= List.length blocks.
Proof.
  revert pos; induction blocks as [|block more IH]; intros pos; simpl; [lia|].
  destruct (_parse_single_review block asin pos) as [[r|]|e]; simpl;
    try (specialize (IH pos); lia).
  specialize (IH (pos + 1)%Z); lia.
Qed.

End Records.

(** X10.  A record that [_parse_single_review] returns carries the given
    identifier and position; its vote count is the one parsed from its
    reaction text; it has a non-empty body or a rating other than zero; its
    title, reaction, date, body and variant are normalised texts
    ([clean_text] leaves them unchanged) and none of its image references is
    empty.  When the block has no helpfulness node the reaction is the
    sentinel "0 people found this helpful" and the vote count is 0; when it
    has no title link the URL is empty. *)
Theorem parse_single_review_record {py : Py.Interpreter}
    {Tag : Type} {world : ReviewsParser.External Tag}
    (block : Tag) (asin : str) (pos : Z) (r : ReviewsParser.Review) :
  ReviewsParser._parse_single_review block asin pos = Return (Some r) ->
  well_formed asin r /\ ReviewsParser.position r = pos /\
  (ReviewsParser.select_one block "span[data-hook='helpful-vote-statement']" = None ->
   ReviewsParser.reviewReaction r = "0 people found this helpful" /\
   ReviewsParser.helpfulVotes r = 0%Z) /\
  (ReviewsParser.select_one block "a[data-hook='review-title']" = None ->
   ReviewsParser.reviewUrl r = []).
Proof. apply parse_single_review_well_formed. Qed.

(** X10 on a block with a rating and a body and nothing else. *)
Lemma parse_single_review_record_witness :
  exists r,
    ReviewsParser._parse_single_review (py := Scripted.interpreter)
      (world := Scripted.site)
      (Scripted.five_stars "  Works   well. ") "B08N5WRWNW" 7 = Return (Some r) /\
    well_formed (py := Scripted.interpreter) "B08N5WRWNW" r /\ ReviewsParser.position r = 7%Z /\
    ReviewsParser.reviewDescription r = "Works well." /\
    ReviewsParser.helpfulVotes r = 0%Z.
Proof.
  eexists. split; [vm_compute; reflexivity|].
  destruct (parse_single_review_record (py := Scripted.interpreter)
              (world := Scripted.site)
              (Scripted.five_stars "  Works   well. ") "B08N5WRWNW" 7 _ eq_refl)
    as (Hwf & Hpos & Hvotes & _).
  split; [exact Hwf|]. split; [exact Hpos|]. split; [reflexivity|].
  apply Hvotes. reflexivity.
Defined.

(** X11.  A page gives at most one record per review block, all for the given
    identifier, and numbers them consecutively from the start position in
    document order: the records are, one for one and in the order of the
    document, those of the review blocks of the page that yield a record,
    each what [_parse_single_review] makes of its block at the record's
    position. *)
Theorem page_records_numbered {py : Py.Interpreter}
    {Tag : Type} {world : ReviewsParser.External Tag}
    (soup : Tag) (asin : str) (start : Z) :
  let records := ReviewsParser._parse_reviews_from_soup soup asin start in
  let blocks := ReviewsParser.select soup "div[data-hook='review']" in
  List.length records <= List.length blocks /\
  map ReviewsParser.position records
    = map (fun i => (start + Z.of_nat i)%Z) (seq 0 (List.length records)) /\
  transcribes asin records (filter (yields asin) blocks) /\
  Forall (well_formed asin) records.
Proof.
  intros records blocks. unfold records, blocks, ReviewsParser._parse_reviews_from_soup.
  split; [apply parse_blocks_length|].
  split; [apply parse_blocks_positions|].
  split; [apply parse_blocks_transcribes|apply parse_blocks_well_formed].
Qed.
(** ** The whole scrape *)

Section WholeScrape.

Import Py ReviewsParser.

Context {py : Interpreter} {Tag : Type} {world : External Tag}.
Variable self : AmazonReviewsScraper.

(** What a fetch adds to the trace: requests of its URL only, and no more of
    them than [retry_count]. *)
Lemma fetch_added url t res t' :
  _fetch_html_with_retries self url t = (res, t') ->
  exists added,
    t' = t ++ added /\
    (forall u, In (Get u) added -> u = url) /\
    gets added <= retry_count self.
Proof.
  intros H. destruct (fetch_events _ _ _ _ _ H) as (j & last & -> & Hlast & Hn).
  eexists; split; [reflexivity|]. split; [|exact Hn].
  intros u Hu. apply in_app_or in Hu as [Hu|Hu].
  - eapply failed_attempts_only; eauto.
  - destruct Hlast as [-> | ->]; [contradiction|].
    destruct Hu as [Hu|[]]. congruence.
Qed.

Lemma pagination_out_of_fuel asin max collected page t :
  List.length collected < max -> pagination self 0 asin max collected page t = None.
Proof. intros H. apply Nat.ltb_lt in H. simpl. now rewrite H. Qed.

(** The loop only ever adds records. *)
Lemma pagination_extends fuel asin max :
  forall collected page t out t',
  pagination self fuel asin max collected page t = Some (Return out, t') ->
  exists more, out = collected ++ more.
Proof.
  induction fuel as [|fuel IH]; intros collected page t out t' H.
  - simpl in H. destruct (List.length collected <? max); [discriminate|].
    injection H as <- _. exists []. now rewrite app_nil_r.
  - destruct (Nat.lt_ge_cases (List.length collected) max) as [Hlt|Hge].
    + destruct (pagination_turn self fuel asin max collected page t Hlt)
        as (res & t1 & _ & Hturn). cbv zeta in Hturn.
      destruct Hturn as [(e & _ & Hp)|[(html & _ & _ & Hp)|[(body & _ & _ & _ & _ & Hp)
                        |[(body & e & _ & _ & _ & _ & _ & Hp)|(body & _ & _ & _ & _ & _ & Hp)]]]];
        rewrite Hp in H; try discriminate.
      * injection H as <- _. exists []. now rewrite app_nil_r.
      * injection H as <- _. eauto.
      * apply IH in H as (more & ->). rewrite <- app_assoc. eauto.
    + rewrite pagination_done in H by assumption.
      injection H as <- _. exists []. now rewrite app_nil_r.
Qed.

(** A property of every extracted record is a property of every collected
    one. *)
Lemma pagination_forall (P : Review -> Prop) fuel asin max :
  (forall soup start, Forall P (_parse_reviews_from_soup soup asin start)) ->
  forall collected page t out t',
  pagination self fuel asin max collected page t = Some (Return out, t') ->
  Forall P collected -> Forall P out.
Proof.
  intros HP. induction fuel as [|fuel IH]; intros collected page t out t' H Hc.
  - simpl in H. destruct (List.length collected <? max); [discriminate|].
    now injection H as <- _.
  - destruct (Nat.lt_ge_cases (List.length collected) max) as [Hlt|Hge].
    + destruct (pagination_turn self fuel asin max collected page t Hlt)
        as (res & t1 & _ & Hturn). cbv zeta in Hturn.
      destruct Hturn as [(e & _ & Hp)|[(html & _ & _ & Hp)|[(body & _ & _ & _ & _ & Hp)
                        |[(body & e & _ & _ & _ & _ & _ & Hp)|(body & _ & _ & _ & _ & _ & Hp)]]]];
        rewrite Hp in H; try discriminate.
      * now injection H as <- _.
      * injection H as <- _. apply Forall_app; auto.
      * eapply IH; [exact H|]. apply Forall_app; auto.
    + rewrite pagination_done in H by assumption. now injection H as <- _.
Qed.

(** The requests of the loop: listing pages from [page] on, fewer of them
    than records are still wanted, each tried at most [retry_count] times. *)
Lemma pagination_requests fuel asin max :
  forall collected page t out t',
  pagination self fuel asin max collected page t = Some (out, t') ->
  exists added,
    t' = t ++ added /\
    (forall u, In (Get u) added ->
       exists p, (page <= p < page + Z.of_nat (max - List.length collected))%Z /\
                 u = _build_review_page_url asin p) /\
    gets added <= (max - List.length collected) * retry_count self.
Proof.
  induction fuel as [|fuel IH]; intros collected page t out t' H.
  - simpl in H. destruct (List.length collected <? max); [discriminate|].
    injection H as _ <-. exists []. rewrite app_nil_r.
    split; [reflexivity|]. split; [intros u []|apply Nat.le_0_l].
  - destruct (Nat.lt_ge_cases (List.length collected) max) as [Hlt|Hge].
    + destruct (pagination_turn self fuel asin max collected page t Hlt)
        as (res & t1 & Hf & Hturn). cbv zeta in Hturn.
      destruct (fetch_added _ _ _ _ Hf) as (a1 & -> & Hurl & Hn).
      assert (Hstop : exists added,
                t ++ a1 = t ++ added /\
                (forall u, In (Get u) added ->
                   exists p, (page <= p < page + Z.of_nat (max - List.length collected))%Z /\
                             u = _build_review_page_url asin p) /\
                gets added <= (max - List.length collected) * retry_count self).
      { exists a1. split; [reflexivity|]. split.
        - intros u Hu. exists page. split; [lia|now apply Hurl].
        - destruct (max - List.length collected) eqn:Hd; [lia|]. simpl. lia. }
      destruct Hturn as [(e & _ & Hp)|[(html & _ & _ & Hp)|[(body & _ & _ & _ & _ & Hp)
                        |[(body & e & _ & _ & _ & _ & _ & Hp)
                         |(body & _ & _ & Hne & Hfull & _ & Hp)]]]];
        rewrite Hp in H; try (now injection H as _ <-).
      rewrite length_app in Hfull.
      apply IH in H as (a2 & -> & Hurl2 & Hn2).
      rewrite length_app in Hurl2, Hn2.
      destruct (_parse_reviews_from_soup _ asin _) as [|r reviews]; [contradiction|].
      simpl in Hfull, Hurl2, Hn2.
      exists (a1 ++ Sleep (sleep_between_requests self) :: a2).
      split; [now rewrite <- !app_assoc|]. split.
      * intros u Hu. apply in_app_or in Hu as [Hu|[Hu|Hu]].
        -- exists page. split; [lia|now apply Hurl].
        -- discriminate.
        -- destruct (Hurl2 u Hu) as (p & Hp' & ->). exists p. split; [lia|reflexivity].
      * rewrite gets_app. change (gets (Sleep ?d :: ?x)) with (gets x).
        assert (Hmore : max - List.length collected
                        = S (max - (List.length collected + S (List.length reviews))
                             + List.length reviews)) by lia.
        rewrite Hmore. simpl. nia.
    + rewrite pagination_done in H by assumption.
      injection H as _ <-. exists []. rewrite app_nil_r.
      split; [reflexivity|]. split; [intros u []|apply Nat.le_0_l].
Qed.

Lemma firstn_within {A : Type} n (l more : list A) :
  n <= List.length l -> firstn n (l ++ more) = firstn n l.
Proof.
  intros H. rewrite firstn_app.
  replace (n - List.length l) with 0 by lia.
  now rewrite firstn_O, app_nil_r.
Qed.

(** Asking for fewer records gives a prefix of what asking for more gives. *)
Lemma pagination_monotone asin m m' : m <= m' ->
  forall fuel fuel' collected page t out t1 out' t1',
  pagination self fuel asin m collected page t = Some (Return out, t1) ->
  pagination self fuel' asin m' collected page t = Some (Return out', t1') ->
  firstn m out = firstn m out'.
Proof.
  intros Hmm. induction fuel as [|fuel IH];
    intros fuel' collected page t out t1 out' t1' H H'.
  - simpl in H. destruct (List.length collected <? m) eqn:Hlt; [discriminate|].
    injection H as <- _. apply Nat.ltb_ge in Hlt.
    apply pagination_extends in H' as (more & ->).
    now rewrite firstn_within.
  - destruct (Nat.lt_ge_cases (List.length collected) m) as [Hlt|Hge].
    + destruct fuel' as [|fuel'];
        [rewrite pagination_out_of_fuel in H' by lia; discriminate|].
      rewrite pagination_step in H by assumption.
      rewrite pagination_step in H' by lia.
      destruct (_fetch_html_with_retries self _ t) as [[[[|c html]|]|e] t2];
        try discriminate;
        try (injection H as <- _; now injection H' as <- _).
      destruct (_parse_reviews_from_soup _ asin _) as [|r reviews];
        [injection H as <- _; now injection H' as <- _|].
      destruct (m <=? _) eqn:Hfull.
      * injection H as <- _. apply Nat.leb_le in Hfull.
        destruct (m' <=? _); [now injection H' as <- _|].
        destruct (time_sleep _ t2) as [[[]|e] t3]; [|discriminate].
        apply pagination_extends in H' as (more & ->).
        now rewrite (firstn_within m (collected ++ r :: reviews) more Hfull).
      * apply Nat.leb_gt in Hfull.
        replace (m' <=? List.length (collected ++ r :: reviews)) with false in H'
          by (symmetry; apply Nat.leb_gt; lia).
        destruct (time_sleep _ t2) as [[[]|e] t3]; [|discriminate].
        eapply IH; eauto.
    + rewrite pagination_done in H by assumption. injection H as <- _.
      apply pagination_extends in H' as (more & ->).
      now rewrite firstn_within.
Qed.

End WholeScrape.

(** X12.  Every record that a scrape returns is for the identifier resolved
    from the product URL, has a vote count that agrees with its reaction
    text, has a body or a non-zero rating, and holds normalised texts. *)
Theorem scrape_records_well_formed {py : Py.Interpreter}
    {Tag : Type} {world : ReviewsParser.External Tag}
    (self : ReviewsParser.AmazonReviewsScraper) (url : str) (max_reviews : nat)
    (t t' : ReviewsParser.trace) (records : list ReviewsParser.Review) :
  ReviewsParser.scrape_product_reviews self url max_reviews t
    = Some (Return records, t') ->
  exists asin,
    ReviewsParser._extract_asin url = Return (Some asin) /\
    Forall (well_formed asin) records.
Proof.
  intros H. apply scrape_returned in H as (asin & collected & Hasin & Hp & ->).
  exists asin. split; [assumption|].
  assert (Hall : Forall (well_formed asin) collected).
  { eapply (pagination_forall self (well_formed asin)); [|exact Hp|constructor].
    intros soup start. apply parse_blocks_well_formed. }
  rewrite <- (firstn_skipn max_reviews collected) in Hall.
  now apply Forall_app in Hall as [Hhead _].
Qed.

(** X12 on the two-page site. *)
Lemma scrape_records_well_formed_witness :
  exists records t',
    ReviewsParser.scrape_product_reviews (py := Scripted.interpreter)
      (world := Scripted.site)
      Scripted.scraper Scripted.product 7 [] = Some (Return records, t') /\
    Forall (well_formed (py := Scripted.interpreter) "B08N5WRWNW") records.
Proof.
  eexists; eexists; split; [vm_compute; reflexivity|].
  destruct (scrape_records_well_formed (py := Scripted.interpreter)
      (world := Scripted.site)
              Scripted.scraper Scripted.product 7 [] _ _ eq_refl)
    as (asin & Hasin & Hall).
  injection Hasin as <-. exact Hall.
Defined.

(** X13.  A scrape never returns more than [max_reviews] records.  Asked for
    no record, or allowed no attempt ([retry_count] 0), it returns none and
    leaves the world as it was: no request, no pause. *)
Theorem scrape_respects_limits {py : Py.Interpreter}
    {Tag : Type} {world : ReviewsParser.External Tag}
    (self : ReviewsParser.AmazonReviewsScraper) (url : str) (max_reviews : nat)
    (t t' : ReviewsParser.trace) (records : list ReviewsParser.Review) :
  ReviewsParser.scrape_product_reviews self url max_reviews t
    = Some (Return records, t') ->
  List.length records <= max_reviews /\
  (max_reviews = 0 -> records = [] /\ t' = t) /\
  (ReviewsParser.retry_count self = 0 -> records = [] /\ t' = t).
Proof.
  intros H. apply scrape_returned in H as (asin & collected & Hasin & Hp & ->).
  split; [apply firstn_le_length|]. split.
  - intros ->. simpl in Hp. injection Hp as <- <-. auto.
  - intros Hzero. destruct max_reviews as [|m].
    + simpl in Hp. injection Hp as <- <-. auto.
    + rewrite pagination_step in Hp by (simpl; lia).
      unfold ReviewsParser._fetch_html_with_retries in Hp.
      rewrite Hzero in Hp. simpl in Hp. injection Hp as <- <-. auto.
Qed.

(** X13 on a scraper with [retry_count] 0. *)
Lemma scrape_respects_limits_witness :
  ReviewsParser.scrape_product_reviews (py := Scripted.interpreter)
      (world := Scripted.site)
    Scripted.idle_scraper Scripted.product 5 [ReviewsParser.Sleep 1%float]
  = Some (Return [], [ReviewsParser.Sleep 1%float]).
Proof.
  destruct (ReviewsParser.scrape_product_reviews (py := Scripted.interpreter)
      (world := Scripted.site)
              Scripted.idle_scraper Scripted.product 5 [ReviewsParser.Sleep 1%float])
    as [[[records|e] t']|] eqn:Hrun; try (vm_compute in Hrun; discriminate).
  destruct (scrape_respects_limits (py := Scripted.interpreter)
      (world := Scripted.site)
              Scripted.idle_scraper Scripted.product 5 _ _ _ Hrun)
    as (_ & _ & Hidle).
  destruct (Hidle eq_refl) as [-> ->]. reflexivity.
Defined.

(** X14.  A scrape only adds to the trace, and every request it adds is for a
    listing page of the resolved identifier, with a page number from 1 to
    [max_reviews]; it makes at most [max_reviews * retry_count] requests. *)
Theorem scrape_requests_listing_pages {py : Py.Interpreter}
    {Tag : Type} {world : ReviewsParser.External Tag}
    (self : ReviewsParser.AmazonReviewsScraper) (url : str) (max_reviews : nat)
    (t t' : ReviewsParser.trace) (records : list ReviewsParser.Review) :
  ReviewsParser.scrape_product_reviews self url max_reviews t
    = Some (Return records, t') ->
  exists asin added,
    ReviewsParser._extract_asin url = Return (Some asin) /\
    t' = t ++ added /\
    (forall u, In (ReviewsParser.Get u) added ->
       exists page, (1 <= page <= Z.of_nat max_reviews)%Z /\
                    u = ReviewsParser._build_review_page_url asin page) /\
    ReviewsParser.gets added <= max_reviews * ReviewsParser.retry_count self.
Proof.
  intros H. apply scrape_returned in H as (asin & collected & Hasin & Hp & _).
  apply pagination_requests in Hp as (added & -> & Hurl & Hn).
  cbn [List.length] in Hurl, Hn. rewrite Nat.sub_0_r in Hurl, Hn.
  exists asin, added. repeat split; try assumption.
  intros u Hu. destruct (Hurl u Hu) as (p & Hp & ->).
  exists p. split; [lia|reflexivity].
Qed.

(** X14 on the site that goes down after page 1: four requests in all. *)
Lemma scrape_requests_listing_pages_witness :
  exists added,
    (forall u, In (ReviewsParser.Get u) added ->
       exists page, (1 <= page <= 100)%Z /\
                    u = ReviewsParser._build_review_page_url "B08N5WRWNW" page) /\
    ReviewsParser.gets added <= 300.
Proof.
  destruct (ReviewsParser.scrape_product_reviews (py := Scripted.interpreter)
      (world := Scripted.down_after_one)
              Scripted.scraper Scripted.product 100 [])
    as [[[records|e] t']|] eqn:Hrun; try (vm_compute in Hrun; discriminate).
  destruct (scrape_requests_listing_pages (py := Scripted.interpreter)
      (world := Scripted.down_after_one)
              Scripted.scraper Scripted.product 100 _ _ _ Hrun)
    as (asin & added & Hasin & _ & Hurl & Hn).
  injection Hasin as <-. exists added. split; [exact Hurl|exact Hn].
Defined.

(** X15.  A page without records ends the scrape: when page 1 gave records,
    fewer than asked for, [time.sleep] accepts the pause between pages, and
    page 2 is fetched but yields none, the scrape returns the records of
    page 1 and stops with the fetch of page 2. *)
Theorem scrape_stops_at_empty_page {py : Py.Interpreter}
    {Tag : Type} {world : ReviewsParser.External Tag}
    (self : ReviewsParser.AmazonReviewsScraper) (url asin : str) (max_reviews : nat)
    (t0 t1 t2 : ReviewsParser.trace) (h1 h2 : str) (p1 : list ReviewsParser.Review) :
  ReviewsParser._extract_asin url = Return (Some asin) ->
  ReviewsParser._fetch_html_with_retries self
    (ReviewsParser._build_review_page_url asin 1) t0 = (Return (Some h1), t1) ->
  h1 <> [] ->
  ReviewsParser._parse_reviews_from_soup (ReviewsParser.BeautifulSoup h1) asin 1 = p1 ->
  p1 <> [] ->
  List.length p1 < max_reviews ->
  ReviewsParser.sleep_refusal (ReviewsParser.sleep_between_requests self) = None ->
  ReviewsParser._fetch_html_with_retries self
    (ReviewsParser._build_review_page_url asin 2)
    (t1 ++ [ReviewsParser.Sleep (ReviewsParser.sleep_between_requests self)])
    = (Return (Some h2), t2) ->
  h2 = [] \/
  ReviewsParser._parse_reviews_from_soup (ReviewsParser.BeautifulSoup h2) asin
    (Z.of_nat (List.length p1) + 1) = [] ->
  ReviewsParser.scrape_product_reviews self url max_reviews t0
  = Some (Return p1, t2).
Proof.
  intros Hasin Hf1 Hh1 Hp1 Hne Hlt Hpause Hf2 Hempty.
  rewrite (scrape_resolved self _ _ _ _ Hasin).
  destruct h1 as [|c1 h1]; [contradiction|].
  destruct p1 as [|r1 p1]; [contradiction|].
  destruct max_reviews as [|[|m]]; simpl in Hlt; try lia.
  rewrite pagination_step by (simpl; lia).
  rewrite Hf1.
  change (Z.of_nat (List.length (@nil ReviewsParser.Review)) + 1)%Z with 1%Z.
  rewrite Hp1.
  replace (S (S m) <=? List.length ([] ++ r1 :: p1)) with false
    by (symmetry; apply Nat.leb_gt; simpl; lia).
  unfold ReviewsParser.time_sleep. rewrite Hpause.
  rewrite pagination_step by (simpl; lia).
  change (1 + 1)%Z with 2%Z. rewrite Hf2.
  assert (Hout : firstn (S (S m)) ([] ++ r1 :: p1) = r1 :: p1)
    by (rewrite firstn_all2 by (simpl; lia); reflexivity).
  destruct h2 as [|c2 h2]; [now rewrite Hout|].
  destruct Hempty as [Hempty|Hempty]; [discriminate|].
  change ([] ++ r1 :: p1) with (r1 :: p1).
  rewrite Hempty. change ([] ++ r1 :: p1) with (r1 :: p1) in Hout.
  now rewrite Hout.
Qed.

(** X15 on a site whose second page has no reviews. *)
Lemma scrape_stops_at_empty_page_witness :
  exists records,
    ReviewsParser.scrape_product_reviews (py := Scripted.interpreter)
      (world := Scripted.short_site)
      Scripted.scraper Scripted.product 100 []
    = Some (Return records,
            [ReviewsParser.Get (Scripted.listing 1); ReviewsParser.Sleep 1%float;
             ReviewsParser.Get (Scripted.listing 2)]) /\
    List.length records = 5.
Proof.
  eexists. split.
  - eapply (scrape_stops_at_empty_page (py := Scripted.interpreter)
      (world := Scripted.short_site)
              Scripted.scraper Scripted.product "B08N5WRWNW" 100
              [] _ _ "<html>1</html>" "<html>no reviews</html>");
      [reflexivity|vm_compute; reflexivity|discriminate|vm_compute; reflexivity
      |discriminate|simpl; lia|vm_compute; reflexivity|vm_compute; reflexivity
      |right; reflexivity].
  - reflexivity.
Defined.

(** X16.  Asking for fewer records gives a prefix of what asking for more
    gives: from the same state of the world, the records returned for
    [m <= m'] are the first [m] of those returned for [m']. *)
Theorem scrape_prefix_of_larger {py : Py.Interpreter}
    {Tag : Type} {world : ReviewsParser.External Tag}
    (self : ReviewsParser.AmazonReviewsScraper) (url : str) (m m' : nat)
    (t t1 t1' : ReviewsParser.trace) (records records' : list ReviewsParser.Review) :
  m <= m' ->
  ReviewsParser.scrape_product_reviews self url m t = Some (Return records, t1) ->
  ReviewsParser.scrape_product_reviews self url m' t = Some (Return records', t1') ->
  records = firstn m records'.
Proof.
  intros Hmm H H'.
  apply scrape_returned in H as (asin & collected & Hasin & Hp & ->).
  apply scrape_returned in H' as (asin' & collected' & Hasin' & Hp' & ->).
  rewrite Hasin in Hasin'. injection Hasin' as <-.
  rewrite firstn_firstn, Nat.min_l by assumption.
  eapply pagination_monotone; eauto.
Qed.

(** X16 on the two-page site: three records against seven. *)
Lemma scrape_prefix_of_larger_witness :
  exists records records' t1 t1',
    ReviewsParser.scrape_product_reviews (py := Scripted.interpreter)
      (world := Scripted.site)
      Scripted.scraper Scripted.product 3 [] = Some (Return records, t1) /\
    ReviewsParser.scrape_product_reviews (py := Scripted.interpreter)
      (world := Scripted.site)
      Scripted.scraper Scripted.product 7 [] = Some (Return records', t1') /\
    records = firstn 3 records'.
Proof.
  do 4 eexists. split; [vm_compute; reflexivity|]. split; [vm_compute; reflexivity|].
  eapply (scrape_prefix_of_larger (py := Scripted.interpreter)
      (world := Scripted.site)
            Scripted.scraper Scripted.product 3 7 []);
    [lia|vm_compute; reflexivity|vm_compute; reflexivity].
Defined.

(** ** Pacing *)

Section Pacing.

Import Py ReviewsParser.

Context {py : Interpreter} {Tag : Type} {world : External Tag}.
Variable self : AmazonReviewsScraper.

Lemma paced_sleep_between a d b :
  paced (a ++ Sleep d :: b) = paced a && paced b.
Proof.
  induction a as [|e a IH]; [reflexivity|].
  destruct e as [u|s]; [|exact IH].
  destruct a as [|[v|s] a']; [reflexivity|reflexivity|exact IH].
Qed.

Lemma paced_failed_attempts url first k :
  paced (failed_attempts self url first k) = true.
Proof.
  revert first; induction k as [|k IH]; intros first; [reflexivity|].
  rewrite failed_attempts_S. cbn [app paced]. apply IH.
Qed.

Lemma paced_then_request url first k :
  paced (failed_attempts self url first k ++ [Get url]) = true.
Proof.
  revert first; induction k as [|k IH]; intros first; [reflexivity|].
  rewrite failed_attempts_S. cbn [app paced]. apply IH.
Qed.

Lemma no_adjacent_requests l :
  paced l = true ->
  forall pre post u v, l = pre ++ Get u :: Get v :: post -> False.
Proof.
  intros H pre. revert l H. induction pre as [|e pre IH]; intros l H post u v ->.
  - discriminate H.
  - apply (IH (pre ++ Get u :: Get v :: post)) with (post := post) (u := u) (v := v);
      [|reflexivity].
    cbn [app paced] in H. destruct e as [w|s]; [|exact H].
    destruct (pre ++ Get u :: Get v :: post) as [|[x|s] rest]; try discriminate;
      exact H.
Qed.

Lemma fetch_paced url t res t' :
  _fetch_html_with_retries self url t = (res, t') ->
  exists added, t' = t ++ added /\ paced added = true.
Proof.
  intros H. destruct (fetch_events _ _ _ _ _ H) as (j & last & -> & Hlast & _).
  eexists; split; [reflexivity|].
  destruct Hlast as [-> | ->].
  - rewrite app_nil_r. apply paced_failed_attempts.
  - apply paced_then_request.
Qed.

Lemma pagination_paced fuel asin max :
  forall collected page t out t',
  pagination self fuel asin max collected page t = Some (out, t') ->
  exists added, t' = t ++ added /\ paced added = true.
Proof.
  induction fuel as [|fuel IH]; intros collected page t out t' H.
  - simpl in H. destruct (List.length collected <? max); [discriminate|].
    injection H as _ <-. exists []. now rewrite app_nil_r.
  - destruct (Nat.lt_ge_cases (List.length collected) max) as [Hlt|Hge].
    + destruct (pagination_turn self fuel asin max collected page t Hlt)
        as (res & t1 & Hf & Hturn). cbv zeta in Hturn.
      destruct (fetch_paced _ _ _ _ Hf) as (a1 & -> & Ha1).
      destruct Hturn as [(e & _ & Hp)|[(html & _ & _ & Hp)|[(body & _ & _ & _ & _ & Hp)
                        |[(body & e & _ & _ & _ & _ & _ & Hp)|(body & _ & _ & _ & _ & _ & Hp)]]]];
        rewrite Hp in H; try (injection H as _ <-; eauto).
      apply IH in H as (a2 & -> & Ha2).
      exists (a1 ++ Sleep (sleep_between_requests self) :: a2).
      split; [now rewrite <- !app_assoc|].
      now rewrite paced_sleep_between, Ha1, Ha2.
    + rewrite pagination_done in H by assumption.
      injection H as _ <-. exists []. now rewrite app_nil_r.
Qed.

End Pacing.

(** X17.  A scrape never makes two requests without a pause between them:
    in what it adds to the trace, no request is followed directly by another
    request. *)
Theorem scrape_pauses_between_requests {py : Py.Interpreter}
    {Tag : Type} {world : ReviewsParser.External Tag}
    (self : ReviewsParser.AmazonReviewsScraper) (url : str) (max_reviews : nat)
    (t added : ReviewsParser.trace) (records : list ReviewsParser.Review) :
  ReviewsParser.scrape_product_reviews self url max_reviews t
    = Some (Return records, t ++ added) ->
  paced added = true /\
  forall pre post u v,
    added = pre ++ ReviewsParser.Get u :: ReviewsParser.Get v :: post -> False.
Proof.
  intros H. apply scrape_returned in H as (asin & collected & _ & Hp & _).
  apply pagination_paced in Hp as (added' & Heq & Hpaced).
  apply app_inv_head in Heq. subst added'.
  split; [assumption|now apply no_adjacent_requests].
Qed.

(** X17 on the site that goes down after page 1. *)
Lemma scrape_pauses_between_requests_witness :
  paced [ReviewsParser.Get (Scripted.listing 1); ReviewsParser.Sleep 1%float;
         ReviewsParser.Get (Scripted.listing 2); ReviewsParser.Sleep 1%float;
         ReviewsParser.Get (Scripted.listing 2); ReviewsParser.Sleep 2%float;
         ReviewsParser.Get (Scripted.listing 2); ReviewsParser.Sleep 3%float] = true.
Proof.
  refine (proj1 (scrape_pauses_between_requests (py := Scripted.interpreter)
      (world := Scripted.down_after_one)
                   Scripted.scraper Scripted.product 100 [] _ _ _)).
  vm_compute. reflexivity.
Defined.
